(** * converterpdf: the romaneio text parser of [app.py]

    A shallow embedding of the parsing core of [app.py] (number
    normalisation, header extraction, note segmentation, block parsing,
    date normalisation and the per-document pipeline), together with the
    parts of the Python runtime it leans on: [str] methods, the [re]
    module, [float()], and [datetime.strptime] / [strftime].

    Python strings are sequences of Unicode code points, so a [str] is a
    list of code points here; dictionaries are finite maps with string
    keys; exceptions are an explicit result type. *)

From Stdlib Require Import ZArith NArith Lia Ascii String SpecFloat.
From stdpp Require Import base option list gmap strings.

Local Open Scope N_scope.

(** ** Characters and strings *)

(** A character is its Unicode code point. *)
Definition char := N.
Definition str := list char.

(** Decoding of the UTF-8 bytes of a string literal of this file into the
    code points a Python [str] literal with the same text holds. *)
Fixpoint utf8_decode (bs : list N) (need : nat) (acc : N) : str :=
  match bs with
  | [] => []
  | b :: bs' =>
      match need with
      | O =>
          if b <? 128 then b :: utf8_decode bs' 0 0
          else if b <? 224 then utf8_decode bs' 1 (b - 192)
          else if b <? 240 then utf8_decode bs' 2 (b - 224)
          else utf8_decode bs' 3 (b - 240)
      | S O => (acc * 64 + (b - 128)) :: utf8_decode bs' 0 0
      | S n => utf8_decode bs' n (acc * 64 + (b - 128))
      end
  end.

Fixpoint bytes_of (s : string) : list N :=
  match s with
  | EmptyString => []
  | String a s' => N_of_ascii a :: bytes_of s'
  end.

(** [u "text"] is the Python string ["text"]. *)
Definition u (s : string) : str := utf8_decode (bytes_of s) 0 0.

Definition LF : char := 10.
Definition CR : char := 13.

Module Unicode.

(** The characters for which [str.isspace()] holds, which are also the
    ones [\s] matches and [str.strip()] removes. *)
Definition whitespace : list char :=
  [9; 10; 11; 12; 13; 28; 29; 30; 31; 32; 133; 160; 5760;
   8192; 8193; 8194; 8195; 8196; 8197; 8198; 8199; 8200; 8201; 8202;
   8232; 8233; 8239; 8287; 12288].

Definition isspace (c : char) : bool := existsb (N.eqb c) whitespace.

(** The code points of the digit zero of every decimal-digit block
    (general category Nd) of Unicode 14.0; each is followed by its
    digits one to nine. *)
Definition decimal_zeros : list char :=
  [48; 1632; 1776; 1984; 2406; 2534; 2662; 2790; 2918; 3046; 3174;
   3302; 3430; 3558; 3664; 3792; 3872; 4160; 4240; 6112; 6160; 6470;
   6608; 6784; 6800; 6992; 7088; 7232; 7248; 42528; 43216; 43264;
   43472; 43504; 43600; 44016; 65296; 66720; 68912; 69734; 69872;
   69942; 70096; 70384; 70736; 70864; 71248; 71360; 71472; 71904;
   72016; 72784; 73040; 73120; 92768; 92864; 93008; 120782; 120792;
   120802; 120812; 120822; 123200; 123632; 125264; 130032].

(** [Py_UNICODE_TODECIMAL]: the value of a decimal digit. *)
Fixpoint todecimal_in (zeros : list char) (c : char) : option N :=
  match zeros with
  | [] => None
  | z :: zs =>
      if (z <=? c) && (c <? z + 10) then Some (c - z)
      else todecimal_in zs c
  end.

Definition todecimal (c : char) : option N := todecimal_in decimal_zeros c.

(** [str.isdecimal()] on one character; what [\d] matches. *)
Definition isdecimal (c : char) : bool :=
  match todecimal c with Some _ => true | None => false end.

(** The line boundaries of [str.splitlines()]. *)
Definition linebreaks : list char :=
  [10; 11; 12; 13; 28; 29; 30; 133; 8232; 8233].

Definition islinebreak (c : char) : bool := existsb (N.eqb c) linebreaks.

(** Simple lower-case mapping, as the [re] module applies it to the
    subject under [IGNORECASE].  The table lists every character whose
    lower-case form is an ASCII or Latin-1 letter; a character outside
    it is mapped to itself, so the function decides case-insensitive
    equality with any pattern letter below U+0100, which covers the
    patterns of this program. *)
Definition tolower (c : char) : char :=
  if (65 <=? c) && (c <=? 90) then c + 32
  else if (192 <=? c) && (c <=? 222) && negb (c =? 215) then c + 32
  else if c =? 304 then 105
  else if c =? 376 then 255
  else if c =? 7838 then 223
  else if c =? 8490 then 107
  else if c =? 8491 then 229
  else c.

(** [_sre.unicode_iscased] on the characters below U+0100. *)
Definition iscased (c : char) : bool :=
  ((65 <=? c) && (c <=? 90)) || ((97 <=? c) && (c <=? 122))
  || (c =? 181)
  || ((192 <=? c) && (c <=? 255) && negb (c =? 215) && negb (c =? 247)).

(** The extra case equivalents the [re] compiler adds to a lower-cased
    pattern letter (dotless i, long s, Greek mu). *)
Definition casefix (c : char) : list char :=
  if c =? 105 then [305]
  else if c =? 115 then [383]
  else if c =? 181 then [956]
  else [].

End Unicode.

(** *** [str] methods *)

Fixpoint lstrip (s : str) : str :=
  match s with
  | c :: s' => if Unicode.isspace c then lstrip s' else s
  | [] => []
  end.

Definition rstrip (s : str) : str := rev (lstrip (rev s)).

(** [s.strip()] *)
Definition strip (s : str) : str := lstrip (rstrip s).

(** [s[i:j]] for non-negative [i] and [j]. *)
Definition slice (s : str) (i j : nat) : str := take (j - i) (drop i s).

(** [s.replace(old, new)] where [old] is one character long, as it is at
    both call sites. *)
Definition replace (old : char) (new : str) (s : str) : str :=
  flat_map (fun c => if c =? old then new else [c]) s.

(** [s.splitlines()]: the lines of [s] without their line boundaries; a
    carriage return followed by a line feed is one boundary, and a final
    boundary opens no further line. *)
Fixpoint splitlines_aux (s : str) (cur : str) : list str :=
  match s with
  | [] => match cur with [] => [] | _ => [rev cur] end
  | c :: s' =>
      if Unicode.islinebreak c then
        match s' with
        | c' :: s'' =>
            if (c =? CR) && (c' =? LF)
            then rev cur :: splitlines_aux s'' []
            else rev cur :: splitlines_aux s' []
        | [] => [rev cur]
        end
      else splitlines_aux s' (c :: cur)
  end.

Definition splitlines (s : str) : list str := splitlines_aux s [].

(** [sep.join(parts)] *)
Fixpoint join (sep : str) (parts : list str) : str :=
  match parts with
  | [] => []
  | [p] => p
  | p :: ps => p ++ sep ++ join sep ps
  end.


(** ** Exceptions *)

Inductive exn := ValueError | AttributeError | TypeError | ReError | PdfError.

#[global] Instance exn_eq_dec : EqDecision exn.
Proof. solve_decision. Defined.

(** The outcome of a Python call: a value, or a raised exception. *)
Inductive pyres (A : Type) : Type :=
| Ret (a : A)
| Raise (e : exn).
Arguments Ret {A} a.
Arguments Raise {A} e.

#[global] Instance pyres_ret : MRet pyres := fun A a => Ret a.
#[global] Instance pyres_bind : MBind pyres := fun A B f m =>
  match m with
  | Ret a => f a
  | Raise e => Raise e
  end.

(** [try: body except E: handler] *)
Definition try_except {A} (body : pyres A) (E : exn) (handler : pyres A) : pyres A :=
  match body with
  | Ret a => Ret a
  | Raise e => if decide (e = E) then handler else Raise e
  end.

(** ** The [re] module *)

Module Re.

(** *** Patterns *)

(** A member of a bracketed set. *)
Inductive cset_item :=
| CLit (c : char)
| CRange (lo hi : char)
| CDigit
| CSpace.

(** What matches exactly one character. *)
Inductive atom :=
| ALit (c : char)
| AAny
| AIn (negate : bool) (items : list cset_item).

(** Parsed patterns.  Every quantifier of the program's patterns
    applies to a one-character item, so repetition is over an [atom]. *)
Inductive regex :=
| REmpty
| RAtom (a : atom)
| RRepeat (a : atom) (lo : nat) (hi : option nat) (greedy : bool)
| RSeq (r1 r2 : regex)
| RAlt (r1 r2 : regex)
| RGroup (n : nat) (r : regex)
| RBol
| REol.

Record flags := Flags { ignorecase : bool; dotall : bool }.

Definition NOFLAGS := Flags false false.
Definition IGNORECASE := Flags true false.
Definition IGNORECASE_DOTALL := Flags true true.

(** *** The pattern parser *)

Definition is_ascii_digit (c : char) : bool := (48 <=? c) && (c <=? 57).
Definition is_ascii_alpha (c : char) : bool :=
  ((65 <=? c) && (c <=? 90)) || ((97 <=? c) && (c <=? 122)).

(** The item a backslash escape stands for: a category, a control
    character, or the escaped punctuation itself. *)
Definition parse_escape (c : char) : option cset_item :=
  if c =? 100 then Some CDigit                    (* \d *)
  else if c =? 115 then Some CSpace               (* \s *)
  else if c =? 110 then Some (CLit LF)            (* \n *)
  else if c =? 116 then Some (CLit 9)             (* \t *)
  else if c =? 114 then Some (CLit CR)            (* \r *)
  else if is_ascii_alpha c || is_ascii_digit c then None
  else Some (CLit c).

Definition class_atom (s : str) : option (cset_item * str) :=
  match s with
  | 92 :: c :: s' => it ← parse_escape c; Some (it, s')
  | c :: s' => Some (CLit c, s')
  | [] => None
  end.

(** The members of a set, up to and including the closing bracket. *)
Fixpoint parse_class (fuel : nat) (s : str) : option (list cset_item * str) :=
  match fuel with
  | O => None
  | S fuel' =>
      match s with
      | 93 :: s' => Some ([], s')
      | _ =>
          '(it, s1) ← class_atom s;
          match s1 with
          | 45 :: 93 :: _ =>
              '(its, s2) ← parse_class fuel' s1; Some (it :: its, s2)
          | 45 :: s2 =>
              '(it2, s3) ← class_atom s2;
              match it, it2 with
              | CLit lo, CLit hi =>
                  if lo <=? hi
                  then '(its, s4) ← parse_class fuel' s3;
                       Some (CRange lo hi :: its, s4)
                  else None
              | _, _ => None
              end
          | _ => '(its, s2) ← parse_class fuel' s1; Some (it :: its, s2)
          end
      end
  end.

Definition is_special (c : char) : bool :=
  existsb (N.eqb c) [42; 43; 63; 123; 125; 40; 41; 124; 91; 93; 94; 36; 46; 92].

(** One-character items: [.], a set, an escape, or a literal. *)
Definition parse_single (s : str) : option (atom * str) :=
  match s with
  | 46 :: s' => Some (AAny, s')
  | 91 :: 94 :: s' =>
      '(its, s1) ← parse_class (S (length s')) s'; Some (AIn true its, s1)
  | 91 :: s' =>
      '(its, s1) ← parse_class (S (length s')) s'; Some (AIn false its, s1)
  | 92 :: c :: s' =>
      it ← parse_escape c;
      match it with
      | CLit p => Some (ALit p, s')
      | _ => Some (AIn false [it], s')
      end
  | c :: s' => if is_special c then None else Some (ALit c, s')
  | [] => None
  end.

Fixpoint parse_nat (s : str) (acc : nat) : nat * str :=
  match s with
  | c :: s' =>
      if is_ascii_digit c
      then parse_nat s' (10 * acc + N.to_nat (c - 48))%nat
      else (acc, s)
  | [] => (acc, s)
  end.

(** A quantifier, when one follows: its bounds and what comes after. *)
Definition parse_bounds (s : str) : option (nat * option nat * str) :=
  match s with
  | 42 :: s' => Some (O, None, s')
  | 43 :: s' => Some (1%nat, None, s')
  | 63 :: s' => Some (O, Some 1%nat, s')
  | 123 :: c :: s' =>
      if is_ascii_digit c then
        let '(lo, s1) := parse_nat (c :: s') 0 in
        match s1 with
        | 125 :: s2 => Some (lo, Some lo, s2)
        | 44 :: 125 :: s2 => Some (lo, None, s2)
        | 44 :: c2 :: s2 =>
            if is_ascii_digit c2 then
              let '(hi, s3) := parse_nat (c2 :: s2) 0 in
              match s3 with
              | 125 :: s4 => if (lo <=? hi)%nat then Some (lo, Some hi, s4) else None
              | _ => None
              end
            else None
        | _ => None
        end
      else None
  | _ => None
  end.

Definition starts_quantifier (s : str) : bool :=
  match s with
  | c :: _ => existsb (N.eqb c) [42; 43; 63; 123]
  | [] => false
  end.

Definition quantified (a : atom) (s : str) : option (regex * str) :=
  if starts_quantifier s then
    '(lo, hi, s1) ← parse_bounds s;
    match s1 with
    | 63 :: s2 => Some (RRepeat a lo hi false, s2)
    | _ => Some (RRepeat a lo hi true, s1)
    end
  else Some (RAtom a, s).

Definition mkseq (r1 r2 : regex) : regex :=
  match r2 with
  | REmpty => r1
  | _ => RSeq r1 r2
  end.

(** What follows the name of a named group [(?P<name>...)]. *)
Fixpoint skip_name (s : str) : str :=
  match s with
  | c :: s' => if c =? 62 then s' else skip_name s'
  | [] => []
  end.

(** Alternations, sequences and items; [g] counts the capturing groups
    opened so far, which numbers them in the order of their opening
    parentheses.  A quantifier after a group is not supported. *)
Fixpoint parse_alt (fuel : nat) (s : str) (g : nat) : option (regex * str * nat) :=
  match fuel with
  | O => None
  | S fuel' =>
      '(r1, s1, g1) ← parse_seq fuel' s g;
      match s1 with
      | 124 :: s2 =>
          '(r2, s3, g2) ← parse_alt fuel' s2 g1; Some (RAlt r1 r2, s3, g2)
      | _ => Some (r1, s1, g1)
      end
  end
with parse_seq (fuel : nat) (s : str) (g : nat) : option (regex * str * nat) :=
  match fuel with
  | O => None
  | S fuel' =>
      match s with
      | [] => Some (REmpty, s, g)
      | c :: _ =>
          if (c =? 124) || (c =? 41) then Some (REmpty, s, g)
          else
            '(r1, s1, g1) ← parse_item fuel' s g;
            '(r2, s2, g2) ← parse_seq fuel' s1 g1;
            Some (mkseq r1 r2, s2, g2)
      end
  end
with parse_item (fuel : nat) (s : str) (g : nat) : option (regex * str * nat) :=
  match fuel with
  | O => None
  | S fuel' =>
      match s with
      | 40 :: 63 :: 58 :: s' =>
          '(r, s1, g1) ← parse_alt fuel' s' g;
          match s1 with
          | 41 :: s2 => if starts_quantifier s2 then None else Some (r, s2, g1)
          | _ => None
          end
      | 40 :: 63 :: 80 :: 60 :: s' =>
        '(r, s1, g1) ← parse_alt fuel' (skip_name s') (S g);
        match s1 with
        | 41 :: s2 =>
            if starts_quantifier s2 then None else Some (RGroup (S g) r, s2, g1)
        | _ => None
        end
    | 40 :: 63 :: _ => None
      | 40 :: s' =>
          '(r, s1, g1) ← parse_alt fuel' s' (S g);
          match s1 with
          | 41 :: s2 =>
              if starts_quantifier s2 then None else Some (RGroup (S g) r, s2, g1)
          | _ => None
          end
      | 94 :: s' => Some (RBol, s', g)
      | 36 :: s' => Some (REol, s', g)
      | _ =>
          '(a, s1) ← parse_single s;
          '(r, s2) ← quantified a s1;
          Some (r, s2, g)
      end
  end.

(** [re.compile(pattern)]; [None] stands for [re.error]. *)
Definition compile (pattern : string) : option regex :=
  let s := u pattern in
  '(r, rest, _) ← parse_alt (4 * length s + 4) s 0;
  match rest with
  | [] => Some r
  | _ => None
  end.

(** *** Matching one character *)

(** The code points from [lo] to [hi]. *)
Definition char_range (lo hi : char) : list char :=
  map (fun i => lo + N.of_nat i) (seq 0 (S (N.to_nat (hi - lo)))).

(** Equality of a lower-cased subject character with a lower-cased
    pattern letter or one of its extra case equivalents. *)
Definition ci_eq (x lo : char) : bool :=
  (x =? lo) || existsb (N.eqb x) (Unicode.casefix lo).

Definition item_match (it : cset_item) (c : char) : bool :=
  match it with
  | CLit p => c =? p
  | CRange lo hi => (lo <=? c) && (c <=? hi)
  | CDigit => Unicode.isdecimal c
  | CSpace => Unicode.isspace c
  end.

Definition item_hascased (it : cset_item) : bool :=
  match it with
  | CLit p => Unicode.iscased p
  | CRange lo hi => existsb Unicode.iscased (char_range lo hi)
  | CDigit | CSpace => false
  end.

(** Membership of the lower-cased subject character [x] in a set whose
    members were lower-cased when the pattern was compiled. *)
Definition item_match_ic (it : cset_item) (x : char) : bool :=
  match it with
  | CLit p => ci_eq x (Unicode.tolower p)
  | CRange lo hi =>
      existsb (fun y => ci_eq x (Unicode.tolower y)) (char_range lo hi)
  | CDigit => Unicode.isdecimal x
  | CSpace => Unicode.isspace x
  end.

(** Under [IGNORECASE] a literal or a set is compared case-insensitively
    only when it holds a cased character; otherwise the subject character
    is compared as it is. *)
Definition atom_match (fl : flags) (a : atom) (c : char) : bool :=
  match a with
  | ALit p =>
      if ignorecase fl && Unicode.iscased p
      then ci_eq (Unicode.tolower c) (Unicode.tolower p)
      else c =? p
  | AAny => dotall fl || negb (c =? LF)
  | AIn negate items =>
      xorb negate
        (if ignorecase fl && existsb item_hascased items
         then existsb (fun it => item_match_ic it (Unicode.tolower c)) items
         else existsb (fun it => item_match it c) items)
  end.

(** *** The backtracking matcher *)

(** A position in the subject: the offset, the text from there on, and
    the spans of the groups closed so far (most recent first). *)
Record mstate := MState {
  m_pos : nat;
  m_rest : str;
  m_marks : list (nat * (nat * nat))
}.

Definition exhausted (hi : option nat) : bool :=
  match hi with
  | Some O => true
  | _ => false
  end.

(** A greedy repetition takes as many characters as it can and gives
    them back one at a time while what follows fails. *)
Fixpoint repeat_greedy (fl : flags) (a : atom) (lo : nat) (hi : option nat)
    (pos : nat) (rest : str) (k : nat -> str -> option mstate) : option mstate :=
  let stop := match lo with O => k pos rest | S _ => None end in
  match rest with
  | c :: rest' =>
      if atom_match fl a c && negb (exhausted hi) then
        match repeat_greedy fl a (Nat.pred lo) (Nat.pred <$> hi) (S pos) rest' k with
        | Some r => Some r
        | None => stop
        end
      else stop
  | [] => stop
  end.

(** A lazy repetition takes the fewest characters it may and one more
    each time what follows fails. *)
Fixpoint repeat_lazy (fl : flags) (a : atom) (lo : nat) (hi : option nat)
    (pos : nat) (rest : str) (k : nat -> str -> option mstate) : option mstate :=
  let more :=
    match rest with
    | c :: rest' =>
        if atom_match fl a c && negb (exhausted hi)
        then repeat_lazy fl a (Nat.pred lo) (Nat.pred <$> hi) (S pos) rest' k
        else None
    | [] => None
    end in
  match lo with
  | O => match k pos rest with
         | Some r => Some r
         | None => more
         end
  | S _ => more
  end.

(** [run fl r st k] matches [r] at [st] and hands the position reached to
    the continuation [k]; a failing continuation makes the matcher try
    its next alternative, in the order Python tries them. *)
Fixpoint run (fl : flags) (r : regex) (st : mstate)
    (k : mstate -> option mstate) : option mstate :=
  match r with
  | REmpty => k st
  | RAtom a =>
      match m_rest st with
      | c :: rest' =>
          if atom_match fl a c
          then k (MState (S (m_pos st)) rest' (m_marks st))
          else None
      | [] => None
      end
  | RRepeat a lo hi true =>
      repeat_greedy fl a lo hi (m_pos st) (m_rest st)
        (fun p rest => k (MState p rest (m_marks st)))
  | RRepeat a lo hi false =>
      repeat_lazy fl a lo hi (m_pos st) (m_rest st)
        (fun p rest => k (MState p rest (m_marks st)))
  | RSeq r1 r2 => run fl r1 st (fun st' => run fl r2 st' k)
  | RAlt r1 r2 =>
      match run fl r1 st k with
      | Some res => Some res
      | None => run fl r2 st k
      end
  | RGroup n r' =>
      run fl r' st (fun st' =>
        k (MState (m_pos st') (m_rest st')
             ((n, (m_pos st, m_pos st')) :: m_marks st')))
  | RBol => if (m_pos st =? 0)%nat then k st else None
  | REol =>
      match m_rest st with
      | [] => k st
      | [c] => if c =? LF then k st else None
      | _ => None
      end
  end.

(** *** Match objects *)

Record match_obj := Match {
  mo_string : str;
  mo_start : nat;
  mo_end : nat;
  mo_marks : list (nat * (nat * nat))
}.

Fixpoint lookup_mark (n : nat) (marks : list (nat * (nat * nat))) : option (nat * nat) :=
  match marks with
  | [] => None
  | (i, span) :: marks' => if (i =? n)%nat then Some span else lookup_mark n marks'
  end.

(** [m.span(n)]; group 0 is the whole match. *)
Definition span (m : match_obj) (n : nat) : option (nat * nat) :=
  match n with
  | O => Some (mo_start m, mo_end m)
  | _ => lookup_mark n (mo_marks m)
  end.

(** [m.group(n)]: the text of the group, [None] when it took no part. *)
Definition group (m : match_obj) (n : nat) : option str :=
  '(i, j) ← span m n; Some (slice (mo_string m) i j).

(** [m.start(n)] of a group that took part in the match. *)
Definition start (m : match_obj) (n : nat) : option nat := fst <$> span m n.

Definition match_at (fl : flags) (r : regex) (text : str) (pos : nat) (rest : str)
    : option match_obj :=
  st ← run fl r (MState pos rest []) Some;
  Some (Match text pos (m_pos st) (m_marks st)).

(** [pattern.match(text)]: a match at the start of [text]. *)
Definition match_ (fl : flags) (r : regex) (text : str) : option match_obj :=
  match_at fl r text 0 text.

Fixpoint search_from (fl : flags) (r : regex) (text : str) (pos : nat) (rest : str)
    : option match_obj :=
  match match_at fl r text pos rest with
  | Some m => Some m
  | None =>
      match rest with
      | [] => None
      | _ :: rest' => search_from fl r text (S pos) rest'
      end
  end.

(** [pattern.search(text)]: the match at the leftmost position that has
    one. *)
Definition search (fl : flags) (r : regex) (text : str) : option match_obj :=
  search_from fl r text 0 text.

(** [pattern.finditer(text)]: the matches from left to right, each search
    starting where the previous match ended.  [skip] counts the
    characters still covered by the previous match.  After an empty match
    the scan moves on by one character; the patterns this is used with
    match no empty string. *)
Fixpoint finditer_from (fl : flags) (r : regex) (text : str) (pos : nat) (rest : str)
    (skip : nat) : list match_obj :=
  match skip with
  | O =>
      match match_at fl r text pos rest with
      | Some m =>
          m :: match rest with
               | [] => []
               | _ :: rest' =>
                   finditer_from fl r text (S pos) rest' (Nat.pred (mo_end m - pos))
               end
      | None =>
          match rest with
          | [] => []
          | _ :: rest' => finditer_from fl r text (S pos) rest' 0
          end
      end
  | S skip' =>
      match rest with
      | [] => []
      | _ :: rest' => finditer_from fl r text (S pos) rest' skip'
      end
  end.

Definition finditer (fl : flags) (r : regex) (text : str) : list match_obj :=
  finditer_from fl r text 0 text 0.

End Re.

(** [re.search(pattern, text, flags)] with the pattern compiled on the
    way, as the module-level functions of [re] do. *)
Definition re_search (pattern : string) (text : str) (fl : Re.flags)
    : pyres (option Re.match_obj) :=
  match Re.compile pattern with
  | Some r => Ret (Re.search fl r text)
  | None => Raise ReError
  end.

(** [re.match(pattern, text, flags)] *)
Definition re_match (pattern : string) (text : str) (fl : Re.flags)
    : pyres (option Re.match_obj) :=
  match Re.compile pattern with
  | Some r => Ret (Re.match_ fl r text)
  | None => Raise ReError
  end.

(** [match.group(n)] where the program goes on to call a [str] method on
    the result: a group that took no part is [None], and the method call
    raises [AttributeError]. *)
Definition group_str (m : Re.match_obj) (n : nat) : pyres str :=
  match Re.group m n with
  | Some s => Ret s
  | None => Raise AttributeError
  end.

(** ** [float()] on a string *)

Module PyFloat.

Local Open Scope Z_scope.

(** Python floats are IEEE 754 binary64 values. *)
Definition prec : Z := 53.
Definition emax : Z := 1024.

(** The binary64 value nearest to [m * 10 ^ e10] (ties to even), with the
    sign [neg]; [m] is not negative.  Values too large become an
    infinity, as [float()] has no overflow error. *)
Definition of_decimal (neg : bool) (m : Z) (e10 : Z) : spec_float :=
  match m with
  | Z0 => S754_zero neg
  | Zpos p =>
      if 0 <=? e10
      then binary_normalize prec emax (cond_Zopp neg (Zpos p * 10 ^ e10)) 0 neg
      else
        let '(q, e, l) := SFdiv_core_binary prec emax (Zpos p) 0 (10 ^ (- e10)) 0 in
        binary_round_aux prec emax neg q e l
  | Zneg _ => S754_nan
  end.

Definition is_digit (c : char) : bool := ((48 <=? c) && (c <=? 57))%N.

Fixpoint digits_value (ds : str) (acc : Z) : Z :=
  match ds with
  | [] => acc
  | d :: ds' => digits_value ds' (10 * acc + (Z.of_N d - 48))
  end.

(** The leading ASCII digits of a string, and what follows them. *)
Fixpoint span_digits (s : str) : str * str :=
  match s with
  | c :: s' =>
      if is_digit c
      then let '(ds, rest) := span_digits s' in (c :: ds, rest)
      else ([], s)
  | [] => ([], [])
  end.

Definition ascii_lower (c : char) : char :=
  (if (65 <=? c) && (c <=? 90) then c + 32 else c)%N.

Definition split_sign (s : str) : bool * str :=
  match s with
  | 45%N :: s' => (true, s')
  | 43%N :: s' => (false, s')
  | _ => (false, s)
  end.

(** The decimal prefix the string-to-double conversion reads: digits with
    an optional point, at least one digit in all, then an exponent when a
    well-formed one follows.  The result is the digit string's value, the
    power of ten to scale it by, and the unread rest. *)
Definition parse_decimal (s : str) : option (Z * Z * str) :=
  let '(ip, s1) := span_digits s in
  let '(fp, s2) :=
    match s1 with
    | 46%N :: t => span_digits t
    | _ => ([], s1)
    end in
  match ip ++ fp with
  | [] => None
  | ds =>
      let '(e, s3) :=
        match s2 with
        | c :: t =>
            if ((c =? 101) || (c =? 69))%N then
              let '(eneg, t1) := split_sign t in
              let '(ed, t2) := span_digits t1 in
              match ed with
              | [] => (0, s2)
              | _ => (cond_Zopp eneg (digits_value ed 0), t2)
              end
            else (0, s2)
        | [] => (0, s2)
        end in
      Some (digits_value ds 0, e - Z.of_nat (length fp), s3)
  end.

(** A whole string as a float literal: a decimal number, or [inf],
    [infinity] or [nan] in any case, after an optional sign. *)
Definition parse_literal (s : str) : option spec_float :=
  let '(neg, body) := split_sign s in
  match parse_decimal body with
  | Some (m, e10, rest) =>
      match rest with
      | [] => Some (of_decimal neg m e10)
      | _ => None
      end
  | None =>
      let low := map ascii_lower body in
      if bool_decide (low = u "inf") || bool_decide (low = u "infinity")
      then Some (S754_infinity neg)
      else if bool_decide (low = u "nan") then Some S754_nan
      else None
  end.

(** Non-ASCII white space becomes a space and a non-ASCII decimal digit
    its ASCII digit; the string is cut after the first character that is
    neither, which is replaced by a question mark. *)
Fixpoint transform_decimal_and_space_to_ascii (s : str) : str :=
  match s with
  | [] => []
  | c :: s' =>
      if (c <? 127)%N then c :: transform_decimal_and_space_to_ascii s'
      else if Unicode.isspace c then 32%N :: transform_decimal_and_space_to_ascii s'
      else
        match Unicode.todecimal c with
        | Some d => (48 + d)%N :: transform_decimal_and_space_to_ascii s'
        | None => [63%N]
        end
  end.

(** The white space of the C locale. *)
Definition isspace_ascii (c : char) : bool :=
  (((9 <=? c) && (c <=? 13)) || (c =? 32))%N.

Fixpoint lstrip_ascii (s : str) : str :=
  match s with
  | c :: s' => if isspace_ascii c then lstrip_ascii s' else s
  | [] => []
  end.

Definition strip_ascii (s : str) : str :=
  lstrip_ascii (rev (lstrip_ascii (rev s))).

(** Underscores may only sit between two digits; [prev] is the character
    before.  The result is the string without them. *)
Fixpoint remove_underscores (s : str) (prev : char) : option str :=
  match s with
  | [] => if (prev =? 95)%N then None else Some []
  | c :: s' =>
      if (c =? 95)%N then
        if is_digit prev then remove_underscores s' c else None
      else if (prev =? 95)%N && negb (is_digit c) then None
      else cons c <$> remove_underscores s' c
  end.

(** [float(s)] for a string [s]. *)
Definition float (s : str) : pyres spec_float :=
  let t := strip_ascii (transform_decimal_and_space_to_ascii s) in
  match remove_underscores t 0%N with
  | None => Raise ValueError
  | Some d =>
      match parse_literal d with
      | Some x => Ret x
      | None => Raise ValueError
      end
  end.

End PyFloat.


(** ** [datetime.strptime] and [strftime] *)

Module PyDatetime.

Record date := Date { year : N; month : N; day : N }.

Definition is_leap (y : N) : bool :=
  (y mod 4 =? 0) && (negb (y mod 100 =? 0) || (y mod 400 =? 0)).

Definition days_in_month (y m : N) : N :=
  if m =? 2 then (if is_leap y then 29 else 28)
  else if (m =? 4) || (m =? 6) || (m =? 9) || (m =? 11) then 30
  else 31.

(** The constructor of [datetime.date], which refuses a date that does
    not exist. *)
Definition make_date (y m d : N) : pyres date :=
  if (1 <=? y) && (y <=? 9999) && (1 <=? m) && (m <=? 12)
     && (1 <=? d) && (d <=? days_in_month y m)
  then Ret (Date y m d)
  else Raise ValueError.

(** The regular expression [_strptime] has for a directive; the four
    below are the ones the program's formats use. *)
Definition directive_pattern (c : ascii) : option string :=
  if decide (c = "d"%char) then Some "(?P<d>3[0-1]|[1-2]\d|0[1-9]|[1-9]| [1-9])"
  else if decide (c = "m"%char) then Some "(?P<m>1[0-2]|0[1-9]|[1-9])"
  else if decide (c = "y"%char) then Some "(?P<y>\d\d)"
  else if decide (c = "Y"%char) then Some "(?P<Y>\d\d\d\d)"
  else None.

(** The pattern of a format, and its directives in the order of their
    groups.  The formats of the program hold no character that
    [_strptime] would have to escape or replace. *)
Fixpoint format_pattern (fmt : string) : option (string * list ascii) :=
  match fmt with
  | EmptyString => Some (EmptyString, [])
  | String "%" (String c fmt') =>
      p ← directive_pattern c;
      '(ps, ds) ← format_pattern fmt';
      Some ((p ++ ps)%string, c :: ds)
  | String "%" EmptyString => None
  | String c fmt' =>
      '(ps, ds) ← format_pattern fmt';
      Some (String c ps, ds)
  end.

(** [int(s)] on the text of a group: decimal digits, possibly with white
    space around them. *)
Fixpoint digits_to_N (s : str) (acc : N) : option N :=
  match s with
  | [] => Some acc
  | c :: s' => d ← Unicode.todecimal c; digits_to_N s' (10 * acc + d)
  end.

Definition int (s : str) : pyres N :=
  match strip s with
  | [] => Raise ValueError
  | t => match digits_to_N t 0 with
         | Some n => Ret n
         | None => Raise ValueError
         end
  end.

(** The fields found so far: year, month and day, each with the default
    [_strptime] starts from. *)
Fixpoint read_fields (m : Re.match_obj) (ds : list ascii) (i : nat)
    (y : option N) (mo d : N) : pyres (option N * N * N) :=
  match ds with
  | [] => Ret (y, mo, d)
  | c :: ds' =>
      g ← group_str m i;
      v ← int g;
      if decide (c = "y"%char)
      then read_fields m ds' (S i) (Some (if v <=? 68 then v + 2000 else v + 1900)) mo d
      else if decide (c = "Y"%char) then read_fields m ds' (S i) (Some v) mo d
      else if decide (c = "m"%char) then read_fields m ds' (S i) y v d
      else read_fields m ds' (S i) y mo v
  end.

(** [datetime.strptime(data_string, format)], reduced to its date. *)
Definition strptime (data_string : str) (format : string) : pyres date :=
  match format_pattern format with
  | None => Raise ValueError
  | Some (pat, ds) =>
      found ← re_match pat data_string Re.IGNORECASE;
      match found with
      | None => Raise ValueError
      | Some m =>
          if negb (length data_string =? Re.mo_end m)%nat then Raise ValueError
          else
            '(y, mo, d) ← read_fields m ds 1 None 1 1;
            make_date (default 1900 y) mo d
      end
  end.

(** The decimal digits of [n], zero-padded to [width]. *)
Fixpoint pad_digits (width : nat) (n : N) (acc : str) : str :=
  match width with
  | O => acc
  | S w => pad_digits w (n / 10) ((48 + n mod 10) :: acc)
  end.

(** The decimal digits of [n] without leading zeros, as C's [printf]
    writes a number; [fuel] bounds their count. *)
Fixpoint unpadded_digits (fuel : nat) (n : N) (acc : str) : str :=
  match fuel with
  | O => acc
  | S fuel' =>
      let acc' := (48 + n mod 10) :: acc in
      if n / 10 =? 0 then acc' else unpadded_digits fuel' (n / 10) acc'
  end.

Definition decimal (n : N) : str :=
  unpadded_digits (S (N.to_nat (N.log2 n))) n [].

(** [d.strftime(format)] for the directives [%d], [%m] and [%Y].  CPython
    hands the format to the [strftime] of the C library: day and month
    come on two digits, and the year as glibc writes [%Y], in decimal
    without padding, so that a year below 1000 has fewer than four
    digits. *)
Fixpoint strftime (dt : date) (format : string) : pyres str :=
  match format with
  | EmptyString => Ret []
  | String "%" (String c fmt') =>
      rest ← strftime dt fmt';
      if decide (c = "d"%char) then Ret (pad_digits 2 (day dt) [] ++ rest)
      else if decide (c = "m"%char) then Ret (pad_digits 2 (month dt) [] ++ rest)
      else if decide (c = "Y"%char) then Ret (decimal (year dt) ++ rest)
      else Raise ValueError
  | String c fmt' => rest ← strftime dt fmt'; Ret (N_of_ascii c :: rest)
  end.

End PyDatetime.

(** ** The program *)

(** The values a record holds: [None], a string, or a float. *)
Inductive pyval :=
| PNone
| PStr (s : str)
| PFloat (x : spec_float).

(** A Python [dict] with string keys. *)
Abbreviation dict := (gmap string pyval).

(** [{**d, k1: v1, ..., kn: vn}]: the items are set from left to right,
    a later one replacing an earlier one with the same key. *)
Definition dict_update (d : dict) (items : list (string * pyval)) : dict :=
  foldl (fun acc kv => <[kv.1 := kv.2]> acc) d items.

Definition COLUMNS : list string :=
  [ "rota";
    "data_emissao";
    "data_previsao";
    "motorista";
    "veiculo";
    "carga";
    "numero_nota";
    "codigo_cliente";
    "nome_cliente";
    "pedido";
    "cidade";
    "peso_pedido";
    "endereco";
    "total_nota";
    "forma_recebimento";
    "valor_recebimento" ].

(** A float-or-[None] as a record value. *)
Definition of_number (x : option spec_float) : pyval :=
  match x with
  | Some f => PFloat f
  | None => PNone
  end.

Definition parse_br_number (value : option str) : pyres (option spec_float) :=
  match value with
  | None => Ret None
  | Some v =>
      let text := strip v in
      match text with
      | [] => Ret None
      | _ =>
          let normalized := replace 44 (u ".") (replace 46 (u "") text) in
          try_except (x ← PyFloat.float normalized; Ret (Some x))
            ValueError (Ret None)
      end
  end.

(** The local function [find] of [extract_header_fields] and of
    [parse_block]: the first group of the first match of [pattern] in
    [subject], stripped, or the empty string. *)
Definition find (subject : str) (pattern : string) : pyres str :=
  m ← re_search pattern subject Re.IGNORECASE;
  match m with
  | Some mo => g ← group_str mo 1; Ret (strip g)
  | None => Ret []
  end.

(** The loop over the lines that looks for the route line. *)
Fixpoint first_rota (lines : list str) : pyres str :=
  match lines with
  | [] => Ret []
  | line :: lines' =>
      m ← re_match "^\d{2,4}\s+[A-Za-zÀ-ÿ0-9 .,\-()]+$" line Re.NOFLAGS;
      match m with
      | Some _ => Ret line
      | None => first_rota lines'
      end
  end.

Definition nonempty (s : str) : bool :=
  match s with
  | [] => false
  | _ => true
  end.

Definition extract_header_fields (text : str) : pyres dict :=
  let lines :=
    map strip (List.filter (fun line => nonempty (strip line)) (splitlines text)) in
  rota ← first_rota lines;
  data_emissao ← find text "Emiss[aã]o:\s*([\d/]{8,10})";
  data_previsao ← find text "Previs[aã]o:\s*([\d/]{8,10})";
  motorista ← find text "Motorista:\s*([^\n]+)";
  veiculo ← find text "Ve[ií]culo:\s*([^\n]+)";
  carga ← find text "Carga[:\s]+([0-9\.,]+)";
  Ret (dict_update ∅
         [ ("rota", PStr rota);
           ("data_emissao", PStr data_emissao);
           ("data_previsao", PStr data_previsao);
           ("motorista", PStr motorista);
           ("veiculo", PStr veiculo);
           ("carga", PStr carga) ]).

(** [re.compile(pattern)] *)
Definition re_compile (pattern : string) : pyres Re.regex :=
  match Re.compile pattern with
  | Some r => Ret r
  | None => Raise ReError
  end.

(** [m.start(n)], which is [-1] for a group that took no part. *)
Definition start (m : Re.match_obj) (n : nat) : Z :=
  match Re.span m n with
  | Some (i, _) => Z.of_nat i
  | None => (-1)%Z
  end.

(** [len(s)] *)
Definition len (s : str) : Z := Z.of_nat (length s).

(** [s[i:j]] for integers: a negative index counts from the end, and
    both are clipped to the string. *)
Definition clip (s : str) (i : Z) : nat :=
  Z.to_nat (Z.min (len s) (if (i <? 0)%Z then Z.max 0 (i + len s) else i)).

Definition py_slice (s : str) (i j : Z) : str := slice s (clip s i) (clip s j).

(** The loop of [split_notes_blocks] over [enumerate(positions)]. *)
Definition blocks_of (text : str) (positions : list Z) : list str :=
  imap (fun idx start =>
          let end_ :=
            match positions !! (idx + 1)%nat with
            | Some e => e
            | None => len text
            end in
          strip (py_slice text start end_))
       positions.

Definition split_notes_blocks (text : str) : pyres (list str) :=
  note_pattern ← re_compile "(?:^|\n)\s*(\d{3,5}-\d{3,})";
  let positions := map (fun m => start m 1) (Re.finditer Re.NOFLAGS note_pattern text) in
  positions ←
    match positions with
    | [] =>
        pedido_pattern ← re_compile "(?:^|\n)\s*Pedido:\s*\d+";
        Ret (map (fun m => start m 0) (Re.finditer Re.NOFLAGS pedido_pattern text))
    | _ => Ret positions
    end;
  match positions with
  | [] => Ret []
  | _ => Ret (blocks_of text positions)
  end.

(** The closing loop of [parse_block]: a column the record lacks is set
    to [None]. *)
Definition fill_missing (record : dict) : dict :=
  foldl (fun rec key =>
           match rec !! key with
           | None => <[key := PNone]> rec
           | Some _ => rec
           end)
        record COLUMNS.

Definition parse_block (block : str) (header : dict) : pyres dict :=
  numero_nota ← find block "^\s*(\d{3,5}-\d+)";
  nome_line ← find block "Nome:\s*([^\n]+)";
  '(codigo_cliente, nome_cliente) ←
    match nome_line with
    | [] => Ret ([], [])
    | _ =>
        code_match ← re_match "(\d+)\s*-\s*(.+)" nome_line Re.NOFLAGS;
        match code_match with
        | Some m =>
            g1 ← group_str m 1;
            g2 ← group_str m 2;
            Ret (strip g1, strip g2)
        | None => Ret ([], nome_line)
        end
    end;
  pedido ← find block "Pedido:\s*([^\n]+)";
  cidade ← find block "Cidade:\s*([^\n]+)";
  peso_token ← find block "Peso\s*Pedido:\s*([0-9\.,]+)";
  peso_pedido ← parse_br_number (Some peso_token);
  endereco ← find block "Endere[cç]o:\s*([^\n]+)";
  total_token ← find block "Total\s+da\s+Nota:\s*R?\$?\s*([0-9\.,]+)";
  total_nota ← parse_br_number (Some total_token);
  dup_match ←
    re_search "Duplicata\s+a\s+Receber\s*(.*?)\s*Valor:\s*R?\$?\s*([0-9\.,]+)"
      block Re.IGNORECASE_DOTALL;
  '(forma_recebimento, valor_recebimento) ←
    match dup_match with
    | Some m =>
        g1 ← group_str m 1;
        v ← parse_br_number (Re.group m 2);
        Ret (strip g1, v)
    | None => Ret ([], None)
    end;
  let record :=
    dict_update header
      [ ("numero_nota", PStr numero_nota);
        ("codigo_cliente", PStr codigo_cliente);
        ("nome_cliente", PStr nome_cliente);
        ("pedido", PStr pedido);
        ("cidade", PStr cidade);
        ("peso_pedido", of_number peso_pedido);
        ("endereco", PStr endereco);
        ("total_nota", of_number total_nota);
        ("forma_recebimento", PStr forma_recebimento);
        ("valor_recebimento", of_number valor_recebimento) ] in
  Ret (fill_missing record).

Definition parse_text_to_records (text : str) : pyres (list dict) :=
  header ← extract_header_fields text;
  blocks ← split_notes_blocks text;
  mapM (fun block => parse_block block header) blocks.

(** The two formats [format_date_br] tries, in order; a [ValueError]
    moves on to the next one, and the stripped input is what is left
    when both fail. *)
Fixpoint format_date_loop (date_str : str) (fmts : list string) : pyres str :=
  match fmts with
  | [] => Ret (strip date_str)
  | fmt :: fmts' =>
      try_except
        (d ← PyDatetime.strptime date_str fmt; PyDatetime.strftime d "%d/%m/%Y")
        ValueError
        (format_date_loop date_str fmts')
  end.

Definition format_date_br (date_str : str) : pyres str :=
  match date_str with
  | [] => Ret []
  | _ => format_date_loop date_str ["%d/%m/%Y"; "%d/%m/%y"]
  end.

(** [pd.DataFrame(records, columns=COLUMNS)]: every row is cut to the
    columns asked for, and a column a record lacks holds NaN.  A cell
    holds the value of the record; that pandas turns [None] into NaN in
    a column where floats stand is left out, and no statement below
    rests on the value of a numeric cell of a frame. *)
Definition DataFrame (records : list dict) (columns : list string) : list dict :=
  map (fun rec : dict =>
         dict_update ∅
           (map (fun k => (k, default (PFloat S754_nan) (rec !! k))) columns))
      records.

(** [parse_pdf], on the pages [pdfplumber] hands over: the text of each
    page, or [None] for a page without text. *)
Definition parse_pdf (pages : list (option str)) : pyres (list dict) :=
  let full_text_parts := map (fun page_text => default [] page_text) pages in
  let full_text := join [LF] full_text_parts in
  records ← parse_text_to_records full_text;
  Ret (DataFrame records COLUMNS).

(** [df[column] = df[column].apply(format_date_br)].  [format_date_br]
    answers the empty string for any falsy cell and hands any other one
    to [strptime], which wants a string. *)
Definition format_date_cell (v : pyval) : pyres pyval :=
  match v with
  | PStr s => t ← format_date_br s; Ret (PStr t)
  | PNone => Ret (PStr [])
  | PFloat (S754_zero _) => Ret (PStr [])
  | PFloat _ => Raise TypeError
  end.

Definition apply_format_date (column : string) (df : list dict) : pyres (list dict) :=
  mapM (fun row : dict =>
          v ← format_date_cell (default (PFloat S754_nan) (row !! column));
          Ret (<[column := v]> row))
       df.

(** An uploaded file: its name, and its pages or the exception that
    opening it raises. *)
Record upload := Upload {
  upload_name : str;
  upload_pages : pyres (list (option str))
}.

(** The body of the [try] in the loop of [main]: the rows to append, none
    for a file without notes. *)
Definition process_upload (f : upload) : pyres (list dict) :=
  pages ← upload_pages f;
  df_pdf ← parse_pdf pages;
  match df_pdf with
  | [] => Ret []
  | _ =>
      df1 ← apply_format_date "data_emissao" df_pdf;
      apply_format_date "data_previsao" df1
  end.

Inductive message :=
| Warning (name : str)
| Error (name : str) (e : exn).

(** The loop of [main] over the uploaded files: the data frames kept,
    and the messages shown. *)
Definition main_loop (uploaded_files : list upload) : list (list dict) * list message :=
  foldl (fun acc f =>
           match process_upload f with
           | Ret [] => (acc.1, acc.2 ++ [Warning (upload_name f)])
           | Ret df => (acc.1 ++ [df], acc.2)
           | Raise e => (acc.1, acc.2 ++ [Error (upload_name f) e])
           end)
        ([], []) uploaded_files.

(** [df_all], when at least one file had notes: [pd.concat(dataframes)]. *)
Definition main_table (uploaded_files : list upload) : option (list dict) :=
  match (main_loop uploaded_files).1 with
  | [] => None
  | dataframes => Some (concat dataframes)
  end.

(** ** What the patterns say *)

(** Strings of decimal digits, and of white space. *)
Definition digits (s : str) : Prop := Forall (fun c => Unicode.isdecimal c = true) s.
Definition spaces (s : str) : Prop := Forall (fun c => Unicode.isspace c = true) s.

Module ReSpec.

Import Re.

(** [den fl r st st']: the pattern [r] can take the matcher from [st] to
    [st'].  This is the declarative reading of a pattern, without the
    order in which the matcher tries its alternatives. *)
Fixpoint den (fl : flags) (r : regex) (st st' : mstate) : Prop :=
  match r with
  | REmpty => st' = st
  | RAtom a =>
      ∃ c, m_rest st = c :: m_rest st' ∧ atom_match fl a c = true
           ∧ m_pos st' = S (m_pos st) ∧ m_marks st' = m_marks st
  | RRepeat a lo hi _ =>
      ∃ cs, m_rest st = cs ++ m_rest st'
            ∧ Forall (fun c => atom_match fl a c = true) cs
            ∧ (lo ≤ length cs)%nat
            ∧ match hi with Some h => (length cs ≤ h)%nat | None => True end
            ∧ m_pos st' = (m_pos st + length cs)%nat
            ∧ m_marks st' = m_marks st
  | RSeq r1 r2 => ∃ mid, den fl r1 st mid ∧ den fl r2 mid st'
  | RAlt r1 r2 => den fl r1 st st' ∨ den fl r2 st st'
  | RGroup n r' =>
      ∃ st1, den fl r' st st1
             ∧ st' = MState (m_pos st1) (m_rest st1)
                       ((n, (m_pos st, m_pos st1)) :: m_marks st1)
  | RBol => st' = st ∧ m_pos st = O
  | REol => st' = st ∧ (m_rest st = [] ∨ m_rest st = [LF])
  end.

(** Whether every match of [r] closes group [n]. *)
Fixpoint sets_group (n : nat) (r : regex) : bool :=
  match r with
  | RSeq r1 r2 => sets_group n r1 || sets_group n r2
  | RAlt r1 r2 => sets_group n r1 && sets_group n r2
  | RGroup i r' => (i =? n)%nat || sets_group n r'
  | _ => false
  end.

(** The matcher state sits at offset [m_pos] of [text]. *)
Definition at_text (text : str) (st : mstate) : Prop :=
  drop (m_pos st) text = m_rest st ∧ (m_pos st ≤ length text)%nat.

End ReSpec.

(** The items [\s] and [\d] of a pattern. *)
Abbreviation SPACE := (Re.AIn false [Re.CSpace]).
Abbreviation DIGIT := (Re.AIn false [Re.CDigit]).

(** Whether [pattern] compiles to a pattern every match of which closes
    the groups [1] to [n]. *)
Definition pattern_groups (pattern : string) (n : nat) : bool :=
  match Re.compile pattern with
  | Some r => forallb (fun i => ReSpec.sets_group i r) (seq 1 n)
  | None => false
  end.

(** The compiled patterns of the segmenter and of the note number. *)
Definition note_rx : Re.regex :=
  Eval vm_compute in default Re.REmpty (Re.compile "(?:^|\n)\s*(\d{3,5}-\d{3,})").

Definition pedido_rx : Re.regex :=
  Eval vm_compute in default Re.REmpty (Re.compile "(?:^|\n)\s*Pedido:\s*\d+").

Definition numero_rx : Re.regex :=
  Eval vm_compute in default Re.REmpty (Re.compile "^\s*(\d{3,5}-\d+)").

(** The offsets the segmenter records with its first pattern, and with
    its second. *)
Definition primary_positions (text : str) : list Z :=
  map (fun m => start m 1) (Re.finditer Re.NOFLAGS note_rx text).

Definition fallback_positions (text : str) : list Z :=
  map (fun m => start m 0) (Re.finditer Re.NOFLAGS pedido_rx text).

(** The keys of the header, and of the fields a block supplies. *)
Definition HEADER_KEYS : list string :=
  ["rota"; "data_emissao"; "data_previsao"; "motorista"; "veiculo"; "carga"].

Definition NUMERIC_KEYS : list string :=
  ["peso_pedido"; "total_nota"; "valor_recebimento"].

Definition TEXT_KEYS : list string :=
  ["rota"; "data_emissao"; "data_previsao"; "motorista"; "veiculo"; "carga";
   "numero_nota"; "codigo_cliente"; "nome_cliente"; "pedido"; "cidade";
   "endereco"; "forma_recebimento"].

(** ** The specification's words *)

(** [float(n)] for an integer, and the true division [a / b] of two
    integers, which Python rounds correctly. *)
Definition float_of_int (n : Z) : spec_float :=
  binary_normalize PyFloat.prec PyFloat.emax n 0 false.

Definition ratio (a b : Z) : spec_float :=
  SFdiv PyFloat.prec PyFloat.emax (float_of_int a) (float_of_int b).

(** NumberNormalizer as the specification words it: null, an empty token
    and a token of white space give null; any other token is stripped,
    loses its dots, has its commas turned into dots, and is parsed as a
    float, null standing for a failed parse. *)
Definition NumberNormalizer (token : option str) : option spec_float :=
  match token with
  | None => None
  | Some s =>
      if forallb Unicode.isspace s then None
      else
        let stripped := strip s in
        let without_dots := List.filter (fun c => negb (c =? 46)) stripped in
        let normalized := map (fun c => if c =? 44 then 46 else c) without_dots in
        match PyFloat.float normalized with
        | Ret x => Some x
        | Raise _ => None
        end
  end.

(** A date token parses under a format when [strptime] accepts it. *)
Definition parses_as (format : string) (s : str) : option PyDatetime.date :=
  match PyDatetime.strptime s format with
  | Ret d => Some d
  | Raise _ => None
  end.

(** The canonical rendering [dd/mm/yyyy] of a date. *)
Definition canonical (d : PyDatetime.date) : str :=
  PyDatetime.pad_digits 2 (PyDatetime.day d) []
  ++ [47] ++ PyDatetime.pad_digits 2 (PyDatetime.month d) []
  ++ [47] ++ PyDatetime.pad_digits 4 (PyDatetime.year d) [].


(** What [strftime] writes for a date under [%d/%m/%Y]: the day and the
    month on two digits, and the year without leading zeros. *)
Definition rendered (d : PyDatetime.date) : str :=
  PyDatetime.pad_digits 2 (PyDatetime.day d) []
  ++ [47] ++ PyDatetime.pad_digits 2 (PyDatetime.month d) []
  ++ [47] ++ PyDatetime.decimal (PyDatetime.year d).

(** The date normaliser with the rendering of the program: as
    [DateNormalizer], but for the year, which is written as it is. *)
Definition rendered_date (s : str) : str :=
  match parses_as "%d/%m/%Y" s with
  | Some d => rendered d
  | None =>
      match parses_as "%d/%m/%y" s with
      | Some d => rendered d
      | None => strip s
      end
  end.

(** Two ASCII digits, a slash, two ASCII digits, a slash, four ASCII
    digits. *)
Definition is_ascii_digit (c : char) : bool := (48 <=? c) && (c <=? 57).


(** The document of the end-to-end example. *)
Definition example_document : str :=
  join [LF]
    [ u "600 PEDRO LEOPOLDO";
      u "Emissão: 01/01/2024";
      u "Previsão: 02/01/2024";
      u "Motorista: João";
      u "Veículo: ABC-1234";
      u "1552-24995";
      u "Nome: 10 - Cliente X";
      u "Pedido: 99";
      u "Cidade: BH";
      u "Peso Pedido: 10,5";
      u "Endereço: Rua A";
      u "Total da Nota: R$ 100,00";
      u "Duplicata a Receber Boleto Valor: R$ 100,00" ].


(** A record with exactly the sixteen columns, text where text is due and
    a number or [None] in the three numeric columns. *)
Definition has_schema (r : dict) : Prop :=
  dom r = list_to_set COLUMNS
  ∧ Forall (fun k => ∃ s, r !! k = Some (PStr s)) TEXT_KEYS
  ∧ Forall (fun k => ∃ x, r !! k = Some (of_number x)) NUMERIC_KEYS.

(** What [main] does to one date column of a row of text cells. *)
Definition normalize_date_column (column : string) (row : dict) : dict :=
  match row !! column with
  | Some (PStr s) => <[column := PStr (rendered_date s)]> row
  | _ => row
  end.

(** A record on its way into the table of [main]. *)
Definition finish_row (record : dict) : dict :=
  normalize_date_column "data_previsao"
    (normalize_date_column "data_emissao"
       (dict_update ∅
          (map (fun k => (k, default (PFloat S754_nan) (record !! k))) COLUMNS))).

(** The rows a file contributes to the table: none when it fails. *)
Definition document_rows (f : upload) : list dict :=
  match process_upload f with
  | Ret df => df
  | Raise _ => []
  end.

(** *** The shapes the segmenter looks for *)

Definition HYPHEN : char := 45.

(** A note number: three to five digits, a hyphen, and at least [n]
    digits. *)
Definition note_id (n : nat) (s : str) : Prop :=
  ∃ ds1 ds2, s = ds1 ++ HYPHEN :: ds2
             ∧ digits ds1 ∧ (3 ≤ length ds1 ≤ 5)%nat
             ∧ digits ds2 ∧ (n ≤ length ds2)%nat.

(** Offset [p] of [text] is at the start of a line, after optional white
    space: only white space lies between [p] and the start of the text
    or a line feed before [p]. *)
Definition line_start (text : str) (p : nat) : Prop :=
  ∃ before ws, take p text = before ++ ws ∧ length (before ++ ws) = p
               ∧ spaces ws ∧ (before = [] ∨ last before = Some LF).

(** A note number with at least three digits after the hyphen starts at
    offset [p] of [text], at the start of a line. *)
Definition note_at (text : str) (p : nat) : Prop :=
  line_start text p ∧ ∃ id rest, drop p text = id ++ rest ∧ note_id 3 id.

(** Offset [q] of [text] is the start of the text or a line feed, and a
    line that reads [Pedido:] and digits follows, after optional white
    space. *)
Definition pedido_at (text : str) (q : nat) : Prop :=
  ∃ lead ws ws' ds rest,
    drop q text = lead ++ ws ++ u "Pedido:" ++ ws' ++ ds ++ rest
    ∧ (lead = [] ∧ q = O ∨ lead = [LF])
    ∧ spaces ws ∧ spaces ws' ∧ digits ds ∧ (1 ≤ length ds)%nat.

(** The blocks between consecutive offsets, the last one running to the
    end of the text, each stripped. *)
Fixpoint blocks_between (text : str) (offsets : list nat) : list str :=
  match offsets with
  | [] => []
  | o :: rest =>
      strip (slice text o (match rest with o' :: _ => o' | [] => length text end))
      :: blocks_between text rest
  end.

(** Strictly ascending offsets within the text. *)
Fixpoint ascending (bound : nat) (offsets : list nat) : Prop :=
  match offsets with
  | [] => True
  | o :: rest => (o ≤ bound)%nat ∧ ascending bound rest
                 ∧ match rest with o' :: _ => (o < o')%nat | [] => True end
  end.

(** [m] is a match of [r] in [text], as far as the declarative reading
    of [r] goes. *)
Definition is_match (fl : Re.flags) (r : Re.regex) (text : str) (m : Re.match_obj) : Prop :=
  Re.mo_string m = text
  ∧ (Re.mo_start m ≤ length text)%nat
  ∧ ∃ st', ReSpec.den fl r (Re.MState (Re.mo_start m) (drop (Re.mo_start m) text) []) st'
           ∧ Re.mo_end m = Re.m_pos st' ∧ Re.mo_marks m = Re.m_marks st'.

(** A scan from offset [lb] on: matches from left to right, none
    starting before the one before it ended. *)
Inductive scan_ok (fl : Re.flags) (r : Re.regex) (text : str)
  : nat → list Re.match_obj → Prop :=
| scan_nil lb : scan_ok fl r text lb []
| scan_cons lb m ms :
    (lb ≤ Re.mo_start m)%nat →
    is_match fl r text m →
    scan_ok fl r text (Nat.max (Re.mo_end m) (S (Re.mo_start m))) ms →
    scan_ok fl r text lb (m :: ms).

(** The offset of the first group of a match. *)
Definition group_offset (m : Re.match_obj) : nat :=
  match Re.span m 1 with
  | Some (i, _) => i
  | None => O
  end.

(** The offsets behind the positions the segmenter records. *)
Definition primary_offsets (text : str) : list nat :=
  map group_offset (Re.finditer Re.NOFLAGS note_rx text).

Definition fallback_offsets (text : str) : list nat :=
  map Re.mo_start (Re.finditer Re.NOFLAGS pedido_rx text).

(** A block that starts with a note number of at least three digits after
    the hyphen, and one that starts with [Pedido:]. *)
Definition note_block (b : str) : Prop := ∃ id tail, b = id ++ tail ∧ note_id 3 id.

Definition pedido_block (b : str) : Prop := ∃ tail, b = u "Pedido:" ++ tail.

(** The first pattern of the segmenter after its line start: white
    space, and the note number as group 1. *)
Definition note_tail : Re.regex :=
  Re.RSeq (Re.RRepeat SPACE 0 None true)
    (Re.RGroup 1
       (Re.RSeq (Re.RRepeat DIGIT 3 (Some 5%nat) true)
          (Re.RSeq (Re.RAtom (Re.ALit HYPHEN)) (Re.RRepeat DIGIT 3 None true)))).

(** The two formats the date normaliser tries. *)
Definition program_format (format : string) : Prop :=
  format = "%d/%m/%Y"%string ∨ format = "%d/%m/%y"%string.

(** A run ends where the text ends or a character outside the class
    [P] comes. *)
Definition stops (P : char → bool) (tail : str) : Prop :=
  tail = [] ∨ ∃ c t, tail = c :: t ∧ P c = false.

(** A line that reads [Pedido:] and digits starts at offset [t]. *)
Definition pedido_line_at (text : str) (t : nat) : Prop :=
  line_start text t
  ∧ ∃ ws' ds rest, drop t text = u "Pedido:" ++ ws' ++ ds ++ rest
                   ∧ spaces ws' ∧ digits ds ∧ (1 ≤ length ds)%nat.

(** The second pattern of the segmenter after its line start. *)
Definition pedido_tail : Re.regex :=
  Eval vm_compute in default Re.REmpty (Re.compile "\s*Pedido:\s*\d+").

(** ** More of what the code says *)

(** The offsets the segmenter cuts the text at: those of its first
    pattern, or of its second when the first finds nothing. *)
Definition recorded_offsets (text : str) : list nat :=
  match primary_offsets text with
  | [] => fallback_offsets text
  | offsets => offsets
  end.

(** [s] is the blocks in their order with nothing but white space
    before, between and after them. *)
Fixpoint separated (blocks : list str) (s : str) : Prop :=
  match blocks with
  | [] => spaces s
  | b :: bs => ∃ ws rest, s = ws ++ b ++ rest ∧ spaces ws ∧ separated bs rest
  end.

(** What follows is nothing, or starts with white space. *)
Definition space_next (more : str) : Prop :=
  more = [] ∨ ∃ c t, more = c :: t ∧ Unicode.isspace c = true.

(** The offset of the first character from [q] on that is no white
    space. *)
Definition word_offset (text : str) (q : nat) : nat :=
  (q + (length (drop q text) - length (lstrip (drop q text))))%nat.

(** The offsets of the word [Pedido:] in the matches of the second
    pattern. *)
Definition pedido_offsets (text : str) : list nat :=
  map (word_offset text) (fallback_offsets text).

(** The keys of the fields a block supplies. *)
Definition BLOCK_KEYS : list string :=
  ["numero_nota"; "codigo_cliente"; "nome_cliente"; "pedido"; "cidade";
   "peso_pedido"; "endereco"; "total_nota"; "forma_recebimento";
   "valor_recebimento"].

(** A text without any decimal digit. *)
Definition digitless (s : str) : Prop := Forall (fun c => Unicode.isdecimal c = false) s.

(** The group a pattern ends with, when that is a group around one
    repetition: its number, the repeated item, the bounds and whether
    the repetition is greedy. *)
Fixpoint ends_group (r : Re.regex) : option (nat * Re.atom * nat * option nat * bool) :=
  match r with
  | Re.RSeq _ r2 => ends_group r2
  | Re.RGroup n (Re.RRepeat a lo hi g) => Some (n, a, lo, hi, g)
  | _ => None
  end.

(** The same for a pattern given as text. *)
Definition pattern_ends (pattern : string)
    : option (nat * Re.atom * nat * option nat * bool) :=
  r ← Re.compile pattern; ends_group r.

(** The items of the sets the patterns of the fields end with: a digit
    or a slash, an ASCII digit, a dot or a comma, and anything but a
    line feed. *)
Definition DATE_CHAR := Re.AIn false [Re.CDigit; Re.CLit 47].
Definition NUMBER_CHAR := Re.AIn false [Re.CRange 48 57; Re.CLit 46; Re.CLit 44].
Definition LINE_CHAR := Re.AIn true [Re.CLit 10].

Definition date_char (c : char) : bool := Unicode.isdecimal c || (c =? 47).
Definition number_char (c : char) : bool :=
  ((48 <=? c) && (c <=? 57)) || (c =? 46) || (c =? 44).
Definition line_char (c : char) : bool := negb (c =? LF).

(** [s] is empty, or the stripped text of a piece of one line of
    [subject] that runs to the end of that line. *)
Definition rest_of_line (subject s : str) : Prop :=
  s = [] ∨
  ∃ before cs tail,
    subject = before ++ cs ++ tail ∧ s = strip cs ∧ cs ≠ []
    ∧ Forall (fun c => c ≠ LF) cs ∧ (tail = [] ∨ ∃ t, tail = LF :: t).

(** [s] stands in [subject] and is made of characters of the class
    [f]. *)
Definition token_of (f : char → bool) (subject s : str) : Prop :=
  ∃ before tail, subject = before ++ s ++ tail ∧ Forall (fun c => f c = true) s.

(** The characters of the name of a route: ASCII and Latin-1 letters,
    ASCII digits, the space and [. , - ( )]. *)
Definition route_char (c : char) : bool :=
  ((65 <=? c) && (c <=? 90)) || ((97 <=? c) && (c <=? 122))
  || ((192 <=? c) && (c <=? 255)) || ((48 <=? c) && (c <=? 57))
  || (c =? 32) || (c =? 46) || (c =? 44) || (c =? 45) || (c =? 40) || (c =? 41).

(** A route line: two to four digits, white space, and a name. *)
Definition route_line (s : str) : Prop :=
  ∃ ds ws name,
    s = ds ++ ws ++ name ∧ digits ds ∧ (2 ≤ length ds ≤ 4)%nat
    ∧ spaces ws ∧ ws ≠ [] ∧ name ≠ [] ∧ Forall (fun c => route_char c = true) name.

Definition ROUTE_CHAR : Re.atom :=
  Re.AIn false
    [Re.CRange 65 90; Re.CRange 97 122; Re.CRange 192 255; Re.CRange 48 57;
     Re.CLit 32; Re.CLit 46; Re.CLit 44; Re.CLit 45; Re.CLit 40; Re.CLit 41].

(** The compiled pattern of the customer's line. *)
Definition code_rx : Re.regex :=
  Eval vm_compute in default Re.REmpty (Re.compile "(\d+)\s*-\s*(.+)").

(** A float that is no NaN and has the sign bit clear. *)
Definition nonnegative (x : spec_float) : Prop :=
  match x with
  | S754_zero false | S754_infinity false | S754_finite false _ _ => True
  | _ => False
  end.

(** A token of ASCII digits and dots. *)
Definition dotted (s : str) : Prop :=
  Forall (fun c => PyFloat.is_digit c || (c =? 46) = true) s.

(** The digits of a token, without its dots. *)
Definition undotted (s : str) : str := replace 46 [] s.

(** ** Dates *)

(** A date that exists. *)
Definition valid_date (d : PyDatetime.date) : Prop :=
  PyDatetime.make_date (PyDatetime.year d) (PyDatetime.month d) (PyDatetime.day d) = Ret d.

(** The patterns of the directives [%d], [%m], [%Y] and [%y], and of a
    format [%d/%m/] followed by a year. *)
Definition day_alt : Re.regex :=
  Re.RAlt
    (Re.RSeq (Re.RAtom (Re.ALit 51)) (Re.RAtom (Re.AIn false [Re.CRange 48 49])))
    (Re.RAlt
       (Re.RSeq (Re.RAtom (Re.AIn false [Re.CRange 49 50])) (Re.RAtom DIGIT))
       (Re.RAlt
          (Re.RSeq (Re.RAtom (Re.ALit 48)) (Re.RAtom (Re.AIn false [Re.CRange 49 57])))
          (Re.RAlt
             (Re.RAtom (Re.AIn false [Re.CRange 49 57]))
             (Re.RSeq (Re.RAtom (Re.ALit 32))
                (Re.RAtom (Re.AIn false [Re.CRange 49 57])))))).

Definition month_alt : Re.regex :=
  Re.RAlt
    (Re.RSeq (Re.RAtom (Re.ALit 49)) (Re.RAtom (Re.AIn false [Re.CRange 48 50])))
    (Re.RAlt
       (Re.RSeq (Re.RAtom (Re.ALit 48)) (Re.RAtom (Re.AIn false [Re.CRange 49 57])))
       (Re.RAtom (Re.AIn false [Re.CRange 49 57]))).

Definition year4 : Re.regex :=
  Re.RSeq (Re.RAtom DIGIT)
    (Re.RSeq (Re.RAtom DIGIT) (Re.RSeq (Re.RAtom DIGIT) (Re.RAtom DIGIT))).

Definition year2 : Re.regex := Re.RSeq (Re.RAtom DIGIT) (Re.RAtom DIGIT).

Definition date_rx (year : Re.regex) : Re.regex :=
  Re.RSeq (Re.RGroup 1 day_alt)
    (Re.RSeq (Re.RAtom (Re.ALit 47))
       (Re.RSeq (Re.RGroup 2 month_alt)
          (Re.RSeq (Re.RAtom (Re.ALit 47)) (Re.RGroup 3 year)))).

(** Two digits. *)
Definition pad2 (n : N) : str := PyDatetime.pad_digits 2 n [].

(** The year a two-digit year stands for. *)
Definition pivot (yy : N) : N := if yy <=? 68 then yy + 2000 else yy + 1900.

(** The rendering [dd/mm/yy] of a day, a month and a two-digit year. *)
Definition short_date (d m yy : N) : str :=
  pad2 d ++ [47] ++ pad2 m ++ [47] ++ pad2 yy.

(** ** The end of [main] *)

(** The text with every match replaced: what lies between the matches,
    and [repl] for each of them. *)
Fixpoint sub_from (repl text : str) (pos : nat) (ms : list Re.match_obj) : str :=
  match ms with
  | [] => drop pos text
  | m :: ms' =>
      slice text pos (Re.mo_start m) ++ repl ++ sub_from repl text (Re.mo_end m) ms'
  end.

(** [re.sub(pattern, repl, text)] for a replacement that holds no
    backslash.  The matches are those of [finditer]; the pattern this is
    used with matches no empty string. *)
Definition re_sub (pattern : string) (repl text : str) : pyres str :=
  r ← re_compile pattern;
  Ret (sub_from repl text 0 (Re.finditer Re.NOFLAGS r text)).

(** [s.strip(chars)] *)
Fixpoint lstrip_chars (chars s : str) : str :=
  match s with
  | c :: s' => if existsb (N.eqb c) chars then lstrip_chars chars s' else s
  | [] => []
  end.

Definition rstrip_chars (chars s : str) : str := rev (lstrip_chars chars (rev s)).

Definition strip_chars (chars s : str) : str := lstrip_chars chars (rstrip_chars chars s).

(** The name of the file to download, from the label of the route:
    [file_safe] and [download_name] of [main]. *)
Definition file_safe (rota_label : str) : pyres str :=
  replaced ← re_sub "[^A-Za-z0-9\-]+" (u "_") rota_label;
  Ret match strip_chars (u "_") replaced with
      | [] => u "romaneio"
      | stripped => stripped
      end.

Definition download_name (rota_label : str) : pyres str :=
  safe ← file_safe rota_label;
  Ret (u "romaneio_rota_" ++ safe ++ u ".xlsx").

(** The text of a metric of [main], from the number formatted with
    [,.2f]: the comma and the dot change places by way of an [X]. *)
Definition metric_text (formatted : str) : str :=
  replace 88 (u ".") (replace 46 (u ",") (replace 44 (u "X") formatted)).

(** The characters of a file name: ASCII letters and digits and the
    hyphen, and those with the underscore. *)
Definition label_char (c : char) : bool :=
  ((65 <=? c) && (c <=? 90)) || ((97 <=? c) && (c <=? 122))
  || ((48 <=? c) && (c <=? 57)) || (c =? 45).

Definition name_char (c : char) : bool := label_char c || (c =? 95).

(** The item of the pattern of [file_safe]. *)
Definition UNSAFE : Re.atom :=
  Re.AIn true [Re.CRange 65 90; Re.CRange 97 122; Re.CRange 48 57; Re.CLit 45].

(** The message [main] shows for a file, if any: an error when the file
    cannot be opened, a warning when its text holds no note. *)
Definition file_message (f : upload) : option message :=
  match upload_pages f with
  | Raise e => Some (Error (upload_name f) e)
  | Ret pages =>
      match parse_text_to_records (join [LF] (map (fun p => default [] p) pages)) with
      | Ret [] => Some (Warning (upload_name f))
      | _ => None
      end
  end.

(** The comma and the dot, each for the other. *)
Definition swap_separators (c : char) : char :=
  if c =? 44 then 46 else if c =? 46 then 44 else c.


(** The lines the header reads for the route: the lines of the text that
    are not blank, stripped. *)
Definition stripped_lines (text : str) : list str :=
  map strip (List.filter (fun line => nonempty (strip line)) (splitlines text)).

(** * Properties *)

(** ** Characters *)

Lemma isspace_in (c : char) : Unicode.isspace c = true → In c Unicode.whitespace.
Proof.
  unfold Unicode.isspace. rewrite existsb_exists.
  intros (x & Hin & Heq). apply N.eqb_eq in Heq. by subst.
Qed.

Lemma space_not_decimal (c : char) : Unicode.isspace c = true → Unicode.isdecimal c = false.
Proof.
  intros H. apply isspace_in in H. simpl in H.
  repeat (destruct H as [<- | H]; [reflexivity |]). destruct H.
Qed.

Lemma decimal_not_space (c : char) : Unicode.isdecimal c = true → Unicode.isspace c = false.
Proof.
  intros H. destruct (Unicode.isspace c) eqn:E; [| done].
  apply space_not_decimal in E. congruence.
Qed.

(** ** Stripping *)

Lemma lstrip_spaces (ws s : str) : spaces ws → lstrip (ws ++ s) = lstrip s.
Proof. induction 1 as [| c ws Hc _ IH]; simpl; [done |]. by rewrite Hc. Qed.

Lemma lstrip_nonspace (c : char) (s : str) :
  Unicode.isspace c = false → lstrip (c :: s) = c :: s.
Proof. intros H. simpl. by rewrite H. Qed.

Lemma lstrip_split (s : str) : ∃ ws, s = ws ++ lstrip s ∧ spaces ws.
Proof.
  induction s as [| c s (ws & Hs & Hws)]; simpl.
  - exists []. split; [done | constructor].
  - destruct (Unicode.isspace c) eqn:E.
    + exists (c :: ws). split; [simpl; congruence | by constructor].
    + exists []. split; [done | constructor].
Qed.

Lemma lstrip_nil (s : str) : lstrip s = [] ↔ spaces s.
Proof.
  split.
  - intros H. destruct (lstrip_split s) as (ws & Hs & Hws).
    rewrite H, app_nil_r in Hs. by subst.
  - intros H. rewrite <- (app_nil_r s). by rewrite lstrip_spaces.
Qed.

Lemma lstrip_app_nonspaces (x y : str) :
  lstrip x ≠ [] → lstrip (x ++ y) = lstrip x ++ y.
Proof.
  induction x as [| c x IH]; simpl; [done |].
  destruct (Unicode.isspace c); [auto | done].
Qed.

Lemma spaces_rev (s : str) : spaces (rev s) ↔ spaces s.
Proof.
  unfold spaces. rewrite !Forall_forall. split; intros H x Hx; apply H.
  - apply list_elem_of_In, in_rev. rewrite rev_involutive. by apply list_elem_of_In.
  - apply list_elem_of_In, in_rev. by apply list_elem_of_In.
Qed.

Lemma rstrip_spaces (s ws : str) : spaces ws → rstrip (s ++ ws) = rstrip s.
Proof.
  intros H. unfold rstrip. rewrite rev_app_distr, lstrip_spaces; [done |].
  by apply spaces_rev.
Qed.

Lemma rstrip_split (s : str) : ∃ ws, s = rstrip s ++ ws ∧ spaces ws.
Proof.
  unfold rstrip. destruct (lstrip_split (rev s)) as (ws & Hs & Hws).
  exists (rev ws). split; [| by apply spaces_rev].
  rewrite <- rev_app_distr, <- Hs. by rewrite rev_involutive.
Qed.

Lemma rstrip_nil (s : str) : rstrip s = [] ↔ spaces s.
Proof.
  unfold rstrip. split.
  - intros H. apply spaces_rev, lstrip_nil.
    apply (f_equal (@rev char)) in H. by rewrite rev_involutive in H.
  - intros H. apply spaces_rev, lstrip_nil in H. by rewrite H.
Qed.

(** A string that ends in a character other than white space keeps it,
    whatever is appended and then stripped. *)
Lemma rstrip_app_nonspaces (x y : str) :
  rstrip y ≠ [] → rstrip (x ++ y) = x ++ rstrip y.
Proof.
  intros H. unfold rstrip in *. rewrite rev_app_distr.
  rewrite lstrip_app_nonspaces, rev_app_distr, rev_involutive; [done |].
  intros E. apply H. by rewrite E.
Qed.

Lemma rstrip_snoc_nonspace (s : str) (c : char) :
  Unicode.isspace c = false → rstrip (s ++ [c]) = s ++ [c].
Proof.
  intros H. unfold rstrip. rewrite rev_app_distr. simpl. rewrite H.
  simpl. by rewrite rev_involutive.
Qed.

Lemma rstrip_keeps (x y : str) (c : char) :
  Unicode.isspace c = false → rstrip (x ++ c :: y) = x ++ c :: rstrip y.
Proof.
  intros H. destruct (rstrip_split y) as (ws & Hy & Hws).
  destruct (rstrip y) as [| d t] eqn:E.
  - simpl in Hy. subst y.
    replace (x ++ c :: ws) with ((x ++ [c]) ++ ws) by (by rewrite <- app_assoc).
    rewrite rstrip_spaces by done. by rewrite rstrip_snoc_nonspace.
  - replace (x ++ c :: y) with ((x ++ [c]) ++ y) by (by rewrite <- app_assoc).
    rewrite rstrip_app_nonspaces by (by rewrite E).
    rewrite E. by rewrite <- app_assoc.
Qed.

Lemma strip_nil (s : str) : strip s = [] ↔ spaces s.
Proof.
  unfold strip. rewrite lstrip_nil. split.
  - intros H. destruct (rstrip_split s) as (ws & Hs & Hws).
    rewrite Hs. by apply Forall_app.
  - intros H. apply rstrip_nil in H. rewrite H. constructor.
Qed.

(** Stripping a string that starts with a character other than white
    space keeps that character and strips the right end only. *)
Lemma strip_cons_nonspace (c : char) (s : str) :
  Unicode.isspace c = false → strip (c :: s) = c :: rstrip s.
Proof.
  intros H. unfold strip. pose proof (rstrip_keeps [] s c H) as K.
  simpl in K. rewrite K. simpl. by rewrite H.
Qed.

Lemma strip_leading_spaces (ws s : str) : spaces ws → strip (ws ++ s) = strip s.
Proof.
  intros Hws. unfold strip.
  destruct (rstrip s) as [| d t] eqn:E.
  - apply rstrip_nil in E.
    assert (spaces (ws ++ s)) as H by (by apply Forall_app).
    apply rstrip_nil in H. by rewrite H.
  - rewrite rstrip_app_nonspaces by (by rewrite E). rewrite E.
    by rewrite lstrip_spaces.
Qed.

Lemma strip_trailing_spaces (s ws : str) : spaces ws → strip (s ++ ws) = strip s.
Proof. intros H. unfold strip. by rewrite rstrip_spaces. Qed.

Lemma strip_split (s : str) : ∃ ws1 ws2, s = ws1 ++ strip s ++ ws2 ∧ spaces ws1 ∧ spaces ws2.
Proof.
  destruct (rstrip_split s) as (ws2 & Hs & H2).
  destruct (lstrip_split (rstrip s)) as (ws1 & Hr & H1).
  exists ws1, ws2. split_and!; [| done | done].
  unfold strip. rewrite app_assoc, <- Hr. done.
Qed.

(** A string without white space at either end is its own strip. *)
Lemma strip_id (s : str) (c d : char) (t : str) :
  s = c :: t → last s = Some d →
  Unicode.isspace c = false → Unicode.isspace d = false → strip s = s.
Proof.
  intros -> Hl Hc Hd. rewrite strip_cons_nonspace by done. f_equal.
  destruct t as [| e t' _] using rev_ind; [done |].
  rewrite app_comm_cons, last_snoc in Hl. simplify_eq.
  by apply rstrip_snoc_nonspace.
Qed.

(** ** The matcher against the declarative reading *)

Section Matcher.

Import Re ReSpec.

Variable fl : flags.

Lemma repeat_greedy_sound a rest : ∀ lo hi pos k res,
  repeat_greedy fl a lo hi pos rest k = Some res →
  ∃ cs rest', rest = cs ++ rest'
    ∧ Forall (fun c => atom_match fl a c = true) cs
    ∧ (lo ≤ length cs)%nat
    ∧ match hi with Some h => (length cs ≤ h)%nat | None => True end
    ∧ k (pos + length cs)%nat rest' = Some res.
Proof.
  induction rest as [| c rest IH]; intros lo hi pos k res H; simpl in H.
  - destruct lo; [| done]. exists [], []. simpl.
    rewrite Nat.add_0_r. split_and!; try done; try lia; try (destruct hi; [lia | done]).
  - assert (match lo with O => k pos (c :: rest) | S _ => None end = Some res →
            ∃ cs rest', c :: rest = cs ++ rest'
              ∧ Forall (fun c => atom_match fl a c = true) cs
              ∧ (lo ≤ length cs)%nat
              ∧ match hi with Some h => (length cs ≤ h)%nat | None => True end
              ∧ k (pos + length cs)%nat rest' = Some res) as Hstop.
    { intros Hk. destruct lo; [| done]. exists [], (c :: rest). simpl.
      rewrite Nat.add_0_r. split_and!; try done; try lia; try (destruct hi; [lia | done]). }
    destruct (atom_match fl a c && negb (exhausted hi)) eqn:E; [| by apply Hstop].
    apply andb_true_iff in E as [Ec Eh].
    destruct (repeat_greedy fl a (Nat.pred lo) (Nat.pred <$> hi) (S pos) rest k) eqn:R;
      [| by apply Hstop].
    simplify_eq. apply IH in R as (cs & rest' & -> & Hcs & Hlo & Hhi & Hk).
    exists (c :: cs), rest'. simpl. split_and!; try done.
    + by constructor.
    + lia.
    + destruct hi as [[| h] |]; simpl in *; try done. lia.
    + by rewrite <- Nat.add_succ_comm.
Qed.

Lemma repeat_lazy_sound a rest : ∀ lo hi pos k res,
  repeat_lazy fl a lo hi pos rest k = Some res →
  ∃ cs rest', rest = cs ++ rest'
    ∧ Forall (fun c => atom_match fl a c = true) cs
    ∧ (lo ≤ length cs)%nat
    ∧ match hi with Some h => (length cs ≤ h)%nat | None => True end
    ∧ k (pos + length cs)%nat rest' = Some res.
Proof.
  induction rest as [| c rest IH]; intros lo hi pos k res H; simpl in H.
  - destruct lo; [| done]. destruct (k pos []) eqn:K; [| done]. simplify_eq.
    exists [], []. simpl. rewrite Nat.add_0_r.
    split_and!; try done; try lia; try (destruct hi; [lia | done]).
  - assert (lo = O ∧ k pos (c :: rest) = Some res ∨
            (atom_match fl a c && negb (exhausted hi) = true ∧
             repeat_lazy fl a (Nat.pred lo) (Nat.pred <$> hi) (S pos) rest k = Some res))
      as [[-> Hk] | [E R]].
    { destruct lo.
      - destruct (k pos (c :: rest)) eqn:K; [left; by simplify_eq |].
        right. by destruct (atom_match fl a c && negb (exhausted hi)).
      - right. by destruct (atom_match fl a c && negb (exhausted hi)). }
    + exists [], (c :: rest). simpl. rewrite Nat.add_0_r.
      split_and!; try done; try lia; try (destruct hi; [lia | done]).
    + apply andb_true_iff in E as [Ec Eh].
      apply IH in R as (cs & rest' & -> & Hcs & Hlo & Hhi & Hk).
      exists (c :: cs), rest'. simpl. split_and!; try done.
      * by constructor.
      * lia.
      * destruct hi as [[| h] |]; simpl in *; try done. lia.
      * by rewrite <- Nat.add_succ_comm.
Qed.

(** Whatever the matcher finds is a match in the declarative reading. *)
Lemma run_sound r : ∀ st k res,
  run fl r st k = Some res → ∃ st', den fl r st st' ∧ k st' = Some res.
Proof.
  induction r as [| a | a lo hi g | r1 IH1 r2 IH2 | r1 IH1 r2 IH2 | n r IH | |];
    intros st k res H; simpl in H.
  - by exists st.
  - destruct (m_rest st) as [| c rest'] eqn:Er; [done |].
    destruct (atom_match fl a c) eqn:Ea; [| done].
    eexists. split; [| exact H]. exists c. by simpl.
  - destruct g.
    + apply repeat_greedy_sound in H as (cs & rest' & Hr & Hcs & Hlo & Hhi & Hk).
      eexists. split; [| exact Hk]. exists cs. by simpl.
    + apply repeat_lazy_sound in H as (cs & rest' & Hr & Hcs & Hlo & Hhi & Hk).
      eexists. split; [| exact Hk]. exists cs. by simpl.
  - apply IH1 in H as (mid & H1 & H). apply IH2 in H as (st' & H2 & H).
    exists st'. split; [by exists mid | done].
  - destruct (run fl r1 st k) eqn:E1.
    + simplify_eq. apply IH1 in E1 as (st' & H1 & Hk). exists st'. split; [by left | done].
    + apply IH2 in H as (st' & H2 & Hk). exists st'. split; [by right | done].
  - apply IH in H as (st1 & H1 & Hk). eexists. split; [| exact Hk]. by exists st1.
  - destruct (m_pos st =? 0)%nat eqn:E; [| done]. apply Nat.eqb_eq in E.
    by exists st.
  - destruct (m_rest st) as [| c [| d t]] eqn:Er; [| | done].
    + exists st. split; [| done]. split; [done | by left].
    + destruct (c =? LF) eqn:E; [| done]. apply N.eqb_eq in E. subst c.
      exists st. split; [| done]. split; [done | by right].
Qed.

(** A match consumes a piece of the text in front of it. *)
Lemma den_consumes r : ∀ st st',
  den fl r st st' →
  ∃ cs, m_rest st = cs ++ m_rest st' ∧ m_pos st' = (m_pos st + length cs)%nat.
Proof.
  induction r as [| a | a lo hi g | r1 IH1 r2 IH2 | r1 IH1 r2 IH2 | n r IH | |];
    intros st st' H; simpl in H.
  - subst. exists []. simpl. split; [done | lia].
  - destruct H as (c & Hr & _ & Hp & _). exists [c]. simpl. split; [done | lia].
  - destruct H as (cs & Hr & _ & _ & _ & Hp & _). by exists cs.
  - destruct H as (mid & H1 & H2).
    apply IH1 in H1 as (cs1 & Hr1 & Hp1). apply IH2 in H2 as (cs2 & Hr2 & Hp2).
    exists (cs1 ++ cs2). rewrite Hr1, Hr2, Hp2, Hp1, length_app, <- app_assoc.
    split; [done | lia].
  - destruct H as [H | H]; eauto.
  - destruct H as (st1 & H1 & ->). simpl. eauto.
  - destruct H as [-> _]. exists []. simpl. split; [done | lia].
  - destruct H as [-> _]. exists []. simpl. split; [done | lia].
Qed.

Lemma den_at_text text r st st' :
  at_text text st → den fl r st st' → at_text text st'.
Proof.
  intros [Hd Hl] H. apply den_consumes in H as (cs & Hr & Hp).
  unfold at_text. rewrite Hp. rewrite Hr in Hd.
  assert (drop (m_pos st + length cs) text = m_rest st') as Hd'.
  { rewrite <- drop_drop, Hd. by rewrite drop_app_length. }
  split; [done |].
  apply (f_equal length) in Hd. rewrite length_drop, length_app in Hd. lia.
Qed.

(** Marks are only added, and a pattern that always closes group [n]
    leaves a mark for it. *)
Lemma den_marks_kept r n : ∀ st st',
  den fl r st st' →
  is_Some (lookup_mark n (m_marks st)) → is_Some (lookup_mark n (m_marks st')).
Proof.
  induction r as [| a | a lo hi g | r1 IH1 r2 IH2 | r1 IH1 r2 IH2 | i r IH | |];
    intros st st' H Hm; simpl in H.
  - by subst.
  - destruct H as (c & _ & _ & _ & ->). done.
  - destruct H as (cs & _ & _ & _ & _ & _ & ->). done.
  - destruct H as (mid & H1 & H2). eauto.
  - destruct H as [H | H]; eauto.
  - destruct H as (st1 & H1 & ->). simpl.
    destruct (i =? n)%nat; [done | eauto].
  - by destruct H as [-> _].
  - by destruct H as [-> _].
Qed.

Lemma den_sets_group r n : ∀ st st',
  den fl r st st' → sets_group n r = true →
  is_Some (lookup_mark n (m_marks st')).
Proof.
  induction r as [| a | a lo hi g | r1 IH1 r2 IH2 | r1 IH1 r2 IH2 | i r IH | |];
    intros st st' H Hs; simpl in H, Hs; try done.
  - destruct H as (mid & H1 & H2). apply orb_true_iff in Hs as [Hs | Hs].
    + eapply den_marks_kept; eauto.
    + eauto.
  - apply andb_true_iff in Hs as [Hs1 Hs2]. destruct H as [H | H]; eauto.
  - destruct H as (st1 & H1 & ->). simpl.
    destruct (i =? n)%nat eqn:E; [done |]. simpl in Hs. eauto.
Qed.

(** *** Match objects *)

Lemma match_at_sound r text pos rest m :
  match_at fl r text pos rest = Some m →
  ∃ st', den fl r (MState pos rest []) st'
         ∧ m = Match text pos (m_pos st') (m_marks st').
Proof.
  unfold match_at. intros H.
  destruct (run fl r (MState pos rest []) Some) as [st |] eqn:E; [| done].
  simpl in H. simplify_eq.
  apply run_sound in E as (st' & Hd & Hk). simplify_eq. by exists st.
Qed.

Lemma search_from_sound r text rest : ∀ pos m,
  drop pos text = rest → (pos ≤ length text)%nat →
  search_from fl r text pos rest = Some m →
  ∃ pos', (pos ≤ pos' ≤ length text)%nat
          ∧ match_at fl r text pos' (drop pos' text) = Some m.
Proof.
  induction rest as [| c rest IH]; intros pos m Hd Hl H; simpl in H.
  - destruct (match_at fl r text pos []) eqn:E; [| done]. simplify_eq.
    exists pos. rewrite Hd. split; [lia | done].
  - destruct (match_at fl r text pos (c :: rest)) eqn:E.
    + simplify_eq. exists pos. rewrite Hd. split; [lia | done].
    + assert (drop (S pos) text = rest) as Hd'.
      { replace (S pos) with (pos + 1)%nat by lia.
        by rewrite <- drop_drop, Hd. }
      assert (S pos ≤ length text)%nat as Hl'.
      { apply (f_equal length) in Hd. rewrite length_drop in Hd. simpl in Hd. lia. }
      destruct (IH (S pos) m Hd' Hl' H) as (pos' & Hp & Hm).
      exists pos'. split; [lia | done].
Qed.

Lemma search_sound r text m :
  search fl r text = Some m →
  ∃ pos st', (pos ≤ length text)%nat
    ∧ den fl r (MState pos (drop pos text) []) st'
    ∧ m = Match text pos (m_pos st') (m_marks st').
Proof.
  unfold search. intros H.
  apply search_from_sound in H as (pos & Hp & Hm); [| done | lia].
  apply match_at_sound in Hm as (st' & Hd & ->).
  exists pos, st'. split_and!; [lia | done | done].
Qed.

Lemma match_sound r text m :
  match_ fl r text = Some m →
  ∃ st', den fl r (MState 0 text []) st'
         ∧ m = Match text 0 (m_pos st') (m_marks st').
Proof. apply match_at_sound. Qed.

End Matcher.

(** ** Calls that cannot raise *)

Lemma bind_ret {A B} (a : A) (f : A → pyres B) : (x ← Ret a; f x) = f a.
Proof. reflexivity. Qed.

Lemma group_of_closed fl r text pos st n :
  ReSpec.den fl r (Re.MState pos (drop pos text) []) st →
  ReSpec.sets_group n r = true →
  is_Some (Re.group (Re.Match text pos (Re.m_pos st) (Re.m_marks st)) n).
Proof.
  intros Hd Hs. pose proof (den_sets_group fl r n _ _ Hd Hs) as [span Hm].
  unfold Re.group, Re.span. simpl. destruct n.
  - done.
  - rewrite Hm. destruct span. by eexists.
Qed.

Lemma search_group fl r text m n :
  Re.search fl r text = Some m → ReSpec.sets_group n r = true →
  is_Some (Re.group m n).
Proof.
  intros H Hs. apply search_sound in H as (pos & st & _ & Hd & ->).
  by eapply group_of_closed.
Qed.

Lemma match_group fl r text m n :
  Re.match_ fl r text = Some m → ReSpec.sets_group n r = true →
  is_Some (Re.group m n).
Proof.
  intros H Hs. apply match_sound in H as (st & Hd & ->).
  by apply (group_of_closed fl r text 0 st n).
Qed.

Lemma pattern_groups_compile pattern n :
  pattern_groups pattern n = true →
  ∃ r, Re.compile pattern = Some r
       ∧ ∀ i, (1 ≤ i ≤ n)%nat → ReSpec.sets_group i r = true.
Proof.
  unfold pattern_groups. destruct (Re.compile pattern) as [r |]; [| done].
  intros H. exists r. split; [done |]. intros i Hi.
  rewrite forallb_forall in H. apply H. apply in_seq. lia.
Qed.

(** [find] with a pattern that compiles and always closes its first
    group returns a string. *)
Lemma find_ret subject pattern :
  pattern_groups pattern 1 = true →
  ∃ r, Re.compile pattern = Some r ∧
    find subject pattern =
      Ret (match Re.search Re.IGNORECASE r subject with
           | Some m => strip (default [] (Re.group m 1))
           | None => []
           end).
Proof.
  intros H. apply pattern_groups_compile in H as (r & Hc & Hs).
  exists r. split; [done |]. unfold find, re_search. rewrite Hc, bind_ret.
  destruct (Re.search Re.IGNORECASE r subject) as [m |] eqn:E; [| done].
  destruct (search_group _ _ _ _ 1%nat E) as [g Hg]; [apply Hs; lia |].
  unfold group_str. by rewrite Hg.
Qed.

Lemma find_total subject pattern :
  pattern_groups pattern 1 = true → ∃ s, find subject pattern = Ret s.
Proof. intros H. destruct (find_ret subject pattern H) as (r & _ & ->). eauto. Qed.

(** [float()] raises nothing but [ValueError]. *)
Lemma float_raises_ValueError s e : PyFloat.float s = Raise e → e = ValueError.
Proof.
  unfold PyFloat.float. intros H.
  destruct (PyFloat.remove_underscores _ _); [| congruence].
  destruct (PyFloat.parse_literal _); congruence.
Qed.

Lemma parse_br_number_ret value :
  parse_br_number value =
    Ret (match value with
         | None => None
         | Some v =>
             match strip v with
             | [] => None
             | text =>
                 match PyFloat.float (replace 44 (u ".") (replace 46 (u "") text)) with
                 | Ret x => Some x
                 | Raise _ => None
                 end
             end
         end).
Proof.
  destruct value as [v |]; [| done]. unfold parse_br_number.
  destruct (strip v) as [| c t]; [done |].
  destruct (PyFloat.float _) as [x | e] eqn:E; [done |].
  apply float_raises_ValueError in E. by subst.
Qed.

Lemma parse_br_number_total value : ∃ x, parse_br_number value = Ret x.
Proof. rewrite parse_br_number_ret. eauto. Qed.

Lemma first_rota_total lines : ∃ s, first_rota lines = Ret s.
Proof.
  induction lines as [| line lines IH]; [by eexists |].
  cbn [first_rota]. unfold re_match.
  destruct (Re.compile "^\d{2,4}\s+[A-Za-zÀ-ÿ0-9 .,\-()]+$") as [r |] eqn:E;
    [| by vm_compute in E].
  rewrite bind_ret. destruct (Re.match_ _ _ _); [by eexists | done].
Qed.

(** Record construction *)

Lemma dict_update_snoc (d : dict) items k v :
  dict_update d (items ++ [(k, v)]) = <[k := v]> (dict_update d items).
Proof. unfold dict_update. by rewrite foldl_app. Qed.

Lemma fill_missing_lookup (record : dict) k :
  fill_missing record !! k =
    match record !! k with
    | Some v => Some v
    | None => if bool_decide (k ∈ COLUMNS) then Some PNone else None
    end.
Proof.
  unfold fill_missing. generalize COLUMNS as cols. intros cols. revert record.
  induction cols as [| c cols IH]; intros record; simpl.
  - by destruct (record !! k).
  - rewrite IH. destruct (record !! c) as [vc |] eqn:Ec.
    + destruct (record !! k) eqn:Ek; [done |].
      destruct (decide (k = c)) as [-> | Hne]; [congruence |].
      rewrite !bool_decide_decide.
      destruct (decide (k ∈ cols)) as [Hin | Hin],
        (decide (k ∈ c :: cols)) as [Hin' | Hin']; try done.
      * exfalso. by apply Hin', list_elem_of_further.
      * exfalso. by apply elem_of_cons in Hin' as [? | ?].
    + destruct (decide (k = c)) as [-> | Hne].
      * rewrite lookup_insert_eq, Ec. rewrite bool_decide_true by set_solver. done.
      * rewrite lookup_insert_ne by done.
        destruct (record !! k) eqn:Ek; [done |].
        rewrite !bool_decide_decide.
        destruct (decide (k ∈ cols)) as [Hin | Hin],
          (decide (k ∈ c :: cols)) as [Hin' | Hin']; try done.
        -- exfalso. by apply Hin', list_elem_of_further.
        -- exfalso. by apply elem_of_cons in Hin' as [? | ?].
Qed.

Lemma fill_missing_dom (record : dict) :
  dom (fill_missing record) = dom record ∪ list_to_set COLUMNS.
Proof.
  apply set_eq. intros k. rewrite elem_of_union, !elem_of_dom, fill_missing_lookup.
  rewrite elem_of_list_to_set.
  destruct (record !! k) eqn:E.
  - split; [left; eauto | eauto].
  - rewrite bool_decide_decide. destruct (decide (k ∈ COLUMNS)).
    + split; [by right | eauto].
    + split; [by intros [? ?] | intros [[? ?] | ?]; done].
Qed.

(** ** The functions of the program, step by step *)

Lemma compile_note_rx : Re.compile "(?:^|\n)\s*(\d{3,5}-\d{3,})" = Some note_rx.
Proof. by vm_compute. Qed.

Lemma compile_pedido_rx : Re.compile "(?:^|\n)\s*Pedido:\s*\d+" = Some pedido_rx.
Proof. by vm_compute. Qed.

Lemma compile_numero_rx : Re.compile "^\s*(\d{3,5}-\d+)" = Some numero_rx.
Proof. by vm_compute. Qed.

Lemma extract_header_fields_ret text :
  ∃ rota data_emissao data_previsao motorista veiculo carga,
    extract_header_fields text =
      Ret (dict_update ∅
             [ ("rota", PStr rota);
               ("data_emissao", PStr data_emissao);
               ("data_previsao", PStr data_previsao);
               ("motorista", PStr motorista);
               ("veiculo", PStr veiculo);
               ("carga", PStr carga) ]).
Proof.
  unfold extract_header_fields.
  destruct (first_rota_total
              (map strip (List.filter (fun line => nonempty (strip line)) (splitlines text))))
    as [rota ->].
  destruct (find_total text "Emiss[aã]o:\s*([\d/]{8,10})") as [e ->]; [by vm_compute |].
  destruct (find_total text "Previs[aã]o:\s*([\d/]{8,10})") as [p ->]; [by vm_compute |].
  destruct (find_total text "Motorista:\s*([^\n]+)") as [m ->]; [by vm_compute |].
  destruct (find_total text "Ve[ií]culo:\s*([^\n]+)") as [v ->]; [by vm_compute |].
  destruct (find_total text "Carga[:\s]+([0-9\.,]+)") as [c ->]; [by vm_compute |].
  rewrite !bind_ret. by exists rota, e, p, m, v, c.
Qed.

Lemma blocks_of_nil text : blocks_of text [] = [].
Proof. reflexivity. Qed.

Lemma split_notes_blocks_ret text :
  split_notes_blocks text =
    Ret (blocks_of text
           (match primary_positions text with
            | [] => fallback_positions text
            | positions => positions
            end)).
Proof.
  unfold split_notes_blocks, re_compile.
  rewrite compile_note_rx, bind_ret. fold (primary_positions text).
  destruct (primary_positions text) as [| p ps] eqn:E.
  - rewrite compile_pedido_rx, !bind_ret. fold (fallback_positions text).
    by destruct (fallback_positions text).
  - by rewrite bind_ret.
Qed.

Lemma parse_block_ret block header :
  ∃ numero_nota codigo_cliente nome_cliente pedido cidade peso_pedido endereco
    total_nota forma_recebimento valor_recebimento,
    find block "^\s*(\d{3,5}-\d+)" = Ret numero_nota ∧
    parse_block block header =
      Ret (fill_missing
             (dict_update header
                [ ("numero_nota", PStr numero_nota);
                  ("codigo_cliente", PStr codigo_cliente);
                  ("nome_cliente", PStr nome_cliente);
                  ("pedido", PStr pedido);
                  ("cidade", PStr cidade);
                  ("peso_pedido", of_number peso_pedido);
                  ("endereco", PStr endereco);
                  ("total_nota", of_number total_nota);
                  ("forma_recebimento", PStr forma_recebimento);
                  ("valor_recebimento", of_number valor_recebimento) ])).
Proof.
  unfold parse_block.
  destruct (find_total block "^\s*(\d{3,5}-\d+)") as [numero Hn]; [by vm_compute |].
  rewrite Hn, bind_ret.
  destruct (find_total block "Nome:\s*([^\n]+)") as [nome ->]; [by vm_compute |].
  rewrite bind_ret.
  lazymatch goal with
  | |- context [@mbind _ _ (prod str str) _ _ ?X] =>
      assert (∃ cn, X = Ret cn) as [[codigo cliente] ->]
  end.
  { destruct nome as [| c t]; [by eexists |].
    destruct (pattern_groups_compile "(\d+)\s*-\s*(.+)" 2) as (r & Hc & Hs);
      [by vm_compute |].
    unfold re_match. rewrite Hc, bind_ret.
    destruct (Re.match_ Re.NOFLAGS r (c :: t)) as [m |] eqn:E; [| by eexists].
    destruct (match_group _ _ _ _ 1%nat E) as [g1 Hg1]; [apply Hs; lia |].
    destruct (match_group _ _ _ _ 2%nat E) as [g2 Hg2]; [apply Hs; lia |].
    unfold group_str. rewrite Hg1, Hg2. by eexists. }
  rewrite bind_ret.
  destruct (find_total block "Pedido:\s*([^\n]+)") as [pedido ->]; [by vm_compute |].
  destruct (find_total block "Cidade:\s*([^\n]+)") as [cidade ->]; [by vm_compute |].
  destruct (find_total block "Peso\s*Pedido:\s*([0-9\.,]+)") as [pt ->]; [by vm_compute |].
  rewrite !bind_ret.
  destruct (parse_br_number_total (Some pt)) as [peso ->].
  destruct (find_total block "Endere[cç]o:\s*([^\n]+)") as [endereco ->]; [by vm_compute |].
  destruct (find_total block "Total\s+da\s+Nota:\s*R?\$?\s*([0-9\.,]+)") as [tt ->];
    [by vm_compute |].
  rewrite !bind_ret.
  destruct (parse_br_number_total (Some tt)) as [total ->].
  rewrite bind_ret.
  destruct (pattern_groups_compile
              "Duplicata\s+a\s+Receber\s*(.*?)\s*Valor:\s*R?\$?\s*([0-9\.,]+)" 2)
    as (r & Hc & Hs); [by vm_compute |].
  unfold re_search. rewrite Hc, bind_ret.
  destruct (Re.search Re.IGNORECASE_DOTALL r block) as [m |] eqn:E.
  - destruct (search_group _ _ _ _ 1%nat E) as [g1 Hg1]; [apply Hs; lia |].
    unfold group_str. rewrite Hg1, bind_ret.
    destruct (parse_br_number_total (Re.group m 2)) as [valor ->].
    rewrite !bind_ret.
    by exists numero, codigo, cliente, pedido, cidade, peso, endereco, total, (strip g1), valor.
  - rewrite bind_ret.
    by exists numero, codigo, cliente, pedido, cidade, peso, endereco, total, [], None.
Qed.

Lemma parse_block_total block header : ∃ record, parse_block block header = Ret record.
Proof.
  destruct (parse_block_ret block header)
    as (? & ? & ? & ? & ? & ? & ? & ? & ? & ? & _ & ->). eauto.
Qed.

Lemma mapM_ret {A B} (f : A → pyres B) (l : list A) :
  (∀ x, ∃ y, f x = Ret y) →
  ∃ ys, mapM f l = Ret ys ∧ Forall2 (fun x y => f x = Ret y) l ys.
Proof.
  intros Hf. induction l as [| x l (ys & IH & HF)].
  - exists []. split; [done | constructor].
  - destruct (Hf x) as [y Hy]. exists (y :: ys).
    cbn [mapM]. rewrite Hy, bind_ret, IH, bind_ret. split; [done | by constructor].
Qed.

Lemma parse_text_to_records_ret text :
  ∃ header blocks records,
    extract_header_fields text = Ret header
    ∧ split_notes_blocks text = Ret blocks
    ∧ parse_text_to_records text = Ret records
    ∧ Forall2 (fun block record => parse_block block header = Ret record) blocks records.
Proof.
  destruct (extract_header_fields_ret text) as (r & e & p & m & v & c & Hh).
  eexists. exists (blocks_of text
           (match primary_positions text with
            | [] => fallback_positions text
            | positions => positions
            end)).
  destruct (mapM_ret (fun block => parse_block block
              (dict_update ∅
             [ ("rota", PStr r);
               ("data_emissao", PStr e);
               ("data_previsao", PStr p);
               ("motorista", PStr m);
               ("veiculo", PStr v);
               ("carga", PStr c) ])) (blocks_of text
           (match primary_positions text with
            | [] => fallback_positions text
            | positions => positions
            end))) as (records & Hm & HF).
  { intros b. apply parse_block_total. }
  exists records. split_and!; [exact Hh | apply split_notes_blocks_ret | | exact HF].
  unfold parse_text_to_records. by rewrite Hh, bind_ret, split_notes_blocks_ret, bind_ret.
Qed.

(** ** The end-to-end example *)

(** C1: the example document yields one record, with the header fields
    of the document and the fields of its one block. *)
Theorem C1_end_to_end :
  parse_text_to_records example_document =
    Ret [ dict_update ∅
            [ ("rota", PStr (u "600 PEDRO LEOPOLDO"));
              ("data_emissao", PStr (u "01/01/2024"));
              ("data_previsao", PStr (u "02/01/2024"));
              ("motorista", PStr (u "João"));
              ("veiculo", PStr (u "ABC-1234"));
              ("carga", PStr (u ""));
              ("numero_nota", PStr (u "1552-24995"));
              ("codigo_cliente", PStr (u "10"));
              ("nome_cliente", PStr (u "Cliente X"));
              ("pedido", PStr (u "99"));
              ("cidade", PStr (u "BH"));
              ("peso_pedido", PFloat (ratio 21 2));
              ("endereco", PStr (u "Rua A"));
              ("total_nota", PFloat (float_of_int 100));
              ("forma_recebimento", PStr (u "Boleto"));
              ("valor_recebimento", PFloat (float_of_int 100)) ] ].
Proof. vm_compute. reflexivity. Qed.

(** ** Number normalisation *)

Lemma forallb_isspace (s : str) : forallb Unicode.isspace s = true ↔ spaces s.
Proof.
  unfold spaces. rewrite forallb_forall, Forall_forall.
  split; intros H x Hx; apply H; by apply list_elem_of_In.
Qed.

Lemma replace_drop (old : char) (s : str) :
  replace old [] s = List.filter (fun c => negb (c =? old)) s.
Proof.
  induction s as [| c s IH]; [done |].
  unfold replace in *. simpl. rewrite IH. by destruct (c =? old).
Qed.

Lemma replace_one (old new : char) (s : str) :
  replace old [new] s = map (fun c => if c =? old then new else c) s.
Proof.
  induction s as [| c s IH]; [done |].
  unfold replace in *. simpl. rewrite IH. by destruct (c =? old).
Qed.

Lemma parse_br_number_spec value : parse_br_number value = Ret (NumberNormalizer value).
Proof.
  rewrite parse_br_number_ret. f_equal. destruct value as [s |]; [| done].
  unfold NumberNormalizer.
  destruct (forallb Unicode.isspace s) eqn:E.
  - apply forallb_isspace, strip_nil in E. by rewrite E.
  - destruct (strip s) as [| c t] eqn:Es.
    + apply strip_nil, forallb_isspace in Es. congruence.
    + change (u ".") with [46]. change (u "") with (@nil char).
      by rewrite replace_drop, replace_one.
Qed.

(** C4: the number normaliser does what the specification says, on every
    token, and gives the values of the contract on its examples. *)
Theorem C4_number_normalizer :
  (∀ token, parse_br_number token = Ret (NumberNormalizer token))
  ∧ NumberNormalizer (Some (u "5.458,96")) = Some (ratio 545896 100)
  ∧ NumberNormalizer (Some (u "1.234.567,89")) = Some (ratio 123456789 100)
  ∧ NumberNormalizer (Some (u "")) = None
  ∧ NumberNormalizer None = None
  ∧ NumberNormalizer (Some (u "abc")) = None.
Proof. split_and!; [apply parse_br_number_spec | by vm_compute ..]. Qed.

(** C10: after the separators are rewritten, any float literal of the
    host is accepted. *)
Theorem C10_host_literals :
  parse_br_number (Some (u "1e3")) = Ret (Some (float_of_int 1000))
  ∧ parse_br_number (Some (u "-2")) = Ret (Some (float_of_int (-2)))
  ∧ parse_br_number (Some (u "inf")) = Ret (Some (S754_infinity false)).
Proof. split_and!; by vm_compute. Qed.

(** ** Date normalisation *)

Lemma int_raises_ValueError s e : PyDatetime.int s = Raise e → e = ValueError.
Proof.
  unfold PyDatetime.int. destruct (strip s); [congruence |].
  destruct (PyDatetime.digits_to_N _ _); congruence.
Qed.

Lemma make_date_raises_ValueError y m d e :
  PyDatetime.make_date y m d = Raise e → e = ValueError.
Proof. unfold PyDatetime.make_date. case_match; congruence. Qed.

Lemma make_date_valid y m d dt :
  PyDatetime.make_date y m d = Ret dt →
  dt = PyDatetime.Date y m d ∧ 1 ≤ y ≤ 9999 ∧ 1 ≤ m ≤ 12 ∧ 1 ≤ d ≤ 31.
Proof.
  unfold PyDatetime.make_date. case_match eqn:E; [| done]. intros [= <-].
  repeat (apply andb_true_iff in E as [E ?]).
  repeat match goal with H : (_ <=? _) = true |- _ => apply N.leb_le in H end.
  assert (PyDatetime.days_in_month y m ≤ 31).
  { unfold PyDatetime.days_in_month. repeat case_match; lia. }
  split; [done | lia].
Qed.

Lemma read_fields_raises_ValueError m ds : ∀ i y mo d e,
  (∀ j, (i ≤ j < i + length ds)%nat → is_Some (Re.group m j)) →
  PyDatetime.read_fields m ds i y mo d = Raise e → e = ValueError.
Proof.
  induction ds as [| c ds IH]; intros i y mo d e Hg H; [done |].
  cbn [PyDatetime.read_fields] in H.
  destruct (Hg i) as [g Eg]; [simpl; lia |].
  unfold group_str in H. rewrite Eg, bind_ret in H.
  destruct (PyDatetime.int g) as [v | e'] eqn:Ei.
  - rewrite bind_ret in H.
    repeat case_decide; (eapply IH; [| exact H]); intros j Hj; apply Hg; simpl; lia.
  - simpl in H. simplify_eq. by eapply int_raises_ValueError.
Qed.

Lemma program_format_pattern format :
  program_format format →
  ∃ pat ds, PyDatetime.format_pattern format = Some (pat, ds)
            ∧ pattern_groups pat (length ds) = true.
Proof.
  intros [-> | ->]; do 2 eexists; (split; [vm_compute; reflexivity |]); vm_compute; reflexivity.
Qed.

(** With the formats of the program, [strptime] raises nothing but
    [ValueError]. *)
Lemma strptime_raises_ValueError s format e :
  program_format format →
  PyDatetime.strptime s format = Raise e → e = ValueError.
Proof.
  intros Hf H. unfold PyDatetime.strptime in H.
  destruct (program_format_pattern format Hf) as (pat & ds & Hfp & Hp).
  rewrite Hfp in H.
  apply pattern_groups_compile in Hp as (r & Hc & Hs).
  unfold re_match in H. rewrite Hc, bind_ret in H.
  destruct (Re.match_ Re.IGNORECASE r s) as [m |] eqn:Em; [| congruence].
  case_match; [congruence |].
  destruct (PyDatetime.read_fields m ds 1 None 1 1) as [[[y mo] d] | e'] eqn:Er.
  - rewrite bind_ret in H. by eapply make_date_raises_ValueError.
  - simpl in H. simplify_eq. eapply read_fields_raises_ValueError; [| exact Er].
    intros j Hj. eapply match_group; [exact Em |]. apply Hs. lia.
Qed.


Lemma strftime_rendered dt : PyDatetime.strftime dt "%d/%m/%Y" = Ret (rendered dt).
Proof.
  unfold rendered. rewrite <- (app_nil_r (PyDatetime.decimal (PyDatetime.year dt))).
  reflexivity.
Qed.

Lemma format_date_loop_spec s :
  format_date_loop s ["%d/%m/%Y"; "%d/%m/%y"]%string = Ret (rendered_date s).
Proof.
  unfold rendered_date, parses_as. cbn [format_date_loop].
  destruct (PyDatetime.strptime s "%d/%m/%Y") as [d | e] eqn:E1.
  - by rewrite bind_ret, strftime_rendered.
  - apply strptime_raises_ValueError in E1 as ->; [| by left].
    cbn [mbind pyres_bind try_except]. rewrite decide_True by done.
    destruct (PyDatetime.strptime s "%d/%m/%y") as [d | e] eqn:E2.
    + by rewrite bind_ret, strftime_rendered.
    + apply strptime_raises_ValueError in E2 as ->; [| by right].
      cbn [mbind pyres_bind try_except]. by rewrite decide_True.
Qed.

Lemma format_date_br_spec s : format_date_br s = Ret (rendered_date s).
Proof.
  destruct s as [| c t]; [by vm_compute |].
  unfold format_date_br. apply format_date_loop_spec.
Qed.

Lemma todecimal_ascii (x : N) : x < 10 → Unicode.todecimal (48 + x) = Some x.
Proof.
  intros H. unfold Unicode.todecimal, Unicode.decimal_zeros.
  cbn [Unicode.todecimal_in].
  replace ((48 <=? 48 + x) && (48 + x <? 48 + 10)) with true.
  - f_equal. lia.
  - symmetry. apply andb_true_iff. split; [apply N.leb_le | apply N.ltb_lt]; lia.
Qed.

Lemma divmod10 (n : N) : ∃ q r, n / 10 = q ∧ n mod 10 = r ∧ n = 10 * q + r ∧ r < 10.
Proof.
  exists (n / 10), (n mod 10). split_and!; try done.
  - apply N.div_mod. lia.
  - apply N.mod_upper_bound. lia.
Qed.

Lemma two_digits (n : N) : n < 100 → 10 * (10 * 0 + (n / 10) mod 10) + n mod 10 = n.
Proof.
  intros H. destruct (divmod10 n) as (q & r & -> & -> & E & Hr).
  destruct (divmod10 q) as (q' & r' & _ & -> & E' & Hr'). lia.
Qed.




(** The digits of a year of four digits are those of its padded form. *)
Lemma decimal_four (y : N) :
  1000 ≤ y ≤ 9999 → PyDatetime.decimal y = PyDatetime.pad_digits 4 y [].
Proof.
  intros Hy. unfold PyDatetime.decimal.
  assert (9 ≤ N.log2 y) as Hl.
  { change 9 with (N.log2 512). apply N.log2_le_mono. lia. }
  destruct (N.to_nat (N.log2 y)) as [| [| [| f]]] eqn:E; try lia.
  cbn [PyDatetime.unpadded_digits PyDatetime.pad_digits].
  destruct (divmod10 y) as (q1 & r1 & Eq1 & Er1 & E1 & H1). rewrite Eq1, Er1.
  destruct (divmod10 q1) as (q2 & r2 & Eq2 & Er2 & E2 & H2). rewrite Eq2, Er2.
  destruct (divmod10 q2) as (q3 & r3 & Eq3 & Er3 & E3 & H3). rewrite Eq3, Er3.
  destruct (divmod10 q3) as (q4 & r4 & Eq4 & Er4 & E4 & H4). rewrite Eq4.
  destruct (N.eqb_spec q1 0) as [? | _]; [lia |].
  destruct (N.eqb_spec q2 0) as [? | _]; [lia |].
  destruct (N.eqb_spec q3 0) as [? | _]; [lia |].
  destruct (N.eqb_spec q4 0) as [_ | ?]; [reflexivity | lia].
Qed.

Lemma rendered_canonical dt :
  1000 ≤ PyDatetime.year dt ≤ 9999 → rendered dt = canonical dt.
Proof. intros H. unfold rendered, canonical. by rewrite decimal_four. Qed.






(** ** Records *)

Ltac in_list := repeat first [apply list_elem_of_here | apply list_elem_of_further].

Ltac lookup_record :=
  rewrite ?fill_missing_lookup; unfold dict_update; cbn [foldl fst snd map];
  simplify_map_eq.

Lemma record_schema rota em pr mo ve ca nn cc nc pe ci pp en tn fr vr :
  has_schema
    (fill_missing
       (dict_update
          (dict_update ∅
             [ ("rota", PStr rota);
               ("data_emissao", PStr em);
               ("data_previsao", PStr pr);
               ("motorista", PStr mo);
               ("veiculo", PStr ve);
               ("carga", PStr ca) ])
          [ ("numero_nota", PStr nn);
            ("codigo_cliente", PStr cc);
            ("nome_cliente", PStr nc);
            ("pedido", PStr pe);
            ("cidade", PStr ci);
            ("peso_pedido", of_number pp);
            ("endereco", PStr en);
            ("total_nota", of_number tn);
            ("forma_recebimento", PStr fr);
            ("valor_recebimento", of_number vr) ])).
Proof.
  unfold has_schema. split_and!.
  - rewrite fill_missing_dom. unfold dict_update, COLUMNS.
    cbn [foldl fst snd list_to_set].
    rewrite !dom_insert_L, dom_empty_L. set_solver.
  - unfold TEXT_KEYS. repeat constructor; lookup_record; eauto.
  - unfold NUMERIC_KEYS. repeat constructor; lookup_record; eauto.
Qed.

Lemma dict_update_other (items : list (string * pyval)) k : ∀ d : dict,
  k ∉ items.*1 → dict_update d items !! k = d !! k.
Proof.
  unfold dict_update. induction items as [| [k' v] items IH]; intros d Hk; [done |].
  cbn [foldl fst snd]. apply not_elem_of_cons in Hk as [Hne Hk].
  rewrite IH by done. by rewrite lookup_insert_ne.
Qed.

(** A key of the header that no block field overrides keeps its value. *)
Lemma record_keeps_header (header : dict) (items : list (string * pyval)) k :
  k ∉ items.*1 → is_Some (header !! k) →
  fill_missing (dict_update header items) !! k = header !! k.
Proof.
  intros Hk [v Hv]. rewrite fill_missing_lookup, dict_update_other by done.
  by rewrite Hv.
Qed.

Lemma Ret_inj {A} (a b : A) : Ret a = Ret b → a = b.
Proof. by intros [= ->]. Qed.

(** What the pipeline returns on a text, with everything it went through. *)
Lemma pipeline_ret text :
  ∃ header blocks records,
    extract_header_fields text = Ret header
    ∧ split_notes_blocks text = Ret blocks
    ∧ parse_text_to_records text = Ret records
    ∧ Forall2 (fun block record => parse_block block header = Ret record) blocks records
    ∧ Forall has_schema records
    ∧ Forall (fun record : dict =>
                Forall (fun k => record !! k = header !! k) HEADER_KEYS) records.
Proof.
  destruct (parse_text_to_records_ret text) as (header & blocks & records & Hh & Hb & Hr & HF).
  exists header, blocks, records. split_and!; try done.
  - destruct (extract_header_fields_ret text) as (r & e & p & m & v & c & Hh').
    set (h := dict_update ∅ _) in Hh'. rewrite Hh in Hh'. apply Ret_inj in Hh'. subst header.
    clear Hb Hr. induction HF as [| b rec bs recs Hp _ IH]; constructor; [| done].
    destruct (parse_block_ret b h) as (? & ? & ? & ? & ? & ? & ? & ? & ? & ? & _ & Hp').
    rewrite Hp in Hp'. apply Ret_inj in Hp'. subst rec.
    apply record_schema.
  - destruct (extract_header_fields_ret text) as (r & e & p & m & v & c & Hh').
    set (h := dict_update ∅ _) in Hh'. rewrite Hh in Hh'. apply Ret_inj in Hh'. subst header.
    clear Hb Hr. induction HF as [| b rec bs recs Hp _ IH]; constructor; [| done].
    destruct (parse_block_ret b h) as (? & ? & ? & ? & ? & ? & ? & ? & ? & ? & _ & Hp').
    rewrite Hp in Hp'. apply Ret_inj in Hp'. subst rec.
    unfold HEADER_KEYS.
    repeat constructor;
      (apply record_keeps_header;
       [apply (bool_decide_unpack _); vm_compute; reflexivity
       | unfold h; lookup_record; eauto]).
Qed.

Lemma records_schema (text : str) :
  ∃ records, parse_text_to_records text = Ret records ∧ Forall has_schema records.
Proof.
  destruct (pipeline_ret text) as (h & b & records & _ & _ & Hr & _ & Hs & _).
  by exists records.
Qed.

(** C2: there are sixteen columns, all different, thirteen of text and
    three of numbers; every record of the pipeline has exactly these
    keys, numbers or [None] in the three numeric columns and strings in
    the others. *)
Theorem C2_fixed_schema (text : str) :
  length COLUMNS = 16%nat ∧ NoDup COLUMNS
  ∧ COLUMNS ≡ₚ TEXT_KEYS ++ NUMERIC_KEYS
  ∧ ∃ records, parse_text_to_records text = Ret records ∧ Forall has_schema records.
Proof.
  split_and!.
  - reflexivity.
  - apply (bool_decide_unpack _). vm_compute. reflexivity.
  - apply (bool_decide_unpack _). vm_compute. reflexivity.
  - apply records_schema.
Qed.

(** ** The table of [main] *)

Lemma mapM_pure {A B} (f : A → pyres B) (g : A → B) (l : list A) :
  Forall (fun x => f x = Ret (g x)) l → mapM f l = Ret (map g l).
Proof.
  induction 1 as [| x l Hx _ IH]; [done |].
  cbn [mapM map]. by rewrite Hx, bind_ret, IH, bind_ret.
Qed.

Lemma apply_format_date_ret column (df : list dict) :
  Forall (fun row : dict => ∃ s, row !! column = Some (PStr s)) df →
  apply_format_date column df = Ret (map (normalize_date_column column) df).
Proof.
  intros H. unfold apply_format_date. apply mapM_pure.
  eapply Forall_impl; [exact H |]. intros row [s Hs]. simpl.
  unfold normalize_date_column. rewrite Hs. simpl.
  by rewrite format_date_br_spec, !bind_ret.
Qed.

Lemma schema_text (r : dict) k :
  has_schema r → k ∈ TEXT_KEYS → ∃ s, r !! k = Some (PStr s).
Proof. intros (_ & H & _) Hk. rewrite Forall_forall in H. by apply H. Qed.

Lemma frame_row_date (record : dict) k :
  has_schema record → k ∈ ["data_emissao"; "data_previsao"]%string →
  ∃ s, dict_update ∅
         (map (fun k => (k, default (PFloat S754_nan) (record !! k))) COLUMNS) !! k
       = Some (PStr s).
Proof.
  intros Hs Hk.
  destruct (schema_text record "data_emissao" Hs) as [e He]; [unfold TEXT_KEYS; in_list |].
  destruct (schema_text record "data_previsao" Hs) as [p Hp]; [unfold TEXT_KEYS; in_list |].
  unfold COLUMNS. cbn [map]. rewrite He, Hp.
  apply elem_of_cons in Hk as [-> | Hk]; [lookup_record; eauto |].
  apply elem_of_cons in Hk as [-> | Hk]; [lookup_record; eauto |].
  by apply elem_of_nil in Hk.
Qed.

Lemma normalize_keeps_text column column' (row : dict) :
  (∃ s, row !! column' = Some (PStr s)) →
  ∃ s, normalize_date_column column row !! column' = Some (PStr s).
Proof.
  intros [s Hs]. unfold normalize_date_column.
  destruct (row !! column) as [[| t |] |] eqn:E; eauto.
  destruct (decide (column = column')) as [-> | Hne].
  - rewrite lookup_insert_eq. eauto.
  - rewrite lookup_insert_ne by done. eauto.
Qed.

Lemma process_upload_ret name pages :
  ∃ records,
    parse_text_to_records (join [LF] (map (fun p => default [] p) pages)) = Ret records
    ∧ process_upload (Upload name (Ret pages)) = Ret (map finish_row records).
Proof.
  destruct (records_schema (join [LF] (map (fun p => default [] p) pages)))
    as (records & Hr & Hs).
  exists records. split; [done |].
  unfold process_upload, parse_pdf. cbn [upload_pages]. rewrite bind_ret, Hr, !bind_ret.
  assert (apply_format_date "data_emissao" (DataFrame records COLUMNS)
          ≫= apply_format_date "data_previsao" = Ret (map finish_row records)) as Hgo.
  { rewrite apply_format_date_ret.
    - rewrite bind_ret, apply_format_date_ret.
      + unfold DataFrame, finish_row. by rewrite !map_map.
      + unfold DataFrame. rewrite !Forall_map. eapply Forall_impl; [exact Hs |].
        intros r Hr'. cbn beta. apply normalize_keeps_text.
        apply frame_row_date; [done | in_list].
    - unfold DataFrame. rewrite Forall_map. eapply Forall_impl; [exact Hs |].
      intros r Hr'. cbn beta. apply frame_row_date; [done | in_list]. }
  destruct records as [| r rs]; [done |]. exact Hgo.
Qed.

Lemma main_loop_rows (fs : list upload) : ∀ acc,
  concat (foldl (fun acc f =>
           match process_upload f with
           | Ret [] => (acc.1, acc.2 ++ [Warning (upload_name f)])
           | Ret df => (acc.1 ++ [df], acc.2)
           | Raise e => (acc.1, acc.2 ++ [Error (upload_name f) e])
           end) acc fs).1
  = concat acc.1 ++ concat (map document_rows fs).
Proof.
  induction fs as [| f fs IH]; intros acc; simpl.
  - by rewrite app_nil_r.
  - rewrite IH. unfold document_rows at 2.
    destruct (process_upload f) as [[| r df] | e]; simpl.
    + done.
    + rewrite concat_app. simpl. by rewrite app_nil_r, <- app_assoc.
    + done.
Qed.

Lemma main_table_rows (fs : list upload) :
  match main_table fs with
  | Some table => table = concat (map document_rows fs)
  | None => concat (map document_rows fs) = []
  end.
Proof.
  unfold main_table. pose proof (main_loop_rows fs ([], [])) as H.
  fold (main_loop fs) in H. simpl in H.
  destruct (main_loop fs).1 as [| d ds]; [done |]. by rewrite H.
Qed.

(** C7: the header is extracted once and every record of the document
    carries its six fields unchanged; the records come in the order of
    the blocks; a file contributes its records in that order, and the
    table is the concatenation of the files' rows in the order of the
    files. *)
Theorem C7_header_order_concatenation :
  (∀ text, ∃ header blocks records,
      extract_header_fields text = Ret header
      ∧ split_notes_blocks text = Ret blocks
      ∧ parse_text_to_records text = Ret records
      ∧ Forall2 (fun block record => parse_block block header = Ret record)
          blocks records
      ∧ Forall (fun record : dict =>
                  Forall (fun k => record !! k = header !! k) HEADER_KEYS) records)
  ∧ (∀ name pages, ∃ records,
        parse_text_to_records (join [LF] (map (fun p => default [] p) pages))
          = Ret records
        ∧ document_rows (Upload name (Ret pages)) = map finish_row records)
  ∧ (∀ uploaded_files,
        match main_table uploaded_files with
        | Some table => table = concat (map document_rows uploaded_files)
        | None => concat (map document_rows uploaded_files) = []
        end).
Proof.
  split_and!.
  - intros text.
    destruct (pipeline_ret text) as (h & b & r & Hh & Hb & Hr & HF & _ & Hk).
    by exists h, b, r.
  - intros name pages. destruct (process_upload_ret name pages) as (records & Hr & Hp).
    exists records. split; [done |]. unfold document_rows. by rewrite Hp.
  - apply main_table_rows.
Qed.

(** ** Nothing raises *)

Lemma find_unmatched subject pattern r :
  Re.compile pattern = Some r →
  Re.search Re.IGNORECASE r subject = None →
  find subject pattern = Ret [].
Proof. intros Hc Hs. unfold find, re_search. by rewrite Hc, bind_ret, Hs. Qed.

(** C8: the operations of the core return a value on every input; a
    label that matches nowhere gives the empty string, a token that is
    no number gives [None], and a token that is no date comes back
    stripped. *)
Theorem C8_nothing_raises :
  (∀ text, ∃ header, extract_header_fields text = Ret header)
  ∧ (∀ text, ∃ blocks, split_notes_blocks text = Ret blocks)
  ∧ (∀ block header, ∃ record, parse_block block header = Ret record)
  ∧ (∀ text, ∃ records, parse_text_to_records text = Ret records)
  ∧ (∀ token, ∃ x, parse_br_number token = Ret x)
  ∧ (∀ s, ∃ t, format_date_br s = Ret t)
  ∧ (∀ subject pattern r,
       Re.compile pattern = Some r →
       Re.search Re.IGNORECASE r subject = None →
       find subject pattern = Ret [])
  ∧ (∀ s c t e,
       strip s = c :: t →
       PyFloat.float (replace 44 (u ".") (replace 46 (u "") (strip s))) = Raise e →
       parse_br_number (Some s) = Ret None)
  ∧ (∀ s,
       parses_as "%d/%m/%Y" s = None → parses_as "%d/%m/%y" s = None →
       format_date_br s = Ret (strip s)).
Proof.
  split_and!.
  - intros text. destruct (extract_header_fields_ret text) as (? & ? & ? & ? & ? & ? & ->).
    eauto.
  - intros text. rewrite split_notes_blocks_ret. eauto.
  - apply parse_block_total.
  - intros text. destruct (pipeline_ret text) as (? & ? & r & _ & _ & -> & _). eauto.
  - apply parse_br_number_total.
  - intros s. rewrite format_date_br_spec. eauto.
  - apply find_unmatched.
  - intros s c t e Hs Hf. rewrite parse_br_number_ret, Hs. rewrite Hs in Hf. by rewrite Hf.
  - intros s H1 H2. rewrite format_date_br_spec. unfold rendered_date. by rewrite H1, H2.
Qed.

Lemma C8_nothing_raises_witness :
  find (u "Pedido: 7") "Cidade:\s*([^\n]+)" = Ret []
  ∧ parse_br_number (Some (u "1,2,3")) = Ret None
  ∧ format_date_br (u " 31/02/2024 ") = Ret (strip (u " 31/02/2024 ")).
Proof.
  destruct C8_nothing_raises as (_ & _ & _ & _ & _ & _ & Hfind & Hnum & Hdate).
  split_and!.
  - refine (Hfind (u "Pedido: 7") "Cidade:\s*([^\n]+)" _ _ _);
      [vm_compute; reflexivity | vm_compute; reflexivity].
  - refine (Hnum (u "1,2,3") 49 (u ",2,3") ValueError _ _);
      [vm_compute; reflexivity | vm_compute; reflexivity].
  - refine (Hdate (u " 31/02/2024 ") _ _);
      [vm_compute; reflexivity | vm_compute; reflexivity].
Defined.

(** ** The patterns of the segmenter and of the note number *)

Section Shapes.

Import Re ReSpec.

Lemma atom_space fl c : atom_match fl SPACE c = Unicode.isspace c.
Proof.
  unfold atom_match.
  cbn [existsb item_hascased item_match item_match_ic orb andb xorb].
  rewrite andb_false_r. by rewrite orb_false_r.
Qed.

Lemma atom_digit fl c : atom_match fl DIGIT c = Unicode.isdecimal c.
Proof.
  unfold atom_match.
  cbn [existsb item_hascased item_match item_match_ic orb andb xorb].
  rewrite andb_false_r. by rewrite orb_false_r.
Qed.

Lemma atom_uncased fl p c :
  Unicode.iscased p = false → atom_match fl (ALit p) c = (c =? p).
Proof. intros H. unfold atom_match. by rewrite H, andb_false_r. Qed.

Lemma den_spaces fl lo hi g st st' :
  den fl (RRepeat SPACE lo hi g) st st' →
  ∃ ws, m_rest st = ws ++ m_rest st' ∧ spaces ws ∧ (lo ≤ length ws)%nat
        ∧ m_pos st' = (m_pos st + length ws)%nat ∧ m_marks st' = m_marks st.
Proof.
  intros (ws & Hr & Hws & Hlo & _ & Hp & Hm). exists ws. split_and!; try done.
  eapply Forall_impl; [exact Hws |]. intros c Hc. cbn beta in Hc.
  by rewrite atom_space in Hc.
Qed.

Lemma den_digits fl lo hi g st st' :
  den fl (RRepeat DIGIT lo hi g) st st' →
  ∃ ds, m_rest st = ds ++ m_rest st' ∧ digits ds ∧ (lo ≤ length ds)%nat
        ∧ match hi with Some h => (length ds ≤ h)%nat | None => True end
        ∧ m_pos st' = (m_pos st + length ds)%nat ∧ m_marks st' = m_marks st.
Proof.
  intros (ds & Hr & Hds & Hlo & Hhi & Hp & Hm). exists ds. split_and!; try done.
  eapply Forall_impl; [exact Hds |]. intros c Hc. cbn beta in Hc.
  by rewrite atom_digit in Hc.
Qed.

Lemma den_uncased fl p st st' :
  Unicode.iscased p = false → den fl (RAtom (ALit p)) st st' →
  m_rest st = p :: m_rest st' ∧ m_pos st' = S (m_pos st) ∧ m_marks st' = m_marks st.
Proof.
  intros Hp (c & Hr & Hc & Hpos & Hm). rewrite atom_uncased in Hc by done.
  apply N.eqb_eq in Hc. by subst.
Qed.

Lemma den_literal p st st' :
  den NOFLAGS (RAtom (ALit p)) st st' →
  m_rest st = p :: m_rest st' ∧ m_pos st' = S (m_pos st) ∧ m_marks st' = m_marks st.
Proof.
  intros (c & Hr & Hc & Hpos & Hm). cbn in Hc. apply N.eqb_eq in Hc. by subst.
Qed.

Lemma den_seq fl r1 r2 st st' :
  den fl (RSeq r1 r2) st st' → ∃ mid, den fl r1 st mid ∧ den fl r2 mid st'.
Proof. done. Qed.

Lemma den_group fl n r st st' :
  den fl (RGroup n r) st st' →
  ∃ st1, den fl r st st1
         ∧ st' = MState (m_pos st1) (m_rest st1)
                   ((n, (m_pos st, m_pos st1)) :: m_marks st1).
Proof. done. Qed.

(** Digits, a hyphen, digits. *)
Lemma den_token fl n st st' :
  den fl (RSeq (RRepeat DIGIT 3 (Some 5%nat) true)
            (RSeq (RAtom (ALit HYPHEN)) (RRepeat DIGIT n None true))) st st' →
  ∃ ds1 ds2, m_rest st = ds1 ++ HYPHEN :: ds2 ++ m_rest st'
    ∧ digits ds1 ∧ (3 ≤ length ds1 ≤ 5)%nat ∧ digits ds2 ∧ (n ≤ length ds2)%nat
    ∧ m_pos st' = (m_pos st + (length ds1 + 1 + length ds2))%nat
    ∧ m_marks st' = m_marks st.
Proof.
  intros H. apply den_seq in H as (st1 & H1 & H).
  apply den_seq in H as (st2 & H2 & H3).
  apply den_digits in H1 as (ds1 & Hr1 & Hd1 & Hlo1 & Hhi1 & Hp1 & Hm1).
  apply den_uncased in H2 as (Hr2 & Hp2 & Hm2); [| done].
  apply den_digits in H3 as (ds2 & Hr3 & Hd2 & Hlo2 & _ & Hp3 & Hm3).
  exists ds1, ds2. rewrite Hr1, Hr2, Hr3, Hp3, Hp2, Hp1, Hm3, Hm2, Hm1.
  split_and!; try done; lia.
Qed.

(** The start of a line: the start of the text, or a line feed. *)
Lemma den_line fl st st' :
  den fl (RAlt RBol (RAtom (ALit LF))) st st' →
  ∃ lead, m_rest st = lead ++ m_rest st' ∧ (lead = [] ∧ m_pos st = O ∨ lead = [LF])
          ∧ m_pos st' = (m_pos st + length lead)%nat ∧ m_marks st' = m_marks st.
Proof.
  intros [[-> H0] | H].
  - exists []. split_and!; try done; try lia. by left.
  - apply den_uncased in H as (Hr & Hp & Hm); [| done].
    exists [LF]. simpl. split_and!; try done; try lia. by right.
Qed.

(** What a match of the first pattern of the segmenter looks like. *)
Lemma note_rx_den fl st st' :
  den fl note_rx st st' →
  ∃ lead ws ds1 ds2,
    m_rest st = lead ++ ws ++ ds1 ++ HYPHEN :: ds2 ++ m_rest st'
    ∧ (lead = [] ∧ m_pos st = O ∨ lead = [LF])
    ∧ spaces ws ∧ digits ds1 ∧ (3 ≤ length ds1 ≤ 5)%nat
    ∧ digits ds2 ∧ (3 ≤ length ds2)%nat
    ∧ m_pos st' = (m_pos st + length lead + length ws
                   + (length ds1 + 1 + length ds2))%nat
    ∧ m_marks st' =
        (1%nat, ((m_pos st + length lead + length ws)%nat, m_pos st')) :: m_marks st.
Proof.
  unfold note_rx. fold HYPHEN. intros H.
  apply den_seq in H as (st1 & H1 & H). apply den_seq in H as (st2 & H2 & H).
  apply den_group in H as (st3 & H3 & ->).
  apply den_line in H1 as (lead & Hr1 & Hl & Hp1 & Hm1).
  apply den_spaces in H2 as (ws & Hr2 & Hws & _ & Hp2 & Hm2).
  apply (den_token fl 3) in H3 as (ds1 & ds2 & Hr3 & Hd1 & Hl1 & Hd2 & Hl2 & Hp3 & Hm3).
  exists lead, ws, ds1, ds2. cbn [m_rest m_pos m_marks].
  rewrite Hr1, Hr2, Hr3, Hp3, Hp2, Hp1, Hm3, Hm2, Hm1.
  split_and!; try done; lia.
Qed.

(** What a match of the pattern of the note number looks like. *)
Lemma numero_rx_den fl st st' :
  den fl numero_rx st st' →
  ∃ ws ds1 ds2,
    m_rest st = ws ++ ds1 ++ HYPHEN :: ds2 ++ m_rest st'
    ∧ m_pos st = O
    ∧ spaces ws ∧ digits ds1 ∧ (3 ≤ length ds1 ≤ 5)%nat
    ∧ digits ds2 ∧ (1 ≤ length ds2)%nat
    ∧ m_pos st' = (length ws + (length ds1 + 1 + length ds2))%nat
    ∧ m_marks st' = (1%nat, (length ws, m_pos st')) :: m_marks st.
Proof.
  unfold numero_rx. fold HYPHEN. intros H.
  apply den_seq in H as (st1 & [-> H0] & H). apply den_seq in H as (st2 & H2 & H).
  apply den_group in H as (st3 & H3 & ->).
  apply den_spaces in H2 as (ws & Hr2 & Hws & _ & Hp2 & Hm2).
  apply (den_token fl 1) in H3 as (ds1 & ds2 & Hr3 & Hd1 & Hl1 & Hd2 & Hl2 & Hp3 & Hm3).
  exists ws, ds1, ds2. cbn [m_rest m_pos m_marks].
  rewrite Hr2, Hr3, Hp3, Hp2, Hm3, Hm2, H0.
  split_and!; try done; lia.
Qed.

(** What a match of the second pattern of the segmenter looks like. *)
Lemma pedido_rx_den st st' :
  den NOFLAGS pedido_rx st st' →
  ∃ lead ws ws' ds,
    m_rest st = lead ++ ws ++ u "Pedido:" ++ ws' ++ ds ++ m_rest st'
    ∧ (lead = [] ∧ m_pos st = O ∨ lead = [LF])
    ∧ spaces ws ∧ spaces ws' ∧ digits ds ∧ (1 ≤ length ds)%nat
    ∧ m_pos st' = (m_pos st + length lead + length ws + 7
                   + length ws' + length ds)%nat.
Proof.
  unfold pedido_rx. intros H.
  apply den_seq in H as (st1 & H1 & H). apply den_seq in H as (st2 & H2 & H).
  apply den_seq in H as (s3 & H3 & H). apply den_seq in H as (s4 & H4 & H).
  apply den_seq in H as (s5 & H5 & H). apply den_seq in H as (s6 & H6 & H).
  apply den_seq in H as (s7 & H7 & H). apply den_seq in H as (s8 & H8 & H).
  apply den_seq in H as (s9 & H9 & H). apply den_seq in H as (s10 & H10 & H11).
  apply den_line in H1 as (lead & Hr1 & Hl & Hp1 & Hm1).
  apply den_spaces in H2 as (ws & Hr2 & Hws & _ & Hp2 & Hm2).
  apply den_literal in H3 as (Hr3 & Hp3 & _).
  apply den_literal in H4 as (Hr4 & Hp4 & _).
  apply den_literal in H5 as (Hr5 & Hp5 & _).
  apply den_literal in H6 as (Hr6 & Hp6 & _).
  apply den_literal in H7 as (Hr7 & Hp7 & _).
  apply den_literal in H8 as (Hr8 & Hp8 & _).
  apply den_literal in H9 as (Hr9 & Hp9 & _).
  apply den_spaces in H10 as (ws' & Hr10 & Hws' & _ & Hp10 & _).
  apply den_digits in H11 as (ds & Hr11 & Hds & Hlo & _ & Hp11 & _).
  exists lead, ws, ws', ds.
  rewrite Hr1, Hr2, Hr3, Hr4, Hr5, Hr6, Hr7, Hr8, Hr9, Hr10, Hr11.
  split_and!; try done. lia.
Qed.

End Shapes.

(** ** Scanning a text for matches *)

Section Scan.

Import Re ReSpec.

Variables (fl : flags) (r : regex) (text : str).

Lemma is_match_end m : is_match fl r text m → (mo_start m ≤ mo_end m ≤ length text)%nat.
Proof.
  intros (_ & Hl & st' & Hd & He & _). rewrite He.
  pose proof (den_consumes fl r _ _ Hd) as (cs & _ & Hp). simpl in Hp.
  assert (at_text text (MState (mo_start m) (drop (mo_start m) text) [])) as Ha
    by (by split).
  pose proof (den_at_text fl text r _ _ Ha Hd) as [_ Hle]. lia.
Qed.

Lemma match_at_is_match pos m :
  (pos ≤ length text)%nat →
  match_at fl r text pos (drop pos text) = Some m →
  is_match fl r text m ∧ mo_start m = pos.
Proof.
  intros Hl H. apply match_at_sound in H as (st' & Hd & ->). simpl.
  split; [| done]. split_and!; try done. by exists st'.
Qed.

Lemma scan_ok_weaken lb lb' ms :
  (lb ≤ lb')%nat → scan_ok fl r text lb' ms → scan_ok fl r text lb ms.
Proof.
  intros Hle H. destruct H as [| lb' m ms Hs Hm Hrest]; [constructor |].
  constructor; [lia | done | done].
Qed.

Lemma drop_S_tail (pos : nat) (c : char) (rest : str) :
  drop pos text = c :: rest → drop (S pos) text = rest ∧ (S pos ≤ length text)%nat.
Proof.
  intros Hd. split.
  - replace (S pos) with (pos + 1)%nat by lia. by rewrite <- drop_drop, Hd.
  - apply (f_equal length) in Hd. rewrite length_drop in Hd. simpl in Hd. lia.
Qed.

Lemma finditer_from_scan rest : ∀ pos skip,
  drop pos text = rest → (pos ≤ length text)%nat →
  scan_ok fl r text (pos + skip) (finditer_from fl r text pos rest skip).
Proof.
  induction rest as [| c rest IH]; intros pos skip Hd Hl.
  - destruct skip; simpl; [| constructor].
    destruct (match_at fl r text pos []) as [m |] eqn:E; [| constructor].
    rewrite <- Hd in E. apply match_at_is_match in E as [Hm Hs]; [| done].
    constructor; [lia | done | constructor].
  - destruct (drop_S_tail pos c rest Hd) as [Hd' Hl'].
    destruct skip; simpl.
    + destruct (match_at fl r text pos (c :: rest)) as [m |] eqn:E.
      * rewrite <- Hd in E. apply match_at_is_match in E as [Hm Hs]; [| done].
        pose proof (is_match_end m Hm) as He.
        constructor; [lia | done |].
        eapply scan_ok_weaken; [| apply IH; done]. lia.
      * eapply scan_ok_weaken; [| apply IH; done]. lia.
    + eapply scan_ok_weaken; [| apply IH; done]. lia.
Qed.

Lemma finditer_scan : scan_ok fl r text 0 (finditer fl r text).
Proof. apply (finditer_from_scan text 0 0); [done | lia]. Qed.

(** Offsets taken from the matches of a scan, each within its match and
    before its end, ascend. *)
Lemma scan_ascending (off : match_obj → nat) :
  (∀ m, is_match fl r text m → (mo_start m ≤ off m < mo_end m)%nat) →
  ∀ lb ms, scan_ok fl r text lb ms →
    ascending (length text) (map off ms) ∧ Forall (fun o => (lb ≤ o)%nat) (map off ms).
Proof.
  intros Hoff lb ms H. induction H as [| lb m ms Hs Hm Hrest [IHa IHb]]; simpl.
  - split; [done | constructor].
  - pose proof (Hoff m Hm) as Ho. pose proof (is_match_end m Hm) as He.
    split.
    + split_and!; [lia | done |].
      destruct ms as [| m' ms']; simpl; [done |].
      apply Forall_cons in IHb as [Hb _]. lia.
    + constructor; [lia |]. eapply Forall_impl; [exact IHb |]. intros o Hlb. simpl in Hlb. lia.
Qed.

(** A property of each block that holds whatever offset at or after the
    end of the match closes the block holds of all the blocks. *)
Lemma scan_blocks (off : match_obj → nat) (P : str → Prop) :
  (∀ m, is_match fl r text m → (mo_start m ≤ off m < mo_end m)%nat) →
  (∀ m end_, is_match fl r text m → (mo_end m ≤ end_ ≤ length text)%nat →
             P (strip (slice text (off m) end_))) →
  ∀ lb ms, scan_ok fl r text lb ms → Forall P (blocks_between text (map off ms)).
Proof.
  intros Hoff HP lb ms H. induction H as [| lb m ms Hs Hm Hrest IH]; simpl.
  - constructor.
  - constructor; [| done]. apply HP; [done |].
    pose proof (is_match_end m Hm) as He.
    destruct ms as [| m' ms']; simpl; [lia |].
    inversion Hrest as [| ? ? ? Hs' Hm' _]; subst.
    pose proof (Hoff m' Hm'). pose proof (is_match_end m' Hm'). lia.
Qed.

End Scan.

(** *** Slices *)

Lemma clip_of_nat (s : str) (o : nat) : (o ≤ length s)%nat → clip s (Z.of_nat o) = o.
Proof.
  intros H. unfold clip, len.
  destruct (Z.of_nat o <? 0)%Z eqn:E; [apply Z.ltb_lt in E |]; lia.
Qed.

Lemma py_slice_of_nat (s : str) (i j : nat) :
  (i ≤ length s)%nat → (j ≤ length s)%nat →
  py_slice s (Z.of_nat i) (Z.of_nat j) = slice s i j.
Proof. intros Hi Hj. unfold py_slice. by rewrite !clip_of_nat. Qed.

Lemma ascending_bound bound offs : ascending bound offs → Forall (fun o => (o ≤ bound)%nat) offs.
Proof.
  induction offs as [| o offs IH]; simpl; [constructor |].
  intros (Ho & Ha & _). constructor; auto.
Qed.

(** The loop of the segmenter cuts the blocks between its offsets. *)
Lemma blocks_of_between text offs :
  ascending (length text) offs →
  blocks_of text (map Z.of_nat offs) = blocks_between text offs.
Proof.
  unfold blocks_of.
  assert (∀ (pre : list Z) offs, ascending (length text) offs →
    imap (fun idx start =>
            let end_ := match (pre ++ map Z.of_nat offs) !! (length pre + idx + 1)%nat with
                        | Some e => e
                        | None => len text
                        end in
            strip (py_slice text start end_)) (map Z.of_nat offs)
    = blocks_between text offs) as Hgen.
  { intros pre offs'. revert pre.
    induction offs' as [| o offs' IH]; intros pre Ha; [done |].
    destruct Ha as (Ho & Ha & Hnext). cbn [map imap blocks_between]. f_equal.
    - rewrite lookup_app_r by lia.
      replace (length pre + 0 + 1 - length pre)%nat with 1%nat by lia.
      destruct offs' as [| o' offs'']; simpl.
      + unfold len. f_equal. apply py_slice_of_nat; lia.
      + destruct Ha as (Ho' & _). f_equal. apply py_slice_of_nat; lia.
    - rewrite <- (IH (pre ++ [Z.of_nat o]) Ha). apply imap_ext.
      intros idx start _. simpl. rewrite <- app_assoc. simpl.
      rewrite length_app. simpl.
      by replace (length pre + 1 + idx + 1)%nat with (length pre + S idx + 1)%nat by lia. }
  intros Ha. rewrite <- (Hgen [] offs Ha). apply imap_ext. intros idx start _. done.
Qed.

(** ** What the segmenter records *)

Lemma scan_ok_matches fl r text lb ms :
  scan_ok fl r text lb ms → Forall (is_match fl r text) ms.
Proof. induction 1; constructor; done. Qed.

Lemma digits_app (a b : str) : digits (a ++ b) ↔ digits a ∧ digits b.
Proof. apply Forall_app. Qed.

Lemma digit_head_nonspace (ds : str) (c : char) (t : str) :
  digits ds → ds = c :: t → Unicode.isspace c = false.
Proof. intros H ->. apply Forall_cons in H as [H _]. by apply decimal_not_space. Qed.

Lemma digit_last_nonspace (ds : str) (d : char) :
  digits ds → last ds = Some d → Unicode.isspace d = false.
Proof.
  intros H Hl. apply decimal_not_space.
  unfold digits in H. rewrite Forall_forall in H. apply H.
  destruct ds as [| c t _] using rev_ind; [done |].
  rewrite last_snoc in Hl. simplify_eq. apply elem_of_app. right. constructor.
Qed.

(** A piece of text with no white space at its ends survives stripping,
    whatever white space surrounds it. *)
Lemma strip_core (core tail : str) (c d : char) (t : str) :
  core = c :: t → last core = Some d →
  Unicode.isspace c = false → Unicode.isspace d = false →
  strip (core ++ tail) = core ++ rstrip tail.
Proof.
  intros -> Hl Hc Hd. simpl. rewrite strip_cons_nonspace by done. f_equal.
  destruct t as [| e t' _] using rev_ind.
  - done.
  - rewrite app_comm_cons, last_snoc in Hl. simplify_eq.
    rewrite <- !app_assoc. simpl. by apply rstrip_keeps.
Qed.

Lemma slice_drop (text : str) (i j : nat) (a rest : str) :
  drop i text = a ++ rest → (i + length a ≤ j)%nat →
  slice text i j = a ++ take (j - i - length a) rest.
Proof.
  intros Hd Hj. unfold slice. rewrite Hd, take_app.
  rewrite take_ge by lia. done.
Qed.

Lemma drop_add (text : str) (i : nat) (a rest : str) :
  drop i text = a ++ rest → drop (i + length a) text = rest.
Proof. intros H. by rewrite <- drop_drop, H, drop_app_length. Qed.

Lemma take_drop_line (text : str) (s : nat) (lead ws rest : str) :
  (s ≤ length text)%nat →
  drop s text = lead ++ ws ++ rest →
  take (s + length lead + length ws) text = (take s text ++ lead) ++ ws.
Proof.
  intros Hl Hd. rewrite <- (take_drop s text) at 1. rewrite Hd.
  rewrite take_app, length_take_le by lia.
  rewrite take_ge by (rewrite length_take; lia).
  replace (s + length lead + length ws - s)%nat with (length (lead ++ ws))
    by (rewrite length_app; lia).
  rewrite app_assoc, take_app_length. by rewrite <- !app_assoc.
Qed.

(** *** The first pattern *)

Lemma note_match_shape text m :
  is_match Re.NOFLAGS note_rx text m →
  ∃ lead ws ds1 ds2 rest,
    drop (Re.mo_start m) text = lead ++ ws ++ ds1 ++ HYPHEN :: ds2 ++ rest
    ∧ (lead = [] ∧ Re.mo_start m = O ∨ lead = [LF])
    ∧ spaces ws ∧ digits ds1 ∧ (3 ≤ length ds1 ≤ 5)%nat
    ∧ digits ds2 ∧ (3 ≤ length ds2)%nat
    ∧ group_offset m = (Re.mo_start m + length lead + length ws)%nat
    ∧ Re.mo_end m = (group_offset m + (length ds1 + 1 + length ds2))%nat
    ∧ start m 1 = Z.of_nat (group_offset m).
Proof.
  intros (Ht & Hl & st' & Hd & He & Hm).
  apply note_rx_den in Hd
    as (lead & ws & ds1 & ds2 & Hr & Hlead & Hws & Hd1 & Hl1 & Hd2 & Hl2 & Hp & Hmk).
  simpl in Hr, Hlead, Hp, Hmk.
  assert (Re.span m 1 = Some ((Re.mo_start m + length lead + length ws)%nat, Re.m_pos st'))
    as Hspan.
  { unfold Re.span. rewrite Hm, Hmk. done. }
  exists lead, ws, ds1, ds2, (Re.m_rest st').
  unfold start, group_offset. rewrite Hspan, He, Hp.
  split_and!; try done; lia.
Qed.

Lemma note_match_offset text m :
  is_match Re.NOFLAGS note_rx text m →
  (Re.mo_start m ≤ group_offset m < Re.mo_end m)%nat.
Proof.
  intros H. apply note_match_shape in H
    as (lead & ws & ds1 & ds2 & rest & _ & _ & _ & _ & _ & _ & _ & Hg & He & _). lia.
Qed.

Lemma note_match_at text m :
  is_match Re.NOFLAGS note_rx text m → note_at text (group_offset m).
Proof.
  intros H. pose proof H as (_ & Hl & _). apply note_match_shape in H
    as (lead & ws & ds1 & ds2 & rest & Hd & Hlead & Hws & Hd1 & Hl1 & Hd2 & Hl2 & Hg & He & _).
  split.
  - exists (take (Re.mo_start m) text ++ lead), ws. rewrite Hg. split_and!.
    + by apply take_drop_line with (rest := ds1 ++ HYPHEN :: ds2 ++ rest).
    + rewrite !length_app, length_take. lia.
    + done.
    + destruct Hlead as [[-> H0] | ->].
      * left. rewrite H0. done.
      * right. by rewrite last_snoc.
  - exists (ds1 ++ HYPHEN :: ds2), rest. split.
    + rewrite Hg. rewrite <- Nat.add_assoc, <- length_app.
      rewrite <- app_assoc. simpl. apply drop_add. by rewrite <- app_assoc.
    + by exists ds1, ds2.
Qed.

Lemma note_match_block text m end_ :
  is_match Re.NOFLAGS note_rx text m →
  (Re.mo_end m ≤ end_ ≤ length text)%nat →
  note_block (strip (slice text (group_offset m) end_)).
Proof.
  intros H Hend. apply note_match_shape in H
    as (lead & ws & ds1 & ds2 & rest & Hd & Hlead & Hws & Hd1 & Hl1 & Hd2 & Hl2 & Hg & He & _).
  assert (drop (group_offset m) text = (ds1 ++ HYPHEN :: ds2) ++ rest) as Hd'.
  { rewrite Hg, <- Nat.add_assoc, <- length_app. rewrite <- app_assoc. simpl.
    apply drop_add. by rewrite <- app_assoc. }
  rewrite (slice_drop _ _ _ _ _ Hd') by (rewrite length_app; simpl; lia).
  destruct ds1 as [| c t] eqn:E1; [simpl in Hl1; lia |].
  destruct (last ds2) as [d |] eqn:E2;
    [| apply last_None in E2; subst ds2; simpl in Hl2; lia].
  rewrite (strip_core _ _ c d (t ++ HYPHEN :: ds2)).
  - exists (c :: t ++ HYPHEN :: ds2), (rstrip (take (end_ - group_offset m
             - length ((c :: t) ++ HYPHEN :: ds2)) rest)).
    split; [done |]. by exists (c :: t), ds2.
  - done.
  - rewrite last_app, last_cons, E2. done.
  - eapply digit_head_nonspace; [exact Hd1 | done].
  - eapply digit_last_nonspace; [exact Hd2 | done].
Qed.

(** *** The second pattern *)

Lemma pedido_match_shape text m :
  is_match Re.NOFLAGS pedido_rx text m →
  ∃ lead ws ws' ds rest,
    drop (Re.mo_start m) text = lead ++ ws ++ u "Pedido:" ++ ws' ++ ds ++ rest
    ∧ (lead = [] ∧ Re.mo_start m = O ∨ lead = [LF])
    ∧ spaces ws ∧ spaces ws' ∧ digits ds ∧ (1 ≤ length ds)%nat
    ∧ Re.mo_end m = (Re.mo_start m + length lead + length ws + 7
                     + length ws' + length ds)%nat.
Proof.
  intros (Ht & Hl & st' & Hd & He & Hm).
  apply pedido_rx_den in Hd as (lead & ws & ws' & ds & Hr & Hlead & Hws & Hws' & Hds & Hlen & Hp).
  simpl in Hr, Hlead, Hp.
  exists lead, ws, ws', ds, (Re.m_rest st'). rewrite He, Hp. done.
Qed.

Lemma pedido_match_offset text m :
  is_match Re.NOFLAGS pedido_rx text m →
  (Re.mo_start m ≤ Re.mo_start m < Re.mo_end m)%nat.
Proof.
  intros H. apply pedido_match_shape in H
    as (lead & ws & ws' & ds & rest & _ & _ & _ & _ & _ & Hl & He). lia.
Qed.

Lemma pedido_match_at text m :
  is_match Re.NOFLAGS pedido_rx text m → pedido_at text (Re.mo_start m).
Proof.
  intros H. apply pedido_match_shape in H
    as (lead & ws & ws' & ds & rest & Hd & Hlead & Hws & Hws' & Hds & Hl & He).
  by exists lead, ws, ws', ds, rest.
Qed.

Lemma spaces_lead (lead : str) (q : nat) :
  (lead = [] ∧ q = O ∨ lead = [LF]) → spaces lead.
Proof. intros [[-> _] | ->]; repeat constructor. Qed.

Lemma pedido_match_block text m end_ :
  is_match Re.NOFLAGS pedido_rx text m →
  (Re.mo_end m ≤ end_ ≤ length text)%nat →
  pedido_block (strip (slice text (Re.mo_start m) end_)).
Proof.
  intros H Hend. apply pedido_match_shape in H
    as (lead & ws & ws' & ds & rest & Hd & Hlead & Hws & Hws' & Hds & Hl & He).
  assert (drop (Re.mo_start m) text
          = (lead ++ ws ++ u "Pedido:" ++ ws' ++ ds) ++ rest) as Hd'.
  { rewrite Hd. by rewrite <- !app_assoc. }
  rewrite (slice_drop _ _ _ _ _ Hd')
    by (rewrite !length_app; change (length (u "Pedido:")) with 7%nat; lia).
  rewrite <- !app_assoc.
  rewrite strip_leading_spaces by (by eapply spaces_lead).
  rewrite strip_leading_spaces by done.
  destruct (last ds) as [d |] eqn:E2;
    [| apply last_None in E2; subst ds; simpl in Hl; lia].
  rewrite !app_assoc. rewrite <- (app_assoc (u "Pedido:")).
  rewrite (strip_core _ _ 80 d (u "edido:" ++ ws' ++ ds)).
  - eexists. by rewrite <- !app_assoc.
  - done.
  - rewrite !last_app, E2. done.
  - done.
  - eapply digit_last_nonspace; [exact Hds | done].
Qed.

(** *** Positions and blocks *)

Lemma map_ext_matches {A B} (P : A → Prop) (f g : A → B) (l : list A) :
  Forall P l → (∀ x, P x → f x = g x) → map f l = map g l.
Proof. induction 1 as [| x l Hx _ IH]; intros H; simpl; [done |]. by rewrite H, IH. Qed.

Lemma primary_positions_offsets text :
  primary_positions text = map Z.of_nat (primary_offsets text).
Proof.
  unfold primary_positions, primary_offsets. rewrite map_map.
  eapply map_ext_matches.
  - eapply scan_ok_matches, finditer_scan.
  - intros m Hm. apply note_match_shape in Hm
      as (? & ? & ? & ? & ? & _ & _ & _ & _ & _ & _ & _ & _ & _ & Hs). exact Hs.
Qed.

Lemma fallback_positions_offsets text :
  fallback_positions text = map Z.of_nat (fallback_offsets text).
Proof. unfold fallback_positions, fallback_offsets. by rewrite map_map. Qed.

Lemma primary_offsets_ascending text : ascending (length text) (primary_offsets text).
Proof.
  eapply (scan_ascending Re.NOFLAGS note_rx text group_offset).
  - apply note_match_offset.
  - apply finditer_scan.
Qed.

Lemma fallback_offsets_ascending text : ascending (length text) (fallback_offsets text).
Proof.
  eapply (scan_ascending Re.NOFLAGS pedido_rx text Re.mo_start).
  - apply pedido_match_offset.
  - apply finditer_scan.
Qed.

Lemma primary_offsets_note_at text : Forall (note_at text) (primary_offsets text).
Proof.
  unfold primary_offsets. rewrite Forall_map.
  eapply Forall_impl; [eapply scan_ok_matches, finditer_scan |].
  intros m Hm. by apply note_match_at.
Qed.

Lemma fallback_offsets_pedido_at text : Forall (pedido_at text) (fallback_offsets text).
Proof.
  unfold fallback_offsets. rewrite Forall_map.
  eapply Forall_impl; [eapply scan_ok_matches, finditer_scan |].
  intros m Hm. by apply pedido_match_at.
Qed.

Lemma primary_blocks text :
  Forall note_block (blocks_between text (primary_offsets text)).
Proof.
  eapply (scan_blocks Re.NOFLAGS note_rx text group_offset).
  - apply note_match_offset.
  - intros m end_ Hm He. by apply note_match_block.
  - apply finditer_scan.
Qed.

Lemma fallback_blocks text :
  Forall pedido_block (blocks_between text (fallback_offsets text)).
Proof.
  eapply (scan_blocks Re.NOFLAGS pedido_rx text Re.mo_start).
  - apply pedido_match_offset.
  - intros m end_ Hm He. by apply pedido_match_block.
  - apply finditer_scan.
Qed.

(** The segmenter, in terms of offsets. *)
Lemma split_notes_blocks_offsets text :
  split_notes_blocks text =
    Ret (blocks_between text
           (match primary_offsets text with
            | [] => fallback_offsets text
            | offsets => offsets
            end)).
Proof.
  rewrite split_notes_blocks_ret, primary_positions_offsets, fallback_positions_offsets.
  f_equal.
  destruct (primary_offsets text) as [| o offs] eqn:E.
  - simpl. apply blocks_of_between, fallback_offsets_ascending.
  - rewrite <- E. destruct (map Z.of_nat (primary_offsets text)) eqn:E'.
    + rewrite E in E'. done.
    + rewrite <- E'. apply blocks_of_between, primary_offsets_ascending.
Qed.

(** ** The note number of a block *)

Section Greedy.

Import Re ReSpec.

Variable fl : flags.

(** A greedy repetition without upper bound, followed by something that
    cannot fail, succeeds when no minimum is asked for ... *)
Lemma repeat_greedy_total a rest : ∀ pos k,
  (∀ p s, is_Some (k p s)) → is_Some (repeat_greedy fl a 0 None pos rest k).
Proof.
  induction rest as [| c rest IH]; intros pos k Hk; simpl; [apply Hk |].
  destruct (atom_match fl a c); simpl; [| apply Hk].
  destruct (IH (S pos) k Hk) as [res ->]. by eexists.
Qed.

(** ... and takes every character it can. *)
Lemma repeat_greedy_longest a rest : ∀ lo pos k res,
  (∀ p s, is_Some (k p s)) →
  repeat_greedy fl a lo None pos rest k = Some res →
  ∃ cs rest', rest = cs ++ rest'
    ∧ Forall (fun c => atom_match fl a c = true) cs
    ∧ (lo ≤ length cs)%nat
    ∧ (rest' = [] ∨ ∃ c t, rest' = c :: t ∧ atom_match fl a c = false)
    ∧ k (pos + length cs)%nat rest' = Some res.
Proof.
  induction rest as [| c rest IH]; intros lo pos k res Hk H; simpl in H.
  - destruct lo; [| done]. exists [], []. simpl. rewrite Nat.add_0_r.
    split_and!; try done; try lia. by left.
  - destruct (atom_match fl a c) eqn:Ec; simpl in H.
    + destruct (repeat_greedy fl a (Nat.pred lo) None (S pos) rest k) as [res' |] eqn:R.
      * simplify_eq. apply IH in R as (cs & rest' & -> & Hcs & Hlo & Hend & Hres); [| done].
        exists (c :: cs), rest'. simpl. rewrite <- Nat.add_succ_comm.
        split_and!; try done; try lia. by constructor.
      * destruct lo; [| done]. simpl in R.
        destruct (repeat_greedy_total a rest (S pos) k Hk) as [x Hx]. congruence.
    + destruct lo; [| done]. exists [], (c :: rest). simpl. rewrite Nat.add_0_r.
      split_and!; try done; try lia. right; eauto.
Qed.

End Greedy.

(** What the matcher finds with the pattern of the note number: white
    space, three to five digits, a hyphen, and every digit that follows. *)
Lemma numero_match fl rest pos st' :
  Re.run fl numero_rx (Re.MState pos rest []) Some = Some st' →
  ∃ ws ds1 ds2 tail,
    pos = O ∧ rest = ws ++ ds1 ++ HYPHEN :: ds2 ++ tail
    ∧ spaces ws ∧ digits ds1 ∧ (3 ≤ length ds1 ≤ 5)%nat
    ∧ digits ds2 ∧ (1 ≤ length ds2)%nat
    ∧ (tail = [] ∨ ∃ c t, tail = c :: t ∧ Unicode.isdecimal c = false)
    ∧ st' = Re.MState (length ws + (length ds1 + 1 + length ds2)) tail
              [(1%nat, (length ws, (length ws + (length ds1 + 1 + length ds2))%nat))].
Proof.
  unfold numero_rx. cbn [Re.run Re.m_pos Re.m_rest Re.m_marks]. intros H.
  destruct (pos =? 0)%nat eqn:E0; [| done]. apply Nat.eqb_eq in E0. subst pos.
  apply repeat_greedy_sound in H as (ws & r1 & -> & Hws & _ & _ & H).
  cbn beta in H. cbn [Re.run Re.m_pos Re.m_rest Re.m_marks] in H.
  apply repeat_greedy_sound in H as (ds1 & r2 & -> & Hd1 & Hlo1 & Hhi1 & H).
  cbn beta in H. cbn [Re.run Re.m_pos Re.m_rest Re.m_marks] in H.
  destruct r2 as [| h r3]; [done |].
  destruct (Re.atom_match fl (Re.ALit 45) h) eqn:Eh; [| done].
  rewrite atom_uncased in Eh by done. apply N.eqb_eq in Eh. subst h.
  cbn [Re.run Re.m_pos Re.m_rest Re.m_marks] in H.
  apply repeat_greedy_longest in H as (ds2 & tail & -> & Hd2 & Hlo2 & Hend & H);
    [| by eexists].
  cbn beta in H. cbn [Re.m_pos Re.m_rest Re.m_marks] in H. simplify_eq.
  assert (spaces ws) as Hws'.
  { eapply Forall_impl; [exact Hws |]. intros c Hc. cbn beta in Hc.
    by rewrite atom_space in Hc. }
  assert (digits ds1) as Hd1'.
  { eapply Forall_impl; [exact Hd1 |]. intros c Hc. cbn beta in Hc.
    by rewrite atom_digit in Hc. }
  assert (digits ds2) as Hd2'.
  { eapply Forall_impl; [exact Hd2 |]. intros c Hc. cbn beta in Hc.
    by rewrite atom_digit in Hc. }
  assert (tail = [] ∨ ∃ c t, tail = c :: t ∧ Unicode.isdecimal c = false) as Hend'.
  { destruct Hend as [-> | (c & t & -> & Hc)]; [by left | right].
    exists c, t. split; [done |]. by rewrite atom_digit in Hc. }
  exists ws, ds1, ds2, tail. split_and!; try done; try lia.
  f_equal; [lia |]. do 3 f_equal; lia.
Qed.

Lemma take_exact (a b : str) : take (length a) (a ++ b) = a.
Proof. by rewrite take_app_length. Qed.

(** What [find] returns for the pattern of the note number. *)
Lemma find_numero (b : str) :
  ∃ s, find b "^\s*(\d{3,5}-\d+)" = Ret s
    ∧ (s = [] ∨
       ∃ ws ds1 ds2 tail,
         b = ws ++ ds1 ++ HYPHEN :: ds2 ++ tail ∧ s = ds1 ++ HYPHEN :: ds2
         ∧ spaces ws ∧ digits ds1 ∧ (3 ≤ length ds1 ≤ 5)%nat
         ∧ digits ds2 ∧ (1 ≤ length ds2)%nat
         ∧ (tail = [] ∨ ∃ c t, tail = c :: t ∧ Unicode.isdecimal c = false)).
Proof.
  destruct (find_ret b "^\s*(\d{3,5}-\d+)") as (r & Hc & ->); [by vm_compute |].
  rewrite compile_numero_rx in Hc. injection Hc as <-.
  eexists. split; [done |].
  destruct (Re.search Re.IGNORECASE numero_rx b) as [m |] eqn:E; [| by left].
  right. unfold Re.search in E.
  apply search_from_sound in E as (pos & Hp & Hm); [| done | lia].
  unfold Re.match_at in Hm.
  destruct (Re.run Re.IGNORECASE numero_rx (Re.MState pos (drop pos b) []) Some)
    as [st |] eqn:Er; [| done].
  simpl in Hm. injection Hm as <-.
  apply numero_match in Er
    as (ws & ds1 & ds2 & tail & -> & Hb & Hws & Hd1 & Hl1 & Hd2 & Hl2 & Hend & ->).
  rewrite drop_0 in Hb. exists ws, ds1, ds2, tail. split_and!; try done; try lia.
  unfold Re.group, Re.span.
  cbn [Re.mo_marks Re.m_marks Re.m_pos Re.lookup_mark Re.mo_string Nat.eqb].
  cbn [mbind option_bind default].
  assert (slice b (length ws) (length ws + (length ds1 + 1 + length ds2))
          = ds1 ++ HYPHEN :: ds2) as ->.
  { unfold slice. rewrite Hb, drop_app_length.
    replace (length ws + (length ds1 + 1 + length ds2) - length ws)%nat
      with (length (ds1 ++ HYPHEN :: ds2)) by (rewrite length_app; simpl; lia).
    replace (ds1 ++ HYPHEN :: ds2 ++ tail) with ((ds1 ++ HYPHEN :: ds2) ++ tail)
      by (by rewrite <- app_assoc).
    apply take_exact. }
  destruct ds1 as [| c t] eqn:E1; [simpl in Hl1; lia |].
  destruct (last ds2) as [d |] eqn:E2;
    [| apply last_None in E2; subst ds2; simpl in Hl2; lia].
  apply (strip_id _ c d (t ++ HYPHEN :: ds2)).
  - done.
  - change (last ((c :: t) ++ HYPHEN :: ds2) = Some d).
    rewrite last_app, last_cons, E2. done.
  - eapply digit_head_nonspace; [exact Hd1 | done].
  - eapply digit_last_nonspace; [exact Hd2 | done].
Qed.

(** The record of a block holds what [find] returned as its note number. *)
Lemma record_numero block header record :
  parse_block block header = Ret record →
  ∃ s, find block "^\s*(\d{3,5}-\d+)" = Ret s
       ∧ record !! "numero_nota" = Some (PStr s).
Proof.
  intros H.
  destruct (parse_block_ret block header)
    as (s & ? & ? & ? & ? & ? & ? & ? & ? & ? & Hf & Hp).
  rewrite H in Hp. apply Ret_inj in Hp. subst record.
  exists s. split; [done |]. lookup_record. done.
Qed.

(** *** Digit runs *)


Lemma digit_run_longest (a b r r' : str) :
  a ++ r = b ++ r' → digits a → digits b →
  (r' = [] ∨ ∃ c t, r' = c :: t ∧ Unicode.isdecimal c = false) →
  (length a ≤ length b)%nat.
Proof.
  revert b. induction a as [| c a IH]; intros b H Ha Hb Hend; simpl; [lia |].
  apply Forall_cons in Ha as [Hc Ha].
  destruct b as [| d b]; simpl in H.
  - destruct Hend as [-> | (e & t & -> & He)]; [done |]. simplify_eq. congruence.
  - injection H as -> H. apply Forall_cons in Hb as [_ Hb]. simpl.
    pose proof (IH b H Ha Hb Hend). lia.
Qed.

Lemma isdecimal_hyphen : Unicode.isdecimal HYPHEN = false.
Proof. reflexivity. Qed.

(** *** The three kinds of block *)


Lemma numero_of_pedido_block (b : str) :
  pedido_block b → find b "^\s*(\d{3,5}-\d+)" = Ret [].
Proof.
  intros [tail0 ->]. destruct (find_numero (u "Pedido:" ++ tail0)) as (s & -> & Hs).
  f_equal.
  destruct Hs as [-> | (ws & ds1 & ds2 & tail & Hb & -> & Hws & Hd1 & Hl1 & _)]; [done |].
  exfalso. destruct ws as [| w ws].
  - destruct ds1 as [| c t]; [simpl in Hl1; lia |]. simpl in Hb. simplify_eq.
    apply Forall_cons in Hd1 as [Hc _]. done.
  - simpl in Hb. simplify_eq. apply Forall_cons in Hws as [Hw _]. done.
Qed.


(** ** Note numbers in the records of a document *)

Lemma records_numero (P : str → Prop) (Q : str → Prop) header blocks records :
  Forall P blocks →
  (∀ b, P b → ∃ s, find b "^\s*(\d{3,5}-\d+)" = Ret s ∧ Q s) →
  Forall2 (fun block record => parse_block block header = Ret record) blocks records →
  Forall (fun r : dict => ∃ s, r !! "numero_nota" = Some (PStr s) ∧ Q s) records.
Proof.
  intros HP HQ HF. induction HF as [| b rec bs recs Hp _ IH]; [constructor |].
  apply Forall_cons in HP as [Hb HP]. constructor; [| by apply IH].
  destruct (record_numero _ _ _ Hp) as (s & Hf & Hs).
  destruct (HQ b Hb) as (s' & Hf' & Hq). rewrite Hf in Hf'. apply Ret_inj in Hf'.
  subst s'. by exists s.
Qed.

Lemma primary_positions_nil text : primary_positions text = [] ↔ primary_offsets text = [].
Proof.
  rewrite primary_positions_offsets. split; [| by intros ->].
  by destruct (primary_offsets text).
Qed.

(** C9: when the first pattern of the segmenter records nothing, no
    record of the document has a note number. *)
Theorem C9_fallback_without_note_number (text : str) :
  primary_positions text = [] →
  ∃ records, parse_text_to_records text = Ret records
    ∧ Forall (fun r : dict => r !! "numero_nota" = Some (PStr [])) records.
Proof.
  intros Hnone. apply primary_positions_nil in Hnone.
  destruct (pipeline_ret text) as (header & blocks & records & _ & Hb & Hr & HF & _).
  exists records. split; [done |].
  rewrite split_notes_blocks_offsets, Hnone in Hb. apply Ret_inj in Hb. subst blocks.
  pose proof (records_numero pedido_block (fun s => s = []) header _ records
                (fallback_blocks text)) as H.
  eapply Forall_impl; [apply H; [| exact HF] |].
  - intros b Hp. exists []. split; [by apply numero_of_pedido_block | done].
  - intros r (s & Hs & ->). done.
Qed.

Lemma C9_fallback_without_note_number_witness :
  primary_positions (u "Pedido: 1 Pedido: 2") = []
  ∧ ∃ records, parse_text_to_records (u "Pedido: 1 Pedido: 2") = Ret records
      ∧ Forall (fun r : dict => r !! "numero_nota" = Some (PStr [])) records.
Proof.
  assert (primary_positions (u "Pedido: 1 Pedido: 2") = []) as H
    by (vm_compute; reflexivity).
  split; [exact H |]. exact (C9_fallback_without_note_number _ H).
Defined.



(** ** Every occurrence is recorded *)

Section Forward.

Import Re ReSpec.

Variable fl : flags.

(** A greedy repetition takes the whole run in front of it when what
    follows then succeeds. *)
Lemma repeat_greedy_take a cs : ∀ rest' lo hi pos k res,
  Forall (fun c => atom_match fl a c = true) cs →
  (lo ≤ length cs)%nat →
  match hi with Some h => (length cs ≤ h)%nat | None => True end →
  (stops (atom_match fl a) rest' ∨ hi = Some (length cs)) →
  k (pos + length cs)%nat rest' = Some res →
  repeat_greedy fl a lo hi pos (cs ++ rest') k = Some res.
Proof.
  induction cs as [| c cs IH]; intros rest' lo hi pos k res Hcs Hlo Hhi Hstop Hk.
  - simpl in *. rewrite Nat.add_0_r in Hk. assert (lo = O) as -> by lia.
    destruct rest' as [| d t]; simpl; [done |].
    destruct Hstop as [[? | (d' & t' & Heq & Hd)] | ->]; [done | |].
    + simplify_eq. by rewrite Hd.
    + simpl. by rewrite andb_false_r.
  - apply Forall_cons in Hcs as [Hc Hcs]. simpl in *. rewrite Hc.
    assert (exhausted hi = false) as ->.
    { destruct hi as [[| h] |]; simpl in *; try done. lia. }
    simpl. rewrite (IH rest' (Nat.pred lo) (Nat.pred <$> hi) (S pos) k res); try done.
    + lia.
    + destruct hi as [h |]; simpl in *; [lia | done].
    + destruct Hstop as [? | ->]; [by left | right]. done.
    + by rewrite Nat.add_succ_comm.
Qed.

Lemma spaces_match ws : spaces ws → Forall (fun c => atom_match fl SPACE c = true) ws.
Proof.
  intros H. eapply Forall_impl; [exact H |]. intros c Hc. cbn beta.
  by rewrite atom_space.
Qed.

Lemma digits_match ds : digits ds → Forall (fun c => atom_match fl DIGIT c = true) ds.
Proof.
  intros H. eapply Forall_impl; [exact H |]. intros c Hc. cbn beta.
  by rewrite atom_digit.
Qed.

(** White space and a note number with all its digits in front of the
    matcher: the tail of the first pattern matches them. *)
Lemma note_tail_forward pos sp ds1 ds2 tail marks :
  spaces sp → digits ds1 → (3 ≤ length ds1 ≤ 5)%nat →
  digits ds2 → (3 ≤ length ds2)%nat → stops Unicode.isdecimal tail →
  run fl note_tail
    (MState pos (sp ++ ds1 ++ HYPHEN :: ds2 ++ tail) marks) Some
  = Some (MState (pos + length sp + (length ds1 + 1 + length ds2)) tail
            ((1%nat, ((pos + length sp)%nat,
                      (pos + length sp + (length ds1 + 1 + length ds2))%nat)) :: marks)).
Proof.
  intros Hsp Hd1 Hl1 Hd2 Hl2 Hstop.
  destruct ds1 as [| c1 t1] eqn:E1; [simpl in Hl1; lia |]. rewrite <- E1 in *.
  unfold note_tail. cbn [run m_pos m_rest m_marks].
  apply repeat_greedy_take; [by apply spaces_match | lia | done | |].
  { left. right. exists c1, (t1 ++ HYPHEN :: ds2 ++ tail). rewrite E1. split; [done |].
    rewrite atom_space. apply decimal_not_space.
    rewrite E1 in Hd1. by apply Forall_cons in Hd1 as [? _]. }
  cbn [run m_pos m_rest m_marks].
  apply repeat_greedy_take; [by apply digits_match | lia | simpl; lia | |].
  { left. right. exists HYPHEN, (ds2 ++ tail). split; [done |]. by rewrite atom_digit. }
  cbn [run m_pos m_rest m_marks].
  rewrite atom_uncased by done. rewrite N.eqb_refl.
  apply repeat_greedy_take; [by apply digits_match | lia | done | |].
  { left. destruct Hstop as [-> | (c & t & -> & Hc)]; [by left | right].
    exists c, t. split; [done |]. by rewrite atom_digit. }
  f_equal. f_equal; [lia |]. do 3 f_equal; lia.
Qed.

End Forward.

Lemma spaces_LF : Unicode.isspace LF = true.
Proof. reflexivity. Qed.

Lemma note_rx_run st :
  Re.run Re.NOFLAGS note_rx st Some =
    match (if (Re.m_pos st =? 0)%nat then Re.run Re.NOFLAGS note_tail st Some else None) with
    | Some res => Some res
    | None =>
        match Re.m_rest st with
        | c :: rest' =>
            if c =? LF
            then Re.run Re.NOFLAGS note_tail
                   (Re.MState (S (Re.m_pos st)) rest' (Re.m_marks st)) Some
            else None
        | [] => None
        end
    end.
Proof. reflexivity. Qed.

(** Where a line starts with a note number, the first pattern matches,
    and its group starts at the number. *)
Lemma note_match_forward text s lead ws ds1 ds2 tail :
  drop s text = lead ++ ws ++ ds1 ++ HYPHEN :: ds2 ++ tail →
  (lead = [] ∧ s = O ∨ lead = [LF]) →
  spaces ws → digits ds1 → (3 ≤ length ds1 ≤ 5)%nat →
  digits ds2 → (3 ≤ length ds2)%nat → stops Unicode.isdecimal tail →
  ∃ m, Re.match_at Re.NOFLAGS note_rx text s (drop s text) = Some m
       ∧ group_offset m = (s + length lead + length ws)%nat.
Proof.
  intros Hd Hlead Hws Hd1 Hl1 Hd2 Hl2 Hstop.
  unfold Re.match_at. rewrite Hd, note_rx_run. cbn [Re.m_pos Re.m_rest Re.m_marks].
  destruct s as [| s'].
  - (* at the start of the text the white space takes the line feed too *)
    cbn [Nat.eqb]. rewrite app_assoc.
    rewrite (note_tail_forward Re.NOFLAGS 0 (lead ++ ws) ds1 ds2 tail []); try done.
    + eexists. cbn [mbind option_bind]. split; [done |].
      unfold group_offset, Re.span. simpl. rewrite length_app. lia.
    + apply Forall_app. split; [| done].
      destruct Hlead as [[-> _] | ->]; repeat constructor.
  - destruct Hlead as [[_ ?] | ->]; [done |].
    cbn [Nat.eqb app]. rewrite N.eqb_refl.
    rewrite (note_tail_forward Re.NOFLAGS (S (S s')) ws ds1 ds2 tail []); try done.
    eexists. cbn [mbind option_bind]. split; [done |].
    unfold group_offset, Re.span. simpl. lia.
Qed.

Lemma run_unique (f : char → bool) (a b : str) (x y : char) (r r' : str) :
  a ++ x :: r = b ++ y :: r' →
  Forall (fun c => f c = true) a → Forall (fun c => f c = true) b →
  f x = false → f y = false → a = b ∧ r = r'.
Proof.
  revert b. induction a as [| c a IH]; intros b H Ha Hb Hx Hy.
  - destruct b as [| d b]; simpl in H.
    + by simplify_eq.
    + simplify_eq. apply Forall_cons in Hb as [Hd _]. congruence.
  - destruct b as [| d b]; simpl in H.
    + simplify_eq. apply Forall_cons in Ha as [Hc _]. congruence.
    + simplify_eq. apply Forall_cons in Ha as [_ Ha]. apply Forall_cons in Hb as [_ Hb].
      destruct (IH b) as [-> ->]; done.
Qed.

Lemma stops_split (f : char → bool) (l : str) :
  ∃ a b, l = a ++ b ∧ Forall (fun c => f c = true) a ∧ stops f b.
Proof.
  induction l as [| c l (a & b & -> & Ha & Hb)].
  - exists [], []. split_and!; [done | constructor | by left].
  - destruct (f c) eqn:E.
    + exists (c :: a), b. split_and!; [done | by constructor | done].
    + exists [], (c :: a ++ b). split_and!; [done | constructor |]. right. eauto.
Qed.

Section Complete.

Variables (text : str) (s : nat) (lead ws ds1 ds2 tail : str).

Hypothesis Hocc : drop s text = lead ++ ws ++ ds1 ++ HYPHEN :: ds2 ++ tail.
Hypothesis Hlead : lead = [] ∧ s = O ∨ lead = [LF].
Hypothesis Hws : spaces ws.
Hypothesis Hd1 : digits ds1.
Hypothesis Hl1 : (3 ≤ length ds1 ≤ 5)%nat.
Hypothesis Hd2 : digits ds2.
Hypothesis Hl2 : (3 ≤ length ds2)%nat.
Hypothesis Hstop : stops Unicode.isdecimal tail.
Hypothesis Hs : (s ≤ length text)%nat.

(** A match that starts before the line and ends after its start has
    the line in its leading white space, and the same number. *)
Lemma note_match_covers m :
  is_match Re.NOFLAGS note_rx text m →
  (Re.mo_start m < s < Re.mo_end m)%nat →
  group_offset m = (s + length lead + length ws)%nat.
Proof.
  intros Hm Hin. apply note_match_shape in Hm
    as (lead' & ws' & e1 & e2 & rest & Hd & Hlead' & Hws' & He1 & Hm1 & He2 & Hm2
        & Hg & He & _).
  destruct Hlead as [[_ ?] | ->]; [lia |].
  set (pos := Re.mo_start m) in *. set (j := (s - pos)%nat).
  assert (drop s text = drop j (drop pos text)) as Hds.
  { rewrite drop_drop. f_equal. lia. }
  assert (length lead' ≤ 1)%nat as Hll by (destruct Hlead' as [[-> _] | ->]; simpl; lia).
  destruct e1 as [| c1 t1] eqn:E1; [simpl in Hm1; lia |]. rewrite <- E1 in *.
  destruct ds1 as [| d1 u1] eqn:F1; [simpl in Hl1; lia |].
  destruct (decide (j < length lead' + length ws')%nat) as [Hj | Hj].
  - (* the line feed lies in the white space of the match *)
    rewrite Hd in Hds. rewrite drop_app_ge in Hds by lia.
    rewrite drop_app_le in Hds by lia.
    rewrite Hocc in Hds. rewrite E1 in Hds.
    change ([LF] ++ ws ++ (d1 :: u1) ++ HYPHEN :: ds2 ++ tail)
      with ((LF :: ws) ++ d1 :: (u1 ++ HYPHEN :: ds2 ++ tail)) in Hds.
    change ((c1 :: t1) ++ HYPHEN :: e2 ++ rest)
      with (c1 :: (t1 ++ HYPHEN :: e2 ++ rest)) in Hds.
    apply (run_unique Unicode.isspace) in Hds as [Heq _].
    + apply (f_equal length) in Heq. rewrite length_drop in Heq. simpl in Heq.
      simpl. lia.
    + by constructor.
    + by apply Forall_drop.
    + apply decimal_not_space. by apply Forall_cons in Hd1 as [? _].
    + apply decimal_not_space. rewrite E1 in He1. by apply Forall_cons in He1 as [? _].
  - (* the line feed would lie in the number itself *)
    exfalso. rewrite Hd in Hds.
    rewrite app_assoc in Hds. rewrite drop_app_ge in Hds by (rewrite length_app; lia).
    rewrite length_app in Hds.
    replace (e1 ++ HYPHEN :: e2 ++ rest) with ((e1 ++ HYPHEN :: e2) ++ rest) in Hds
      by (by rewrite <- app_assoc).
    rewrite drop_app_le in Hds by (rewrite length_app; simpl; lia).
    rewrite Hocc in Hds. simpl in Hds.
    assert (Forall (fun c => Unicode.isdecimal c = true ∨ c = HYPHEN)
              (e1 ++ HYPHEN :: e2)) as HQ.
    { apply Forall_app. split; [eapply Forall_impl; [exact He1 |]; by left |].
      constructor; [by right |]. eapply Forall_impl; [exact He2 |]. by left. }
    apply (Forall_drop _ (j - (length lead' + length ws'))) in HQ.
    destruct (drop (j - (length lead' + length ws')) (e1 ++ HYPHEN :: e2))
      as [| x xs] eqn:Edrop.
    + apply (f_equal length) in Edrop. rewrite length_drop, length_app in Edrop.
      simpl in Edrop. lia.
    + simpl in Hds. injection Hds as <- _. apply Forall_cons in HQ as [[? | ?] _]; done.
Qed.

Lemma finditer_from_complete rest : ∀ pos skip,
  drop pos text = rest → (pos ≤ length text)%nat → (pos + skip ≤ s)%nat →
  (s + length lead + length ws)%nat
    ∈ map group_offset (Re.finditer_from Re.NOFLAGS note_rx text pos rest skip).
Proof.
  destruct (note_match_forward text s lead ws ds1 ds2 tail) as (m0 & Hm0 & Hg0); try done.
  induction rest as [| c rest IH]; intros pos skip Hd Hl Hle.
  - assert (pos = length text) as ->.
    { apply (f_equal length) in Hd. rewrite length_drop in Hd. simpl in Hd. lia. }
    assert (s = length text) as Hs' by lia. assert (skip = O) as -> by lia.
    simpl. rewrite <- Hd, <- Hs', Hm0. simpl. rewrite Hg0. constructor.
  - destruct (drop_S_tail text pos c rest Hd) as [Hd' Hl'].
    destruct skip as [| skip]; simpl.
    + destruct (decide (s = pos)) as [-> | Hne].
      * rewrite <- Hd, Hm0. simpl. rewrite Hg0. constructor.
      * destruct (Re.match_at Re.NOFLAGS note_rx text pos (c :: rest)) as [m |] eqn:E.
        -- rewrite <- Hd in E.
           apply (match_at_is_match Re.NOFLAGS note_rx text) in E as [Hm Hstart]; [| done].
           simpl. destruct (decide (s < Re.mo_end m)%nat) as [Hlt | Hge].
           ++ rewrite (note_match_covers m Hm) by lia. constructor.
           ++ apply list_elem_of_further. apply IH; [done | done | lia].
        -- apply IH; [done | done | lia].
    + apply IH; [done | done | lia].
Qed.

Lemma finditer_complete :
  (s + length lead + length ws)%nat ∈ primary_offsets text.
Proof.
  unfold primary_offsets, Re.finditer.
  apply finditer_from_complete; [done | lia | lia].
Qed.

End Complete.

(** Every note number at the start of a line is recorded. *)
Lemma primary_offsets_complete text p : note_at text p → p ∈ primary_offsets text.
Proof.
  intros [(before & ws & Ht & Hlen & Hws & Hbefore) (id & rest & Hd & ds1 & ds2 & -> & Hd1 & Hl1 & Hd2 & Hl2)].
  destruct (stops_split Unicode.isdecimal (ds2 ++ rest)) as (ds2' & tail & Heq & Hd2' & Hstop).
  assert (3 ≤ length ds2')%nat as Hl2'.
  { assert (stops Unicode.isdecimal tail) as H by done. destruct H as [-> | H].
    - pose proof (digit_run_longest ds2 ds2' rest [] Heq Hd2 Hd2'). 
      assert (length ds2 ≤ length ds2')%nat by (apply H; by left). lia.
    - pose proof (digit_run_longest ds2 ds2' rest tail Heq Hd2 Hd2').
      assert (length ds2 ≤ length ds2')%nat by (apply H0; by right). lia. }
  assert (p ≤ length text)%nat as Hp.
  { apply (f_equal length) in Ht. rewrite length_take in Ht. lia. }
  assert (text = before ++ ws ++ ds1 ++ HYPHEN :: ds2' ++ tail) as Htext.
  { rewrite <- (take_drop p text), Ht, Hd, <- !app_assoc. simpl. by rewrite Heq. }
  rewrite length_app in Hlen.
  destruct Hbefore as [-> | Hlast].
  - replace p with (0 + length (@nil char) + length ws)%nat by (simpl in *; lia).
    apply (finditer_complete text 0 [] ws ds1 ds2' tail); try done; [by left | lia].
  - destruct before as [| x before' _] using rev_ind; [done |].
    rewrite last_snoc in Hlast. injection Hlast as ->.
    rewrite length_app in Hlen. simpl in Hlen.
    replace p with (length before' + length [LF] + length ws)%nat by (simpl; lia).
    apply (finditer_complete _ (length before') [LF] ws ds1 ds2' tail); try done;
      try lia; try (by right).
    rewrite Htext at 1. rewrite <- !app_assoc. by rewrite drop_app_length.
Qed.

(** *** Every [Pedido:] line is recorded *)

Lemma run_seq_repeat fl a lo hi r st k :
  Re.run fl (Re.RSeq (Re.RRepeat a lo hi true) r) st k
  = Re.repeat_greedy fl a lo hi (Re.m_pos st) (Re.m_rest st)
      (fun p rest => Re.run fl r (Re.MState p rest (Re.m_marks st)) k).
Proof. reflexivity. Qed.

Lemma run_repeat fl a lo hi st k :
  Re.run fl (Re.RRepeat a lo hi true) st k
  = Re.repeat_greedy fl a lo hi (Re.m_pos st) (Re.m_rest st)
      (fun p rest => k (Re.MState p rest (Re.m_marks st))).
Proof. reflexivity. Qed.

Lemma run_literal p r pos rest marks k :
  Re.run Re.NOFLAGS (Re.RSeq (Re.RAtom (Re.ALit p)) r) (Re.MState pos (p :: rest) marks) k
  = Re.run Re.NOFLAGS r (Re.MState (S pos) rest marks) k.
Proof.
  cbn [Re.run Re.m_rest Re.m_pos Re.m_marks Re.atom_match Re.ignorecase Re.NOFLAGS andb].
  by rewrite N.eqb_refl.
Qed.

Lemma pedido_tail_forward pos sp ws' ds tail marks :
  spaces sp → spaces ws' → digits ds → (1 ≤ length ds)%nat →
  stops Unicode.isdecimal tail →
  Re.run Re.NOFLAGS pedido_tail
    (Re.MState pos (sp ++ u "Pedido:" ++ ws' ++ ds ++ tail) marks) Some
  = Some (Re.MState (pos + length sp + 7 + length ws' + length ds) tail marks).
Proof.
  intros Hsp Hws' Hds Hl Hstop.
  destruct ds as [| d1 t1] eqn:E1; [simpl in Hl; lia |]. rewrite <- E1 in *.
  unfold pedido_tail. rewrite run_seq_repeat. cbn [Re.m_pos Re.m_rest Re.m_marks].
  apply repeat_greedy_take; [by apply spaces_match | lia | done | |].
  { left. right. exists 80, (u "edido:" ++ ws' ++ ds ++ tail). split; [done |].
    by rewrite atom_space. }
  change (u "Pedido:" ++ ws' ++ ds ++ tail)
    with (80 :: 101 :: 100 :: 105 :: 100 :: 111 :: 58 :: ws' ++ ds ++ tail).
  rewrite !run_literal.
  rewrite run_seq_repeat. cbn [Re.m_pos Re.m_rest Re.m_marks].
  apply repeat_greedy_take; [by apply spaces_match | lia | done | |].
  { left. right. exists d1, (t1 ++ tail). rewrite E1. split; [done |].
    rewrite atom_space. apply decimal_not_space.
    rewrite E1 in Hds. by apply Forall_cons in Hds as [? _]. }
  rewrite run_repeat. cbn [Re.m_pos Re.m_rest Re.m_marks].
  apply repeat_greedy_take; [by apply digits_match | lia | done | |].
  { left. destruct Hstop as [-> | (c & t & -> & Hc)]; [by left | right].
    exists c, t. split; [done |]. by rewrite atom_digit. }
  f_equal. f_equal. lia.
Qed.

Lemma pedido_rx_run st :
  Re.run Re.NOFLAGS pedido_rx st Some =
    match (if (Re.m_pos st =? 0)%nat then Re.run Re.NOFLAGS pedido_tail st Some else None) with
    | Some res => Some res
    | None =>
        match Re.m_rest st with
        | c :: rest' =>
            if c =? LF
            then Re.run Re.NOFLAGS pedido_tail
                   (Re.MState (S (Re.m_pos st)) rest' (Re.m_marks st)) Some
            else None
        | [] => None
        end
    end.
Proof. reflexivity. Qed.

(** Where a line reads [Pedido:] and digits, the second pattern matches
    from the start of the text or the line feed before it. *)
Lemma pedido_match_forward text s lead ws ws' ds tail :
  drop s text = lead ++ ws ++ u "Pedido:" ++ ws' ++ ds ++ tail →
  (lead = [] ∧ s = O ∨ lead = [LF]) →
  spaces ws → spaces ws' → digits ds → (1 ≤ length ds)%nat →
  stops Unicode.isdecimal tail →
  ∃ m, Re.match_at Re.NOFLAGS pedido_rx text s (drop s text) = Some m.
Proof.
  intros Hd Hlead Hws Hws' Hds Hl Hstop.
  unfold Re.match_at. rewrite Hd, pedido_rx_run. cbn [Re.m_pos Re.m_rest Re.m_marks].
  destruct s as [| s'].
  - cbn [Nat.eqb]. rewrite app_assoc.
    rewrite (pedido_tail_forward 0 (lead ++ ws) ws' ds tail []); try done.
    + by eexists.
    + apply Forall_app. split; [| done].
      destruct Hlead as [[-> _] | ->]; repeat constructor.
  - destruct Hlead as [[_ ?] | ->]; [done |].
    cbn [Nat.eqb app]. rewrite N.eqb_refl.
    rewrite (pedido_tail_forward (S (S s')) ws ws' ds tail []); try done.
    by eexists.
Qed.

Lemma run_unique_head (f : char → bool) (a b : str) (x y : char) (r r' : str) :
  a ++ x :: r = b ++ y :: r' →
  Forall (fun c => f c = true) a → Forall (fun c => f c = true) b →
  f x = false → f y = false → a = b ∧ x = y.
Proof.
  revert b. induction a as [| c a IH]; intros b H Ha Hb Hx Hy.
  - destruct b as [| d b]; simpl in H.
    + by simplify_eq.
    + simplify_eq. apply Forall_cons in Hb as [Hd _]. congruence.
  - destruct b as [| d b]; simpl in H.
    + simplify_eq. apply Forall_cons in Ha as [Hc _]. congruence.
    + simplify_eq. apply Forall_cons in Ha as [_ Ha]. apply Forall_cons in Hb as [_ Hb].
      destruct (IH b) as [-> ->]; done.
Qed.

Lemma drop_head_Forall (Q : char → Prop) (B C : str) (j : nat) (x : char) (R : str) :
  Forall Q B → (j < length B)%nat → drop j B ++ C = x :: R → Q x.
Proof.
  intros HQ Hj H. apply (Forall_drop _ j) in HQ.
  destruct (drop j B) as [| y ys] eqn:E.
  - apply (f_equal length) in E. rewrite length_drop in E. simpl in E. lia.
  - simpl in H. injection H as <- _. by apply Forall_cons in HQ as [? _].
Qed.

Lemma drop_in_part (A B C : str) (j : nat) :
  (length A ≤ j < length A + length B)%nat →
  drop j (A ++ B ++ C) = drop (j - length A) B ++ C.
Proof. intros H. rewrite drop_app_ge by lia. by rewrite drop_app_le by lia. Qed.

Section CompletePedido.

Variables (text : str) (s : nat) (lead ws ws' ds tail : str).

Hypothesis Hocc : drop s text = lead ++ ws ++ u "Pedido:" ++ ws' ++ ds ++ tail.
Hypothesis Hlead : lead = [] ∧ s = O ∨ lead = [LF].
Hypothesis Hws : spaces ws.
Hypothesis Hws' : spaces ws'.
Hypothesis Hds : digits ds.
Hypothesis Hl : (1 ≤ length ds)%nat.
Hypothesis Hstop : stops Unicode.isdecimal tail.
Hypothesis Hs : (s ≤ length text)%nat.

(** The offset of [Pedido:]. *)
Let t : nat := (s + length lead + length ws)%nat.

Lemma pedido_start_covers : spaces (slice text s t).
Proof.
  assert (drop s text = (lead ++ ws) ++ u "Pedido:" ++ ws' ++ ds ++ tail) as Hd
    by (by rewrite Hocc, <- app_assoc).
  rewrite (slice_drop _ _ _ _ _ Hd) by (unfold t; rewrite length_app; lia).
  replace (t - s - length (lead ++ ws))%nat with O by (unfold t; rewrite length_app; lia).
  rewrite take_0, app_nil_r. apply Forall_app. split; [| done].
  by eapply spaces_lead.
Qed.

(** A match that starts before the line and ends after its start has
    the line in its leading white space. *)
Lemma pedido_match_covers m :
  is_match Re.NOFLAGS pedido_rx text m →
  (Re.mo_start m < s < Re.mo_end m)%nat →
  spaces (slice text (Re.mo_start m) t).
Proof.
  intros Hm Hin. apply pedido_match_shape in Hm
    as (lead' & w1 & w2 & D & rest & Hd & Hlead' & Hw1 & Hw2 & HD & HlD & He).
  destruct Hlead as [[_ ?] | ->]; [lia |].
  set (pos := Re.mo_start m) in *. set (j := (s - pos)%nat).
  assert (drop s text = drop j (drop pos text)) as Hds'.
  { rewrite drop_drop. f_equal. lia. }
  assert (length lead' ≤ 1)%nat as Hll by (destruct Hlead' as [[-> _] | ->]; simpl; lia).
  rewrite Hocc, Hd in Hds'.
  change ([LF] ++ ws ++ u "Pedido:" ++ ws' ++ ds ++ tail)
    with ((LF :: ws) ++ 80 :: (u "edido:" ++ ws' ++ ds ++ tail)) in Hds'.
  assert (spaces (LF :: ws)) as Hsp by (by constructor).
  destruct D as [| d1 D1] eqn:ED; [simpl in HlD; lia |]. rewrite <- ED in *.
  assert (Unicode.isspace d1 = false) as Hd1.
  { apply decimal_not_space. rewrite ED in HD. by apply Forall_cons in HD as [? _]. }
  destruct (decide (j < length lead' + length w1)%nat) as [Hj | Hj].
  - (* in the white space before [Pedido:] *)
    rewrite (drop_in_part lead' w1) in Hds' by lia.
    change (u "Pedido:" ++ w2 ++ D ++ rest)
      with (80 :: (u "edido:" ++ w2 ++ D ++ rest)) in Hds'.
    apply (run_unique_head Unicode.isspace) in Hds' as [Heq _];
      [| done | by apply Forall_drop | done | done].
    apply (f_equal length) in Heq. rewrite length_drop in Heq. simpl in Heq.
    assert (t = pos + length lead' + length w1)%nat as Ht by (unfold t; simpl; lia).
    assert (drop pos text = (lead' ++ w1) ++ u "Pedido:" ++ w2 ++ D ++ rest) as Hd'
      by (by rewrite Hd, <- app_assoc).
    rewrite (slice_drop _ _ _ _ _ Hd') by (rewrite length_app; lia).
    replace (t - pos - length (lead' ++ w1))%nat with O by (rewrite length_app; lia).
    rewrite take_0, app_nil_r. apply Forall_app. split; [| done].
    by eapply spaces_lead.
  - exfalso. rewrite (app_assoc lead' w1) in Hds'.
    destruct (decide (j < length lead' + length w1 + 7)%nat) as [Hj2 | Hj2].
    + (* in [Pedido:] *)
      rewrite (drop_in_part (lead' ++ w1) (u "Pedido:")) in Hds'
        by (rewrite length_app; change (length (u "Pedido:")) with 7%nat; lia).
      symmetry in Hds'.
      apply (drop_head_Forall (fun c => Unicode.isspace c = false)) in Hds'.
      * done.
      * by repeat constructor.
      * rewrite length_app. change (length (u "Pedido:")) with 7%nat. lia.
    + rewrite (app_assoc (lead' ++ w1) (u "Pedido:")) in Hds'.
      assert (length ((lead' ++ w1) ++ u "Pedido:") = length lead' + length w1 + 7)%nat
        as Hlen by (rewrite !length_app; done).
      destruct (decide (j < length lead' + length w1 + 7 + length w2)%nat) as [Hj3 | Hj3].
      * (* in the white space after [Pedido:] *)
        rewrite (drop_in_part ((lead' ++ w1) ++ u "Pedido:") w2) in Hds' by lia.
        rewrite ED in Hds'.
        change ((d1 :: D1) ++ rest) with (d1 :: (D1 ++ rest)) in Hds'.
        apply (run_unique_head Unicode.isspace) in Hds' as [_ Heq];
          [| done | by apply Forall_drop | done | done].
        subst d1. rewrite ED in HD. by apply Forall_cons in HD as [? _].
      * (* in the digits *)
        rewrite drop_app_ge in Hds' by lia.
        rewrite (drop_app_ge w2) in Hds' by lia.
        rewrite drop_app_le in Hds' by lia.
        symmetry in Hds'.
        apply (drop_head_Forall (fun c => Unicode.isdecimal c = true)) in Hds'.
        -- done.
        -- done.
        -- lia.
Qed.

Lemma finditer_from_complete_pedido rest : ∀ pos skip,
  drop pos text = rest → (pos ≤ length text)%nat → (pos + skip ≤ s)%nat →
  ∃ m, m ∈ Re.finditer_from Re.NOFLAGS pedido_rx text pos rest skip
       ∧ (Re.mo_start m ≤ t)%nat ∧ spaces (slice text (Re.mo_start m) t).
Proof.
  destruct (pedido_match_forward text s lead ws ws' ds tail) as (m0 & Hm0); try done.
  assert (Re.mo_start m0 = s) as Hs0.
  { apply (match_at_is_match Re.NOFLAGS pedido_rx text) in Hm0 as [_ ?]; done. }
  assert ((Re.mo_start m0 ≤ t)%nat ∧ spaces (slice text (Re.mo_start m0) t)) as Hc0.
  { rewrite Hs0. split; [unfold t; lia | apply pedido_start_covers]. }
  induction rest as [| c rest IH]; intros pos skip Hd Hle Hps.
  - assert (pos = length text) as ->.
    { apply (f_equal length) in Hd. rewrite length_drop in Hd. simpl in Hd. lia. }
    assert (s = length text) as Hs' by lia. assert (skip = O) as -> by lia.
    simpl. rewrite <- Hd, <- Hs', Hm0. exists m0. split; [constructor | done].
  - destruct (drop_S_tail text pos c rest Hd) as [Hd' Hl'].
    destruct skip as [| skip]; simpl.
    + destruct (decide (s = pos)) as [-> | Hne].
      * rewrite <- Hd, Hm0. exists m0. split; [constructor | done].
      * destruct (Re.match_at Re.NOFLAGS pedido_rx text pos (c :: rest)) as [m |] eqn:E.
        -- rewrite <- Hd in E.
           apply (match_at_is_match Re.NOFLAGS pedido_rx text) in E as [Hm Hstart]; [| done].
           destruct (decide (s < Re.mo_end m)%nat) as [Hlt | Hge].
           ++ exists m. split; [constructor |]. split; [unfold t; lia |].
              apply pedido_match_covers; [done | lia].
           ++ destruct (IH (S pos) (Nat.pred (Re.mo_end m - pos))) as (m' & Hin & Hc);
                [done | done | lia |].
              exists m'. split; [by apply list_elem_of_further | done].
        -- apply IH; [done | done | lia].
    + apply IH; [done | done | lia].
Qed.

End CompletePedido.

(** Every line that reads [Pedido:] and digits lies in a recorded match:
    a recorded offset comes before it, with only white space between. *)
Lemma fallback_offsets_complete text t :
  pedido_line_at text t →
  ∃ q, q ∈ fallback_offsets text ∧ (q ≤ t)%nat ∧ spaces (slice text q t).
Proof.
  intros [(before & ws & Ht & Hlen & Hws & Hbefore) (ws' & ds & rest & Hd & Hws' & Hds & Hl)].
  destruct (stops_split Unicode.isdecimal (ds ++ rest)) as (ds' & tail & Heq & Hds' & Hstop).
  assert (1 ≤ length ds')%nat as Hl'.
  { pose proof (digit_run_longest ds ds' rest tail Heq Hds Hds' Hstop). lia. }
  assert (t ≤ length text)%nat as Hp.
  { apply (f_equal length) in Ht. rewrite length_take in Ht. lia. }
  assert (text = before ++ ws ++ u "Pedido:" ++ ws' ++ ds' ++ tail) as Htext.
  { rewrite <- (take_drop t text), Ht, Hd, <- !app_assoc. by rewrite Heq. }
  rewrite length_app in Hlen.
  assert (∀ s lead,
    drop s text = lead ++ ws ++ u "Pedido:" ++ ws' ++ ds' ++ tail →
    (lead = [] ∧ s = O ∨ lead = [LF]) → (s ≤ length text)%nat →
    t = (s + length lead + length ws)%nat →
    ∃ q, q ∈ fallback_offsets text ∧ (q ≤ t)%nat ∧ spaces (slice text q t)) as Hgo.
  { intros s lead Hocc Hlead Hs ->.
    destruct (finditer_from_complete_pedido text s lead ws ws' ds' tail
                Hocc Hlead Hws Hws' Hds' Hl' Hstop Hs text 0 0)
      as (m & Hin & Hle & Hsp); [done | lia | lia |].
    exists (Re.mo_start m). split_and!; [| done | done].
    unfold fallback_offsets. apply list_elem_of_In, in_map. by apply list_elem_of_In. }
  destruct Hbefore as [-> | Hlast].
  - apply (Hgo 0%nat []); [by rewrite drop_0 | by left | lia | simpl in *; lia].
  - destruct before as [| x before' _] using rev_ind; [done |].
    rewrite last_snoc in Hlast. injection Hlast as ->.
    rewrite length_app in Hlen. simpl in Hlen.
    apply (Hgo (length before') [LF]); [| by right | lia | simpl; lia].
    rewrite Htext at 1. rewrite <- !app_assoc. by rewrite drop_app_length.
Qed.

(** ** The segmenter *)

(** C3: the segmenter records the offsets of the note numbers that start
    a line, all of them and nothing else; when there is none it records
    the lines that read [Pedido:] and digits, each of them at the start
    of the white space that leads to it; the blocks run from each
    recorded offset to the next, the last one to the end of the text,
    stripped and in the order of the text; without any offset there is no
    block. *)
Theorem C3_block_segmenter (text : str) :
  primary_positions text = map Z.of_nat (primary_offsets text)
  ∧ (∀ p, p ∈ primary_offsets text ↔ note_at text p)
  ∧ ascending (length text) (primary_offsets text)
  ∧ fallback_positions text = map Z.of_nat (fallback_offsets text)
  ∧ Forall (pedido_at text) (fallback_offsets text)
  ∧ (∀ t, pedido_line_at text t →
       ∃ q, q ∈ fallback_offsets text ∧ (q ≤ t)%nat ∧ spaces (slice text q t))
  ∧ ascending (length text) (fallback_offsets text)
  ∧ Forall pedido_block (blocks_between text (fallback_offsets text))
  ∧ split_notes_blocks text =
      Ret (blocks_between text
             (match primary_offsets text with
              | [] => fallback_offsets text
              | offsets => offsets
              end))
  ∧ (primary_offsets text = [] → fallback_offsets text = [] →
     split_notes_blocks text = Ret [])
  ∧ split_notes_blocks
      (join [LF] [u "Cliente A"; u "Pedido: 1"; u "item"; u "  Pedido: 22"; u "fim"])
    = Ret [join [LF] [u "Pedido: 1"; u "item"]; join [LF] [u "Pedido: 22"; u "fim"]].
Proof.
  split_and!.
  - apply primary_positions_offsets.
  - intros p. split; [| apply primary_offsets_complete].
    pose proof (primary_offsets_note_at text) as H. rewrite Forall_forall in H. apply H.
  - apply primary_offsets_ascending.
  - apply fallback_positions_offsets.
  - apply fallback_offsets_pedido_at.
  - apply fallback_offsets_complete.
  - apply fallback_offsets_ascending.
  - apply fallback_blocks.
  - apply split_notes_blocks_offsets.
  - intros H1 H2. by rewrite split_notes_blocks_offsets, H1, H2.
  - vm_compute. reflexivity.
Qed.

Lemma C3_block_segmenter_witness :
  primary_offsets (u "sem notas") = [] ∧ fallback_offsets (u "sem notas") = []
  ∧ split_notes_blocks (u "sem notas") = Ret [].
Proof.
  assert (primary_offsets (u "sem notas") = []) as H1 by (vm_compute; reflexivity).
  assert (fallback_offsets (u "sem notas") = []) as H2 by (vm_compute; reflexivity).
  split_and!; [exact H1 | exact H2 |].
  destruct (C3_block_segmenter (u "sem notas")) as (_ & _ & _ & _ & _ & _ & _ & _ & _ & H & _).
  exact (H H1 H2).
Defined.

(** * Further properties of the code *)

(** ** Stripped strings *)

Lemma lstrip_head (s : str) (c : char) (t : str) :
  lstrip s = c :: t → Unicode.isspace c = false.
Proof.
  induction s as [| x s IH]; simpl; [done |].
  destruct (Unicode.isspace x) eqn:E; [done |]. intros H. by simplify_eq.
Qed.

Lemma lstrip_last (s : str) (c : char) (t : str) :
  lstrip s = c :: t → last (lstrip s) = last s.
Proof.
  induction s as [| x s IH]; simpl; [done |].
  destruct (Unicode.isspace x) eqn:E; [| done].
  intros H. rewrite (IH H). destruct s; [done |]. done.
Qed.

Lemma rstrip_last (s : str) (d : char) :
  last (rstrip s) = Some d → Unicode.isspace d = false.
Proof.
  unfold rstrip. intros H.
  destruct (lstrip (rev s)) as [| c t] eqn:E; [done |].
  simpl in H. rewrite last_snoc in H. simplify_eq. by eapply lstrip_head.
Qed.

(** What [strip] returns has no white space at either end. *)
Lemma strip_ends (s : str) :
  strip s = [] ∨
  ∃ c t d, strip s = c :: t ∧ last (strip s) = Some d
           ∧ Unicode.isspace c = false ∧ Unicode.isspace d = false.
Proof.
  unfold strip. destruct (lstrip (rstrip s)) as [| c t] eqn:E; [by left | right].
  pose proof (lstrip_last _ _ _ E) as Hl. rewrite E in Hl.
  destruct (last (rstrip s)) as [d |] eqn:Ed.
  - exists c, t, d. split_and!; [done | done | by eapply lstrip_head | by eapply rstrip_last].
  - apply last_None in Ed. rewrite Ed in E. done.
Qed.

Lemma strip_strip (s : str) : strip (strip s) = strip s.
Proof.
  destruct (strip_ends s) as [-> | (c & t & d & H & Hl & Hc & Hd)]; [done |].
  by apply (strip_id _ c d t).
Qed.

(** ** Slices *)

Lemma slice_app (text : str) (i j k : nat) :
  (i ≤ j ≤ k)%nat → slice text i k = slice text i j ++ slice text j k.
Proof.
  intros H. unfold slice.
  replace (drop j text) with (drop (j - i) (drop i text))
    by (rewrite drop_drop; f_equal; lia).
  rewrite take_take_drop. f_equal. lia.
Qed.

Lemma slice_to_end (text : str) (i : nat) : slice text i (length text) = drop i text.
Proof. unfold slice. apply take_ge. rewrite length_drop. lia. Qed.

Lemma slice_drop_app (text : str) (i j : nat) :
  (i ≤ j)%nat → drop i text = slice text i j ++ drop j text.
Proof.
  intros H. unfold slice.
  replace (drop j text) with (drop (j - i) (drop i text))
    by (rewrite drop_drop; f_equal; lia).
  by rewrite take_drop.
Qed.

(** ** The blocks of the segmenter *)

Lemma separated_spaces (bs : list str) (ws s : str) :
  spaces ws → separated bs s → separated bs (ws ++ s).
Proof.
  intros Hws. destruct bs as [| b bs]; simpl.
  - intros H. by apply Forall_app.
  - intros (ws' & rest & -> & Hws' & H). exists (ws ++ ws'), rest.
    split_and!; [by rewrite <- app_assoc | by apply Forall_app | done].
Qed.

(** The blocks between ascending offsets make up the text from the first
    offset on, white space apart. *)
Lemma blocks_between_separated (text : str) (offs : list nat) : ∀ o,
  ascending (length text) (o :: offs) →
  separated (blocks_between text (o :: offs)) (drop o text).
Proof.
  induction offs as [| o' offs IH]; intros o Ha.
  - simpl. rewrite slice_to_end.
    destruct (strip_split (drop o text)) as (ws1 & ws2 & H & H1 & H2).
    exists ws1, ws2. done.
  - destruct Ha as (Ho & Ha & Hlt).
    specialize (IH o' Ha).
    change (blocks_between text (o :: o' :: offs))
      with (strip (slice text o o') :: blocks_between text (o' :: offs)).
    destruct (strip_split (slice text o o')) as (ws1 & ws2 & H & H1 & H2).
    exists ws1, (ws2 ++ drop o' text). split_and!.
    + rewrite (slice_drop_app text o o') by lia. rewrite H at 1.
      by rewrite <- !app_assoc.
    + done.
    + by apply separated_spaces.
Qed.

Lemma recorded_offsets_ascending (text : str) :
  ascending (length text) (recorded_offsets text).
Proof.
  unfold recorded_offsets. destruct (primary_offsets text) as [| o offs] eqn:E.
  - apply fallback_offsets_ascending.
  - rewrite <- E. apply primary_offsets_ascending.
Qed.

Lemma split_notes_blocks_recorded (text : str) :
  split_notes_blocks text = Ret (blocks_between text (recorded_offsets text)).
Proof. apply split_notes_blocks_offsets. Qed.

Lemma blocks_between_length (text : str) (offs : list nat) :
  length (blocks_between text offs) = length offs.
Proof. induction offs as [| o offs IH]; simpl; [done |]. by rewrite IH. Qed.

Lemma blocks_between_stripped (text : str) (offs : list nat) :
  Forall (fun b => strip b = b) (blocks_between text offs).
Proof.
  induction offs as [| o offs IH]; simpl; constructor; [apply strip_strip | done].
Qed.

Lemma recorded_blocks_nonempty (text : str) :
  Forall (fun b => b ≠ []) (blocks_between text (recorded_offsets text)).
Proof.
  unfold recorded_offsets. destruct (primary_offsets text) as [| o offs] eqn:E.
  - eapply Forall_impl; [apply fallback_blocks |].
    intros b [tail ->]. done.
  - rewrite <- E. eapply Forall_impl; [apply primary_blocks |].
    intros b (id & tail & -> & ds1 & ds2 & -> & _). by destruct ds1.
Qed.

(** ** The word [Pedido:] in the matches of the second pattern *)

Lemma word_offset_spaces (text : str) (q t : nat) (c : char) (rest : str) :
  (q ≤ t)%nat → drop t text = c :: rest → Unicode.isspace c = false →
  spaces (slice text q t) → word_offset text q = t.
Proof.
  intros Hq Hd Hc Hsp.
  assert (t < length text)%nat as Ht.
  { apply (f_equal length) in Hd. rewrite length_drop in Hd. simpl in Hd. lia. }
  unfold word_offset. rewrite (slice_drop_app text q t) by done.
  rewrite lstrip_spaces by done. rewrite Hd, lstrip_nonspace by done.
  rewrite length_app. unfold slice. rewrite length_take, length_drop. lia.
Qed.

Lemma pedido_word (text : str) (m : Re.match_obj) :
  is_match Re.NOFLAGS pedido_rx text m →
  (Re.mo_start m ≤ word_offset text (Re.mo_start m) < Re.mo_end m)%nat
  ∧ spaces (slice text (Re.mo_start m) (word_offset text (Re.mo_start m)))
  ∧ pedido_line_at text (word_offset text (Re.mo_start m)).
Proof.
  intros H. pose proof H as (_ & Hl & _). apply pedido_match_shape in H
    as (lead & ws & ws' & ds & rest & Hd & Hlead & Hws & Hws' & Hds & Hlen & He).
  set (q := Re.mo_start m) in *. set (t := (q + length lead + length ws)%nat).
  assert (drop t text = u "Pedido:" ++ ws' ++ ds ++ rest) as Hdt.
  { unfold t. rewrite <- Nat.add_assoc, <- length_app. apply drop_add.
    by rewrite <- app_assoc. }
  assert (slice text q t = lead ++ ws) as Hsl.
  { assert (drop q text = (lead ++ ws) ++ u "Pedido:" ++ ws' ++ ds ++ rest) as Hd'
      by (by rewrite Hd, <- app_assoc).
    rewrite (slice_drop _ _ _ _ _ Hd') by (unfold t; rewrite length_app; lia).
    replace (t - q - length (lead ++ ws))%nat with O by (unfold t; rewrite length_app; lia).
    by rewrite take_0, app_nil_r. }
  assert (spaces (lead ++ ws)) as Hsp.
  { apply Forall_app. split; [by eapply spaces_lead | done]. }
  assert (word_offset text q = t) as ->.
  { apply (word_offset_spaces text q t 80 (u "edido:" ++ ws' ++ ds ++ rest)).
    - unfold t. lia.
    - exact Hdt.
    - reflexivity.
    - by rewrite Hsl. }
  split_and!.
  - unfold t. lia.
  - unfold t. lia.
  - by rewrite Hsl.
  - split.
    + exists (take q text ++ lead), ws. split_and!.
      * by apply take_drop_line with (rest := u "Pedido:" ++ ws' ++ ds ++ rest).
      * rewrite !length_app, length_take. unfold t. lia.
      * done.
      * destruct Hlead as [[-> H0] | ->].
        -- left. fold q in H0. rewrite H0. done.
        -- right. by rewrite last_snoc.
    + by exists ws', ds, rest.
Qed.

Section PedidoScan.

Variable text : str.

Let word (m : Re.match_obj) : nat := word_offset text (Re.mo_start m).

Lemma pedido_offsets_map :
  pedido_offsets text = map word (Re.finditer Re.NOFLAGS pedido_rx text).
Proof. unfold pedido_offsets, fallback_offsets. by rewrite map_map. Qed.

Lemma pedido_offsets_ascending : ascending (length text) (pedido_offsets text).
Proof.
  rewrite pedido_offsets_map.
  eapply (scan_ascending Re.NOFLAGS pedido_rx text word).
  - intros m Hm. by apply pedido_word.
  - apply finditer_scan.
Qed.

Lemma pedido_offsets_sound (t : nat) :
  t ∈ pedido_offsets text → pedido_line_at text t.
Proof.
  rewrite pedido_offsets_map. intros H.
  apply list_elem_of_fmap in H as (m & -> & Hin).
  pose proof (scan_ok_matches _ _ _ _ _ (finditer_scan Re.NOFLAGS pedido_rx text)) as HF.
  rewrite Forall_forall in HF. by apply pedido_word, HF.
Qed.

Lemma pedido_offsets_complete (t : nat) :
  pedido_line_at text t → t ∈ pedido_offsets text.
Proof.
  intros H. destruct (fallback_offsets_complete text t H) as (q & Hin & Hle & Hsp).
  destruct H as [_ (ws' & ds & rest & Hd & _)].
  unfold pedido_offsets. apply list_elem_of_fmap. exists q. split; [| done].
  symmetry. by apply (word_offset_spaces text q t 80 (u "edido:" ++ ws' ++ ds ++ rest)).
Qed.

(** Cut at the start of a match or at its word, the blocks are the
    same. *)
Lemma scan_blocks_word lb ms :
  scan_ok Re.NOFLAGS pedido_rx text lb ms →
  blocks_between text (map Re.mo_start ms) = blocks_between text (map word ms).
Proof.
  induction 1 as [| lb m ms Hs Hm Hrest IH]; [done |].
  cbn [map blocks_between]. rewrite IH. f_equal.
  destruct (pedido_word text m Hm) as (Hb & Hsp & _). fold (word m) in Hb, Hsp.
  pose proof (is_match_end _ _ _ m Hm) as He.
  destruct ms as [| m' ms']; cbn [map].
  - rewrite (slice_app text (Re.mo_start m) (word m) (length text)) by lia.
    by rewrite strip_leading_spaces.
  - inversion Hrest as [| ? ? ? Hs' Hm' _]; subst.
    destruct (pedido_word text m' Hm') as (Hb' & Hsp' & _). fold (word m') in Hb', Hsp'.
    rewrite (slice_app text (Re.mo_start m) (word m) (Re.mo_start m')) by lia.
    rewrite strip_leading_spaces by done.
    rewrite (slice_app text (word m) (Re.mo_start m') (word m')) by lia.
    by rewrite strip_trailing_spaces.
Qed.

Lemma fallback_blocks_word :
  blocks_between text (fallback_offsets text) = blocks_between text (pedido_offsets text).
Proof.
  rewrite pedido_offsets_map. unfold fallback_offsets.
  apply (scan_blocks_word 0). apply finditer_scan.
Qed.

End PedidoScan.

(** ** The note number of a record and the text *)

Lemma space_next_spaces (ws more : str) :
  spaces ws → space_next more → space_next (ws ++ more).
Proof.
  intros Hws Hm. destruct ws as [| w ws]; [done |].
  right. exists w, (ws ++ more). split; [done |]. by apply Forall_cons in Hws as [? _].
Qed.

Lemma space_next_gap (gap more : str) :
  spaces gap → gap ≠ [] → space_next (gap ++ more).
Proof.
  intros Hg Hne. destruct gap as [| w ws]; [done |].
  right. exists w, (ws ++ more). split; [done |]. by apply Forall_cons in Hg as [? _].
Qed.

Section ScanAt.

Import Re ReSpec.

Variables (fl : flags) (r : regex) (text : str).
Variable off : match_obj → nat.
Variable P : nat → str → Prop.

Hypothesis Hoff : ∀ m, is_match fl r text m → (mo_start m ≤ off m < mo_end m)%nat.
Hypothesis Hgap : ∀ m, is_match fl r text m →
  spaces (slice text (mo_start m) (off m))
  ∧ ((0 < mo_start m)%nat → (mo_start m < off m)%nat).
Hypothesis HP : ∀ m q e, is_match fl r text m →
  (mo_end m ≤ q ≤ e)%nat → (e ≤ length text)%nat →
  spaces (slice text q e) → (q < e)%nat ∨ e = length text →
  P (off m) (strip (slice text (off m) e)).

(** Every block of a scan, with the offset it was cut at. *)
Lemma scan_blocks_at lb ms :
  scan_ok fl r text lb ms →
  Forall2 P (map off ms) (blocks_between text (map off ms)).
Proof.
  induction 1 as [| lb m ms Hs Hm Hrest IH]; [constructor |].
  cbn [map blocks_between]. constructor; [| exact IH].
  pose proof (is_match_end _ _ _ m Hm) as He. pose proof (Hoff m Hm) as Ho.
  destruct ms as [| m' ms']; cbn [map].
  - apply (HP m (length text) (length text));
      [done | lia | lia | | by right].
    unfold slice. rewrite Nat.sub_diag, take_0. constructor.
  - inversion Hrest as [| ? ? ? Hs' Hm' _]; subst.
    pose proof (Hoff m' Hm') as Ho'. pose proof (is_match_end _ _ _ m' Hm') as He'.
    destruct (Hgap m' Hm') as [Hsp Hlt].
    apply (HP m (mo_start m') (off m')); [done | lia | lia | done |].
    left. apply Hlt. lia.
Qed.

End ScanAt.

(** A block of the first pattern starts with the note number of its
    match and is the text from the offset on, up to white space. *)
Lemma note_match_block_at (text : str) (m : Re.match_obj) (q e : nat) :
  is_match Re.NOFLAGS note_rx text m →
  (Re.mo_end m ≤ q ≤ e)%nat → (e ≤ length text)%nat →
  spaces (slice text q e) → (q < e)%nat ∨ e = length text →
  note_block (strip (slice text (group_offset m) e))
  ∧ ∃ more, drop (group_offset m) text = strip (slice text (group_offset m) e) ++ more
            ∧ space_next more.
Proof.
  intros H Hq He Hsp Hlast. pose proof (note_match_offset text m H) as Ho.
  split; [apply note_match_block; [done | lia] |].
  set (o := group_offset m) in *.
  rewrite (slice_app text o q e) by lia. rewrite strip_trailing_spaces by done.
  destruct (strip_split (slice text o q)) as (ws1 & ws2 & Hs & H1 & H2).
  assert (ws1 = []) as ->.
  { destruct ws1 as [| w ws1]; [done |]. exfalso.
    apply Forall_cons in H1 as [Hw _].
    apply note_match_shape in H
      as (lead & ws & ds1 & ds2 & rest & Hd & _ & _ & Hd1 & Hl1 & _ & _ & Hg & Hend & _).
    fold o in Hg, Hend.
    assert (drop o text = ds1 ++ HYPHEN :: ds2 ++ rest) as Hd'.
    { rewrite Hg, <- Nat.add_assoc, <- length_app. apply drop_add.
      by rewrite <- app_assoc. }
    destruct ds1 as [| c t]; [simpl in Hl1; lia |].
    apply Forall_cons in Hd1 as [Hc _]. apply decimal_not_space in Hc.
    unfold slice in Hs. rewrite Hd' in Hs.
    destruct (q - o)%nat as [| n] eqn:En; [lia |].
    simpl in Hs. congruence. }
  simpl in Hs.
  exists (ws2 ++ slice text q e ++ drop e text). split.
  - rewrite (slice_drop_app text o q) by lia. rewrite Hs at 1.
    rewrite <- app_assoc. f_equal. f_equal. apply slice_drop_app. lia.
  - apply space_next_spaces; [done |].
    destruct Hlast as [Hlt | ->].
    + apply space_next_gap; [done |]. intros Hnil.
      apply (f_equal length) in Hnil. unfold slice in Hnil.
      rewrite length_take, length_drop in Hnil. simpl in Hnil. lia.
    + rewrite drop_all, app_nil_r. destruct (slice text q (length text)) as [| w ws] eqn:E.
      * by left.
      * right. exists w, ws. split; [done |]. by apply Forall_cons in Hsp as [? _].
Qed.

Lemma note_match_gap (text : str) (m : Re.match_obj) :
  is_match Re.NOFLAGS note_rx text m →
  spaces (slice text (Re.mo_start m) (group_offset m))
  ∧ ((0 < Re.mo_start m)%nat → (Re.mo_start m < group_offset m)%nat).
Proof.
  intros H. apply note_match_shape in H
    as (lead & ws & ds1 & ds2 & rest & Hd & Hlead & Hws & _ & _ & _ & _ & Hg & _).
  split.
  - assert (drop (Re.mo_start m) text = (lead ++ ws) ++ ds1 ++ HYPHEN :: ds2 ++ rest) as Hd'
      by (by rewrite Hd, <- app_assoc).
    rewrite (slice_drop _ _ _ _ _ Hd') by (rewrite Hg, length_app; lia).
    replace (group_offset m - Re.mo_start m - length (lead ++ ws))%nat with O
      by (rewrite Hg, length_app; lia).
    rewrite take_0, app_nil_r. apply Forall_app. split; [by eapply spaces_lead | done].
  - intros Hpos. destruct Hlead as [[_ ?] | ->]; [lia |]. rewrite Hg. simpl. lia.
Qed.

Lemma primary_blocks_at (text : str) :
  Forall2 (fun o b => note_block b ∧ ∃ more, drop o text = b ++ more ∧ space_next more)
    (primary_offsets text) (blocks_between text (primary_offsets text)).
Proof.
  unfold primary_offsets.
  eapply (scan_blocks_at Re.NOFLAGS note_rx text group_offset).
  - apply note_match_offset.
  - apply note_match_gap.
  - intros m q e Hm Hq He Hsp Hlast. by apply note_match_block_at with (q := q).
  - apply finditer_scan.
Qed.

(** *** The pattern of the note number on a block *)

Lemma search_from_here fl r text pos rest m :
  Re.match_at fl r text pos rest = Some m → Re.search_from fl r text pos rest = Some m.
Proof. intros H. destruct rest; simpl; by rewrite H. Qed.

Lemma numero_forward fl ds1 ds2 tail :
  digits ds1 → (3 ≤ length ds1 ≤ 5)%nat → digits ds2 → (1 ≤ length ds2)%nat →
  stops Unicode.isdecimal tail →
  Re.run fl numero_rx (Re.MState 0 (ds1 ++ HYPHEN :: ds2 ++ tail) []) Some
  = Some (Re.MState (length ds1 + 1 + length ds2) tail
            [(1%nat, (0%nat, (length ds1 + 1 + length ds2)%nat))]).
Proof.
  intros Hd1 Hl1 Hd2 Hl2 Hstop.
  destruct ds1 as [| c1 t1] eqn:E1; [simpl in Hl1; lia |]. rewrite <- E1 in *.
  unfold numero_rx. cbn [Re.run Re.m_pos Re.m_rest Re.m_marks Nat.eqb].
  pose proof (repeat_greedy_take fl SPACE [] (ds1 ++ HYPHEN :: ds2 ++ tail) 0 None 0) as Hsp.
  cbn [app length] in Hsp. apply Hsp; [constructor | lia | done | |].
  { left. right. exists c1, (t1 ++ HYPHEN :: ds2 ++ tail). rewrite E1. split; [done |].
    rewrite atom_space. apply decimal_not_space.
    rewrite E1 in Hd1. by apply Forall_cons in Hd1 as [? _]. }
  cbn [Re.run Re.m_pos Re.m_rest Re.m_marks].
  apply repeat_greedy_take; [by apply digits_match | lia | simpl; lia | |].
  { left. right. exists HYPHEN, (ds2 ++ tail). split; [done |]. by rewrite atom_digit. }
  cbn [Re.run Re.m_pos Re.m_rest Re.m_marks].
  rewrite atom_uncased by done. rewrite N.eqb_refl.
  apply repeat_greedy_take; [by apply digits_match | lia | done | |].
  { left. destruct Hstop as [-> | (c & t & -> & Hc)]; [by left | right].
    exists c, t. split; [done |]. by rewrite atom_digit. }
  cbn [Re.m_pos Re.m_rest Re.m_marks]. f_equal. f_equal; [lia |]. do 3 f_equal; lia.
Qed.

(** On a block that starts with a note number, the block parser finds
    it, with every digit that follows the hyphen. *)
Lemma numero_of_note_block_full (b : str) :
  note_block b →
  ∃ s tail, find b "^\s*(\d{3,5}-\d+)" = Ret s ∧ note_id 3 s
            ∧ b = s ++ tail ∧ stops Unicode.isdecimal tail.
Proof.
  intros (id & tail0 & -> & ds1 & ds2' & -> & Hd1 & Hl1 & Hd2' & Hl2').
  destruct (stops_split Unicode.isdecimal (ds2' ++ tail0)) as (ds2 & tail & Heq & Hd2 & Hstop).
  pose proof (digit_run_longest _ _ _ _ Heq Hd2' Hd2 Hstop) as Hlen.
  assert ((ds1 ++ HYPHEN :: ds2') ++ tail0 = ds1 ++ HYPHEN :: ds2 ++ tail) as Hb.
  { rewrite <- app_assoc. simpl. by rewrite Heq. }
  exists (ds1 ++ HYPHEN :: ds2), tail. rewrite Hb. split_and!.
  - destruct (find_ret (ds1 ++ HYPHEN :: ds2 ++ tail) "^\s*(\d{3,5}-\d+)")
      as (r & Hc & ->); [by vm_compute |].
    rewrite compile_numero_rx in Hc. injection Hc as <-.
    unfold Re.search.
    rewrite (search_from_here _ _ _ _ _
               (Re.Match (ds1 ++ HYPHEN :: ds2 ++ tail) 0 (length ds1 + 1 + length ds2)
                  [(1%nat, (0%nat, (length ds1 + 1 + length ds2)%nat))])).
    + f_equal. unfold Re.group, Re.span.
      cbn [Re.mo_marks Re.lookup_mark Re.mo_string Nat.eqb mbind option_bind default].
      assert (slice (ds1 ++ HYPHEN :: ds2 ++ tail) 0 (length ds1 + 1 + length ds2)
              = ds1 ++ HYPHEN :: ds2) as ->.
      { unfold slice. rewrite drop_0, Nat.sub_0_r.
        replace (length ds1 + 1 + length ds2)%nat
          with (length (ds1 ++ HYPHEN :: ds2)) by (rewrite length_app; simpl; lia).
        replace (ds1 ++ HYPHEN :: ds2 ++ tail) with ((ds1 ++ HYPHEN :: ds2) ++ tail)
          by (by rewrite <- app_assoc).
        apply take_exact. }
      destruct ds1 as [| c t] eqn:E1; [simpl in Hl1; lia |].
      destruct (last ds2) as [d |] eqn:E2;
        [| apply last_None in E2; subst ds2; simpl in Hlen; lia].
      apply (strip_id _ c d (t ++ HYPHEN :: ds2)).
      * done.
      * change (last ((c :: t) ++ HYPHEN :: ds2) = Some d).
        rewrite last_app, last_cons, E2. done.
      * eapply digit_head_nonspace; [exact Hd1 | done].
      * eapply digit_last_nonspace; [exact Hd2 | done].
    + unfold Re.match_at. rewrite numero_forward; try done. lia.
  - exists ds1, ds2. split_and!; try done; lia.
  - by rewrite <- app_assoc.
  - done.
Qed.

Lemma stops_space_next (tail more : str) :
  stops Unicode.isdecimal tail → space_next more → stops Unicode.isdecimal (tail ++ more).
Proof.
  intros [-> | (c & t & -> & Hc)] Hm.
  - destruct Hm as [-> | (c & t & -> & Hc)]; [by left | right].
    exists c, t. split; [done |]. by apply space_not_decimal.
  - right. exists c, (t ++ more). done.
Qed.

(** The records of a document whose first pattern finds note numbers:
    one for each offset, with the note number that stands there. *)
Lemma primary_records (text : str) (header : dict) (records : list dict) :
  Forall2 (fun block record => parse_block block header = Ret record)
    (blocks_between text (primary_offsets text)) records →
  Forall2 (fun (o : nat) (r : dict) =>
             ∃ s rest, r !! "numero_nota" = Some (PStr s) ∧ note_id 3 s
                       ∧ drop o text = s ++ rest ∧ stops Unicode.isdecimal rest)
    (primary_offsets text) records.
Proof.
  intros HF. pose proof (primary_blocks_at text) as HB.
  revert records HF. induction HB as [| o b offs bs [Hnb (more & Hd & Hm)] _ IH];
    intros records HF.
  - inversion HF. constructor.
  - inversion HF as [| ? rec ? recs Hp HF']; subst. constructor; [| by apply IH].
    destruct (record_numero _ _ _ Hp) as (s & Hf & Hs).
    destruct (numero_of_note_block_full b Hnb) as (s' & tail & Hf' & Hid & Hb & Hstop).
    rewrite Hf in Hf'. apply Ret_inj in Hf'. subst s'.
    exists s, (tail ++ more). split_and!; try done.
    + rewrite Hd, Hb. by rewrite <- app_assoc.
    + by apply stops_space_next.
Qed.

(** ** Texts without digits *)

Lemma digitless_drop (text : str) (n : nat) : digitless text → digitless (drop n text).
Proof. apply Forall_drop. Qed.

Lemma digitless_no_digits (ds rest : str) :
  digitless (ds ++ rest) → digits ds → ds = [].
Proof.
  intros H Hd. destruct ds as [| c t]; [done |].
  apply Forall_cons in Hd as [Hc _]. simpl in H. apply Forall_cons in H as [Hn _].
  congruence.
Qed.

Lemma digitless_primary (text : str) : digitless text → primary_offsets text = [].
Proof.
  intros H. pose proof (primary_offsets_note_at text) as HF.
  destruct (primary_offsets text) as [| o offs]; [done |]. exfalso.
  apply Forall_cons in HF as [[_ (id & rest & Hd & ds1 & ds2 & -> & Hd1 & Hl1 & _)] _].
  apply (digitless_drop text o) in H. rewrite Hd, <- app_assoc in H.
  apply digitless_no_digits in H; [| done]. subst ds1. simpl in Hl1. lia.
Qed.

Lemma digitless_fallback (text : str) : digitless text → fallback_offsets text = [].
Proof.
  intros H. pose proof (fallback_offsets_pedido_at text) as HF.
  destruct (fallback_offsets text) as [| o offs]; [done |]. exfalso.
  apply Forall_cons in HF as [(lead & ws & ws' & ds & rest & Hd & _ & _ & _ & Hds & Hl) _].
  apply (digitless_drop text o) in H. rewrite Hd in H.
  rewrite !app_assoc in H. rewrite <- (app_assoc _ ds rest) in H.
  apply Forall_app in H as [_ H].
  apply digitless_no_digits in H; [| done]. subst ds. simpl in Hl. lia.
Qed.

Lemma digitless_records (text : str) :
  digitless text → parse_text_to_records text = Ret [].
Proof.
  intros H. destruct (pipeline_ret text) as (header & blocks & records & _ & Hb & Hr & HF & _).
  rewrite split_notes_blocks_offsets in Hb.
  rewrite (digitless_primary text H), (digitless_fallback text H) in Hb.
  apply Ret_inj in Hb. subst blocks. inversion HF. by subst.
Qed.

Lemma digitless_join (parts : list str) :
  Forall digitless parts → digitless (join [LF] parts).
Proof.
  induction 1 as [| p ps Hp _ IH]; [constructor |].
  destruct ps as [| p' ps']; [done |].
  change (join [LF] (p :: p' :: ps')) with (p ++ [LF] ++ join [LF] (p' :: ps')).
  apply Forall_app. split; [done |]. apply Forall_app. split; [| done].
  by repeat constructor.
Qed.

(** ** The block parser and its header *)

(** The fields the block parser reads, each with where it comes from,
    and the record it builds from them on any header. *)
Lemma parse_block_fields (block : str) :
  ∃ numero nome codigo cliente pedido cidade peso_token peso endereco
    total_token total dup forma valor,
    find block "^\s*(\d{3,5}-\d+)" = Ret numero
    ∧ find block "Nome:\s*([^\n]+)" = Ret nome
    ∧ match nome with
      | [] => Ret ([], [])
      | _ =>
          code_match ← re_match "(\d+)\s*-\s*(.+)" nome Re.NOFLAGS;
          match code_match with
          | Some m =>
              g1 ← group_str m 1;
              g2 ← group_str m 2;
              Ret (strip g1, strip g2)
          | None => Ret ([], nome)
          end
      end = Ret (codigo, cliente)
    ∧ find block "Pedido:\s*([^\n]+)" = Ret pedido
    ∧ find block "Cidade:\s*([^\n]+)" = Ret cidade
    ∧ find block "Peso\s*Pedido:\s*([0-9\.,]+)" = Ret peso_token
    ∧ parse_br_number (Some peso_token) = Ret peso
    ∧ find block "Endere[cç]o:\s*([^\n]+)" = Ret endereco
    ∧ find block "Total\s+da\s+Nota:\s*R?\$?\s*([0-9\.,]+)" = Ret total_token
    ∧ parse_br_number (Some total_token) = Ret total
    ∧ re_search "Duplicata\s+a\s+Receber\s*(.*?)\s*Valor:\s*R?\$?\s*([0-9\.,]+)"
        block Re.IGNORECASE_DOTALL = Ret dup
    ∧ match dup with
      | Some m =>
          g1 ← group_str m 1;
          v ← parse_br_number (Re.group m 2);
          Ret (strip g1, v)
      | None => Ret ([], None)
      end = Ret (forma, valor)
    ∧ ∀ header,
        parse_block block header =
          Ret (fill_missing
                 (dict_update header
                    [ ("numero_nota", PStr numero);
                      ("codigo_cliente", PStr codigo);
                      ("nome_cliente", PStr cliente);
                      ("pedido", PStr pedido);
                      ("cidade", PStr cidade);
                      ("peso_pedido", of_number peso);
                      ("endereco", PStr endereco);
                      ("total_nota", of_number total);
                      ("forma_recebimento", PStr forma);
                      ("valor_recebimento", of_number valor) ])).
Proof.
  destruct (find_total block "^\s*(\d{3,5}-\d+)") as [numero Hn]; [by vm_compute |].
  destruct (find_total block "Nome:\s*([^\n]+)") as [nome Hnome]; [by vm_compute |].
  assert (∃ cn : str * str,
    match nome with
    | [] => Ret ([], [])
    | _ =>
        code_match ← re_match "(\d+)\s*-\s*(.+)" nome Re.NOFLAGS;
        match code_match with
        | Some m =>
            g1 ← group_str m 1;
            g2 ← group_str m 2;
            Ret (strip g1, strip g2)
        | None => Ret ([], nome)
        end
    end = Ret cn) as [[codigo cliente] Hcn].
  { destruct nome as [| c t]; [by eexists |].
    destruct (pattern_groups_compile "(\d+)\s*-\s*(.+)" 2) as (r & Hc & Hs);
      [by vm_compute |].
    unfold re_match. rewrite Hc, bind_ret.
    destruct (Re.match_ Re.NOFLAGS r (c :: t)) as [m |] eqn:E; [| by eexists].
    destruct (match_group _ _ _ _ 1%nat E) as [g1 Hg1]; [apply Hs; lia |].
    destruct (match_group _ _ _ _ 2%nat E) as [g2 Hg2]; [apply Hs; lia |].
    unfold group_str. rewrite Hg1, Hg2. by eexists. }
  destruct (find_total block "Pedido:\s*([^\n]+)") as [pedido Hpe]; [by vm_compute |].
  destruct (find_total block "Cidade:\s*([^\n]+)") as [cidade Hci]; [by vm_compute |].
  destruct (find_total block "Peso\s*Pedido:\s*([0-9\.,]+)") as [pt Hpt]; [by vm_compute |].
  destruct (parse_br_number_total (Some pt)) as [peso Hpeso].
  destruct (find_total block "Endere[cç]o:\s*([^\n]+)") as [endereco Hen]; [by vm_compute |].
  destruct (find_total block "Total\s+da\s+Nota:\s*R?\$?\s*([0-9\.,]+)") as [tt Htt];
    [by vm_compute |].
  destruct (parse_br_number_total (Some tt)) as [total Htotal].
  assert (∃ dm, re_search "Duplicata\s+a\s+Receber\s*(.*?)\s*Valor:\s*R?\$?\s*([0-9\.,]+)"
                  block Re.IGNORECASE_DOTALL = Ret dm
                ∧ ∃ fv : str * option spec_float,
                    match dm with
                    | Some m =>
                        g1 ← group_str m 1;
                        v ← parse_br_number (Re.group m 2);
                        Ret (strip g1, v)
                    | None => Ret ([], None)
                    end = Ret fv) as (dm & Hdm & [forma valor] & Hfv).
  { destruct (pattern_groups_compile
                "Duplicata\s+a\s+Receber\s*(.*?)\s*Valor:\s*R?\$?\s*([0-9\.,]+)" 2)
      as (r & Hc & Hs); [by vm_compute |].
    unfold re_search. rewrite Hc. eexists. split; [done |].
    destruct (Re.search Re.IGNORECASE_DOTALL r block) as [m |] eqn:E; [| by eexists].
    destruct (search_group _ _ _ _ 1%nat E) as [g1 Hg1]; [apply Hs; lia |].
    unfold group_str. rewrite Hg1, bind_ret.
    destruct (parse_br_number_total (Re.group m 2)) as [v ->]. by eexists. }
  exists numero, nome, codigo, cliente, pedido, cidade, pt, peso, endereco, tt, total,
    dm, forma, valor.
  split_and!; try done. intros header. unfold parse_block.
  rewrite Hn, bind_ret, Hnome, bind_ret.
  lazymatch goal with
  | |- context [@mbind _ _ (prod str str) _ _ ?X] =>
      replace X with (Ret (codigo, cliente)) by (symmetry; exact Hcn)
  end.
  rewrite bind_ret.
  rewrite Hpe, bind_ret, Hci, bind_ret, Hpt, bind_ret, Hpeso, bind_ret.
  rewrite Hen, bind_ret, Htt, bind_ret, Htotal, bind_ret.
  rewrite Hdm, bind_ret.
  lazymatch goal with
  | |- context [@mbind _ _ (prod str (option spec_float)) _ _ ?X] =>
      replace X with (Ret (forma, valor)) by (symmetry; exact Hfv)
  end.
  by rewrite bind_ret.
Qed.

Lemma parse_block_items (block : str) :
  ∃ items : list (string * pyval),
    items.*1 = BLOCK_KEYS
    ∧ ∀ header, parse_block block header = Ret (fill_missing (dict_update header items)).
Proof.
  destruct (parse_block_fields block)
    as (numero & nome & codigo & cliente & pedido & cidade & pt & peso & endereco
        & tt & total & dm & forma & valor & _ & _ & _ & _ & _ & _ & _ & _ & _ & _ & _ & _ & H).
  eexists. split; [| exact H]. done.
Qed.

Lemma dict_update_dom (items : list (string * pyval)) : ∀ d : dict,
  dom (dict_update d items) = dom d ∪ list_to_set items.*1.
Proof.
  unfold dict_update. induction items as [| [k v] items IH]; intros d; simpl.
  - by rewrite (right_id_L ∅ (∪)).
  - rewrite IH, dom_insert_L. apply set_eq. intros x.
    rewrite !elem_of_union. tauto.
Qed.

Lemma dict_update_same (items : list (string * pyval)) k : ∀ d d' : dict,
  k ∈ items.*1 → dict_update d items !! k = dict_update d' items !! k.
Proof.
  unfold dict_update. induction items as [| [k' v] items IH]; intros d d' Hk.
  - by apply elem_of_nil in Hk.
  - cbn [foldl fst snd]. destruct (decide (k ∈ items.*1)) as [Hin | Hout].
    + by apply IH.
    + simpl in Hk. apply elem_of_cons in Hk as [-> | ?]; [| done].
      fold (dict_update (<[k' := v]> d) items). fold (dict_update (<[k' := v]> d') items).
      rewrite !dict_update_other by done. by rewrite !lookup_insert_eq.
Qed.

Lemma dict_update_is_Some (items : list (string * pyval)) k : ∀ d : dict,
  k ∈ items.*1 → is_Some (dict_update d items !! k).
Proof.
  intros d Hk. rewrite <- elem_of_dom, dict_update_dom. apply elem_of_union_r.
  by apply elem_of_list_to_set.
Qed.

(** ** What [find] returns *)

Section LastGroup.

Import Re ReSpec.

Variables (fl : flags) (text : str).

(** The last group of a match: what it holds and where. *)
Lemma run_ends_group r n a lo hi g :
  ends_group r = Some (n, a, lo, hi, g) →
  ∀ st st', run fl r st Some = Some st' → at_text text st →
    ∃ cs st1,
      at_text text st1
      ∧ m_rest st1 = cs ++ m_rest st'
      ∧ Forall (fun c => atom_match fl a c = true) cs
      ∧ (lo ≤ length cs)%nat
      ∧ match hi with Some h => (length cs ≤ h)%nat | None => True end
      ∧ m_pos st' = (m_pos st1 + length cs)%nat
      ∧ m_marks st' = (n, (m_pos st1, m_pos st')) :: m_marks st1
      ∧ (g = true → hi = None → stops (atom_match fl a) (m_rest st')).
Proof.
  induction r as [| b | b lo' hi' g' | r1 _ r2 IH2 | r1 _ r2 _ | i r _ | |];
    intros He st st' H Hat; simpl in He; try done.
  - cbn [run] in H. apply run_sound in H as (mid & Hd & H).
    apply (IH2 He mid st' H). by eapply den_at_text.
  - destruct r as [| | b lo' hi' g' | | | | |]; try done. simplify_eq.
    cbn [run] in H. destruct g.
    + destruct hi as [h |].
      * apply repeat_greedy_sound in H as (cs & rest' & Hr & Hcs & Hlo & Hhi & H).
        simplify_eq. exists cs, st. simpl. split_and!; try done.
      * apply repeat_greedy_longest in H as (cs & rest' & Hr & Hcs & Hlo & Hend & H);
          [| by eexists].
        simplify_eq. exists cs, st. simpl. split_and!; try done.
    + apply repeat_lazy_sound in H as (cs & rest' & Hr & Hcs & Hlo & Hhi & H).
      simplify_eq. exists cs, st. simpl. split_and!; try done.
Qed.

Lemma search_ends_group r n a lo hi g m :
  ends_group r = Some (S n, a, lo, hi, g) →
  search fl r text = Some m →
  ∃ before cs tail,
    text = before ++ cs ++ tail
    ∧ group m (S n) = Some cs
    ∧ Forall (fun c => atom_match fl a c = true) cs
    ∧ (lo ≤ length cs)%nat
    ∧ match hi with Some h => (length cs ≤ h)%nat | None => True end
    ∧ (g = true → hi = None → stops (atom_match fl a) tail).
Proof.
  intros He H. unfold search in H.
  apply search_from_sound in H as (pos & Hp & Hm); [| done | lia].
  unfold match_at in Hm.
  destruct (run fl r (MState pos (drop pos text) []) Some) as [st' |] eqn:Er; [| done].
  simpl in Hm. injection Hm as <-.
  apply (run_ends_group r (S n) a lo hi g He) in Er
    as (cs & st1 & [Hd1 Hl1] & Hr & Hcs & Hlo & Hhi & Hpos & Hmk & Hend); [| split; simpl; [done | lia]].
  exists (take (m_pos st1) text), cs, (m_rest st'). split_and!; try done.
  - rewrite <- Hr, <- Hd1. by rewrite take_drop.
  - unfold group, span. cbn [mo_marks mo_string]. rewrite Hmk. cbn [lookup_mark].
    rewrite Nat.eqb_refl. cbn [mbind option_bind]. f_equal.
    unfold slice. rewrite Hd1, Hr, Hpos.
    replace (m_pos st1 + length cs - m_pos st1)%nat with (length cs) by lia.
    apply take_exact.
Qed.

End LastGroup.

(** [find] with a pattern that ends with its first group: the stripped
    text of a piece of the subject made of the characters of the group. *)
Lemma find_shape subject pattern a lo hi g :
  pattern_ends pattern = Some (1%nat, a, lo, hi, g) →
  ∃ s, find subject pattern = Ret s
    ∧ (s = [] ∨
       ∃ before cs tail,
         subject = before ++ cs ++ tail ∧ s = strip cs
         ∧ Forall (fun c => Re.atom_match Re.IGNORECASE a c = true) cs
         ∧ (lo ≤ length cs)%nat
         ∧ match hi with Some h => (length cs ≤ h)%nat | None => True end
         ∧ (g = true → hi = None → stops (Re.atom_match Re.IGNORECASE a) tail)).
Proof.
  unfold pattern_ends. intros H.
  destruct (Re.compile pattern) as [r |] eqn:Hc; [| done]. simpl in H.
  unfold find, re_search. rewrite Hc, bind_ret.
  destruct (Re.search Re.IGNORECASE r subject) as [m |] eqn:E; [| exists []; by split; [| left]].
  destruct (search_ends_group _ _ _ _ _ _ _ _ _ H E)
    as (before & cs & tail & Hs & Hg & Hcs & Hlo & Hhi & Hend).
  unfold group_str. rewrite Hg, bind_ret. exists (strip cs). split; [done |].
  right. by exists before, cs, tail.
Qed.

(** *** The character sets *)

Lemma atom_date_char fl c : Re.atom_match fl DATE_CHAR c = date_char c.
Proof.
  unfold Re.atom_match, DATE_CHAR, date_char.
  replace (existsb Re.item_hascased [Re.CDigit; Re.CLit 47]) with false by reflexivity.
  rewrite andb_false_r. simpl. by rewrite orb_false_r.
Qed.

Lemma atom_number_char fl c : Re.atom_match fl NUMBER_CHAR c = number_char c.
Proof.
  unfold Re.atom_match, NUMBER_CHAR, number_char.
  replace (existsb Re.item_hascased [Re.CRange 48 57; Re.CLit 46; Re.CLit 44])
    with false by (vm_compute; reflexivity).
  rewrite andb_false_r. simpl. by rewrite orb_false_r, orb_assoc.
Qed.

Lemma atom_line_char fl c : Re.atom_match fl LINE_CHAR c = line_char c.
Proof.
  unfold Re.atom_match, LINE_CHAR, line_char.
  replace (existsb Re.item_hascased [Re.CLit 10]) with false by reflexivity.
  rewrite andb_false_r. simpl. by rewrite orb_false_r.
Qed.

Lemma date_char_nonspace c : date_char c = true → Unicode.isspace c = false.
Proof.
  unfold date_char. intros H. apply orb_true_iff in H as [H | H].
  - by apply decimal_not_space.
  - apply N.eqb_eq in H. by subst.
Qed.

Lemma number_char_nonspace c : number_char c = true → Unicode.isspace c = false.
Proof.
  unfold number_char. intros H.
  destruct (Unicode.isspace c) eqn:E; [| done]. exfalso.
  apply isspace_in in E. revert H.
  repeat (destruct E as [<- | E]; [by vm_compute |]). done.
Qed.

(** A string without white space is its own strip. *)
Lemma strip_nospace (s : str) :
  Forall (fun c => Unicode.isspace c = false) s → strip s = s.
Proof.
  intros H. destruct s as [| c t]; [done |].
  destruct (last (c :: t)) as [d |] eqn:E; [| by apply last_None in E].
  apply (strip_id _ c d t); try done.
  - by apply Forall_cons in H as [? _].
  - apply last_Some_elem_of in E. rewrite Forall_forall in H. by apply H.
Qed.

(** A piece of a stripped string is still a string of the same
    characters. *)
Lemma Forall_strip (P : char → Prop) (s : str) : Forall P s → Forall P (strip s).
Proof.
  intros H. destruct (strip_split s) as (ws1 & ws2 & Hs & _ & _).
  rewrite Hs in H. apply Forall_app in H as [_ H]. by apply Forall_app in H as [H _].
Qed.

(** ** The shapes of the fields *)

(** A field read to the end of its line. *)
Lemma find_line subject pattern :
  pattern_ends pattern = Some (1%nat, LINE_CHAR, 1%nat, None, true) →
  ∃ s, find subject pattern = Ret s ∧ rest_of_line subject s.
Proof.
  intros H. destruct (find_shape subject pattern _ _ _ _ H) as (s & Hf & Hs).
  exists s. split; [done |].
  destruct Hs as [-> | (before & cs & tail & Hsub & -> & Hcs & Hlo & _ & Hend)]; [by left |].
  right. exists before, cs, tail. split_and!; try done.
  - intros ->. simpl in Hlo. lia.
  - eapply Forall_impl; [exact Hcs |]. intros c Hc. cbn beta in Hc.
    rewrite atom_line_char in Hc. unfold line_char in Hc.
    intros ->. done.
  - destruct (Hend eq_refl eq_refl) as [-> | (c & t & -> & Hc)]; [by left | right].
    rewrite atom_line_char in Hc. unfold line_char in Hc.
    apply negb_false_iff, N.eqb_eq in Hc. subst c. by exists t.
Qed.

(** A date field: eight to ten digits and slashes. *)
Lemma find_date subject pattern :
  pattern_ends pattern = Some (1%nat, DATE_CHAR, 8%nat, Some 10%nat, true) →
  ∃ s, find subject pattern = Ret s
       ∧ (s = [] ∨ (token_of date_char subject s ∧ (8 ≤ length s ≤ 10)%nat)).
Proof.
  intros H. destruct (find_shape subject pattern _ _ _ _ H) as (s & Hf & Hs).
  exists s. split; [done |].
  destruct Hs as [-> | (before & cs & tail & Hsub & -> & Hcs & Hlo & Hhi & _)]; [by left |].
  right.
  assert (Forall (fun c => date_char c = true) cs) as Hd.
  { eapply Forall_impl; [exact Hcs |]. intros c Hc. cbn beta in Hc.
    by rewrite atom_date_char in Hc. }
  rewrite strip_nospace.
  - split; [by exists before, tail | lia].
  - eapply Forall_impl; [exact Hd |]. intros c. apply date_char_nonspace.
Qed.

(** A number token: digits, dots and commas, as many as stand there. *)
Lemma find_number subject pattern :
  pattern_ends pattern = Some (1%nat, NUMBER_CHAR, 1%nat, None, true) →
  ∃ s, find subject pattern = Ret s
       ∧ (s = [] ∨
          ∃ before tail, subject = before ++ s ++ tail ∧ s ≠ []
            ∧ Forall (fun c => number_char c = true) s ∧ stops number_char tail).
Proof.
  intros H. destruct (find_shape subject pattern _ _ _ _ H) as (s & Hf & Hs).
  exists s. split; [done |].
  destruct Hs as [-> | (before & cs & tail & Hsub & -> & Hcs & Hlo & _ & Hend)]; [by left |].
  right.
  assert (Forall (fun c => number_char c = true) cs) as Hd.
  { eapply Forall_impl; [exact Hcs |]. intros c Hc. cbn beta in Hc.
    by rewrite atom_number_char in Hc. }
  rewrite strip_nospace.
  - exists before, tail. split_and!; try done.
    + intros ->. simpl in Hlo. lia.
    + destruct (Hend eq_refl eq_refl) as [-> | (c & t & -> & Hc)]; [by left | right].
      exists c, t. split; [done |]. by rewrite atom_number_char in Hc.
  - eapply Forall_impl; [exact Hd |]. intros c. apply number_char_nonspace.
Qed.

(** *** The route line *)

Lemma atom_route_char c : Re.atom_match Re.NOFLAGS ROUTE_CHAR c = route_char c.
Proof.
  unfold Re.atom_match, ROUTE_CHAR, route_char.
  cbn [Re.ignorecase Re.NOFLAGS andb xorb existsb Re.item_match].
  by rewrite orb_false_r, !orb_assoc.
Qed.

Lemma route_match (line : str) (m : Re.match_obj) :
  re_match "^\d{2,4}\s+[A-Za-zÀ-ÿ0-9 .,\-()]+$" line Re.NOFLAGS = Ret (Some m) →
  ∃ ds ws name tail,
    line = ds ++ ws ++ name ++ tail ∧ digits ds ∧ (2 ≤ length ds ≤ 4)%nat
    ∧ spaces ws ∧ ws ≠ [] ∧ name ≠ [] ∧ Forall (fun c => route_char c = true) name
    ∧ (tail = [] ∨ tail = [LF]).
Proof.
  unfold re_match.
  destruct (Re.compile "^\d{2,4}\s+[A-Za-zÀ-ÿ0-9 .,\-()]+$") as [r |] eqn:Hc;
    [| by vm_compute in Hc].
  vm_compute in Hc. injection Hc as <-. intros H. apply Ret_inj in H.
  apply match_sound in H as (st' & Hd & _).
  apply den_seq in Hd as (st0 & [-> _] & Hd).
  apply den_seq in Hd as (st1 & H1 & Hd).
  apply den_seq in Hd as (st2 & H2 & Hd).
  apply den_seq in Hd as (st3 & H3 & [-> Hend]).
  apply den_digits in H1 as (ds & Hr1 & Hds & Hlo1 & Hhi1 & _).
  apply den_spaces in H2 as (ws & Hr2 & Hws & Hlo2 & _).
  destruct H3 as (name & Hr3 & Hname & Hlo3 & _).
  simpl in Hr1. cbn beta iota in Hhi1. exists ds, ws, name, (Re.m_rest st3).
  assert (line = ds ++ ws ++ name ++ Re.m_rest st3) as Hline
    by (by rewrite Hr1, Hr2, Hr3).
  assert (ws ≠ []) as Hne by (intros ->; simpl in Hlo2; lia).
  assert (name ≠ []) as Hnn by (intros ->; simpl in Hlo3; lia).
  assert (Forall (fun c => route_char c = true) name) as Hrc.
  { eapply Forall_impl; [exact Hname |]. intros c Hc. cbn beta in Hc.
    by rewrite <- atom_route_char. }
  split_and!; try done; lia.
Qed.

(** The loop over the lines returns the first line that is a route
    line, or the empty string. *)
Lemma first_rota_shape (lines : list str) :
  Forall (fun line => strip line = line) lines →
  ∃ rota, first_rota lines = Ret rota
          ∧ (rota = [] ∨ (rota ∈ lines ∧ route_line rota)).
Proof.
  induction lines as [| line lines IH]; intros HF; [exists []; by split; [| left] |].
  apply Forall_cons in HF as [Hl HF]. cbn [first_rota].
  destruct (re_match "^\d{2,4}\s+[A-Za-zÀ-ÿ0-9 .,\-()]+$" line Re.NOFLAGS)
    as [[m |] | e] eqn:E.
  - rewrite bind_ret. exists line. split; [done |]. right. split; [apply list_elem_of_here |].
    apply route_match in E
      as (ds & ws & name & tail & Hline & Hds & Hlen & Hws & Hne & Hnn & Hname & Htail).
    assert (line = ds ++ ws ++ name) as Heq.
    { destruct Htail as [-> | ->]; [by rewrite app_nil_r in Hline |]. exfalso.
      destruct (strip_ends line) as [Hnil | (c & t & d & _ & Hlast & _ & Hd)].
      - rewrite Hl in Hnil. rewrite Hnil in Hline. by destruct ds, ws.
      - rewrite Hl in Hlast. rewrite Hline, !app_assoc, last_snoc in Hlast.
        injection Hlast as <-. done. }
    exists ds, ws, name. split_and!; try done; lia.
  - rewrite bind_ret. destruct (IH HF) as (rota & Hr & Hs). exists rota. split; [done |].
    destruct Hs as [-> | [Hin Hroute]]; [by left | right].
    split; [by apply list_elem_of_further | done].
  - exfalso. unfold re_match in E.
    destruct (Re.compile "^\d{2,4}\s+[A-Za-zÀ-ÿ0-9 .,\-()]+$") eqn:Hc; [done |].
    by vm_compute in Hc.
Qed.

(** The header of a text, field by field. *)
Lemma header_fields (text : str) :
  ∃ rota data_emissao data_previsao motorista veiculo carga,
    extract_header_fields text =
      Ret (dict_update ∅
             [ ("rota", PStr rota);
               ("data_emissao", PStr data_emissao);
               ("data_previsao", PStr data_previsao);
               ("motorista", PStr motorista);
               ("veiculo", PStr veiculo);
               ("carga", PStr carga) ])
    ∧ (rota = [] ∨
       ((∃ line, line ∈ splitlines text ∧ rota = strip line) ∧ route_line rota))
    ∧ (data_emissao = [] ∨
       (token_of date_char text data_emissao ∧ (8 ≤ length data_emissao ≤ 10)%nat))
    ∧ (data_previsao = [] ∨
       (token_of date_char text data_previsao ∧ (8 ≤ length data_previsao ≤ 10)%nat))
    ∧ rest_of_line text motorista
    ∧ rest_of_line text veiculo
    ∧ (carga = [] ∨
       ∃ before tail, text = before ++ carga ++ tail ∧ carga ≠ []
         ∧ Forall (fun c => number_char c = true) carga ∧ stops number_char tail).
Proof.
  unfold extract_header_fields.
  set (lines := map strip (List.filter (fun line => nonempty (strip line)) (splitlines text))).
  destruct (first_rota_shape lines) as (rota & -> & Hrota).
  { unfold lines. rewrite Forall_map. apply Forall_forall. intros l _. apply strip_strip. }
  destruct (find_date text "Emiss[aã]o:\s*([\d/]{8,10})") as (e & -> & He);
    [by vm_compute |].
  destruct (find_date text "Previs[aã]o:\s*([\d/]{8,10})") as (p & -> & Hp);
    [by vm_compute |].
  destruct (find_line text "Motorista:\s*([^\n]+)") as (m & -> & Hm); [by vm_compute |].
  destruct (find_line text "Ve[ií]culo:\s*([^\n]+)") as (v & -> & Hv); [by vm_compute |].
  destruct (find_number text "Carga[:\s]+([0-9\.,]+)") as (c & -> & Hca); [by vm_compute |].
  rewrite !bind_ret. exists rota, e, p, m, v, c. split_and!; try done.
  destruct Hrota as [-> | [Hin Hroute]]; [by left | right]. split; [| done].
  unfold lines in Hin. apply list_elem_of_fmap in Hin as (line & -> & Hin).
  exists line. split; [| done].
  apply list_elem_of_In, filter_In in Hin as [Hin _]. by apply list_elem_of_In.
Qed.

(** ** The customer's code and name *)

Lemma compile_code_rx : Re.compile "(\d+)\s*-\s*(.+)" = Some code_rx.
Proof. reflexivity. Qed.

(** What a match of the pattern of the name line looks like, and the
    two groups it has. *)
Lemma code_match (nome : str) (m : Re.match_obj) :
  Re.match_ Re.NOFLAGS code_rx nome = Some m →
  ∃ ds w1 w2 g tail,
    nome = ds ++ w1 ++ HYPHEN :: w2 ++ g ++ tail
    ∧ digits ds ∧ ds ≠ [] ∧ spaces w1 ∧ spaces w2 ∧ g ≠ []
    ∧ (tail = [] ∨ ∃ t, tail = LF :: t)
    ∧ Re.group m 1 = Some ds ∧ Re.group m 2 = Some g.
Proof.
  unfold Re.match_, Re.match_at. intros H.
  destruct (Re.run Re.NOFLAGS code_rx (Re.MState 0 nome []) Some) as [st' |] eqn:Er; [| done].
  simpl in H. injection H as <-.
  pose proof (run_ends_group Re.NOFLAGS nome code_rx 2 Re.AAny 1 None true eq_refl _ _ Er)
    as (cs & st1 & _ & _ & _ & _ & _ & _ & _ & Hend); [split; simpl; [done | lia] |].
  specialize (Hend eq_refl eq_refl).
  apply run_sound in Er as (st'' & Hd & [= ->]).
  unfold code_rx in Hd.
  apply den_seq in Hd as (s1 & H1 & Hd).
  apply den_group in H1 as (s1' & H1 & ->).
  apply den_digits in H1 as (ds & Hr1 & Hds & Hlo1 & _ & Hp1 & Hm1).
  apply den_seq in Hd as (s2 & H2 & Hd).
  apply den_spaces in H2 as (w1 & Hr2 & Hw1 & _ & Hp2 & Hm2).
  apply den_seq in Hd as (s3 & H3 & Hd).
  apply den_uncased in H3 as (Hr3 & Hp3 & Hm3); [| done].
  apply den_seq in Hd as (s4 & H4 & Hd).
  apply den_spaces in H4 as (w2 & Hr4 & Hw2 & _ & Hp4 & Hm4).
  apply den_group in Hd as (s5 & H5 & ->).
  destruct H5 as (g & Hr5 & _ & Hlo5 & _ & Hp5 & Hm5).
  cbn [Re.m_pos Re.m_rest Re.m_marks] in *.
  assert (nome = ds ++ w1 ++ HYPHEN :: w2 ++ g ++ Re.m_rest s5) as Hn
    by (by rewrite Hr1, Hr2, Hr3, Hr4, Hr5).
  exists ds, w1, w2, g, (Re.m_rest s5). split_and!; try done.
  - intros ->. simpl in Hlo1. lia.
  - intros ->. simpl in Hlo5. lia.
  - destruct Hend as [-> | (c & t & -> & Hc)]; [by left | right].
    cbn in Hc. apply negb_false_iff, N.eqb_eq in Hc. subst c. by exists t.
  - unfold Re.group, Re.span. cbn [Re.mo_marks Re.mo_string].
    rewrite Hm5, Hm4, Hm3, Hm2. cbn [Re.lookup_mark Nat.eqb mbind option_bind].
    f_equal. unfold slice. rewrite drop_0, Hp1, Nat.sub_0_r. simpl.
    rewrite Hn. apply take_exact.
  - unfold Re.group, Re.span. cbn [Re.mo_marks Re.mo_string].
    cbn [Re.lookup_mark Nat.eqb mbind option_bind].
    f_equal. unfold slice. rewrite Hp5.
    replace (Re.m_pos s4 + length g - Re.m_pos s4)%nat with (length g) by lia.
    assert (drop (Re.m_pos s4) nome = g ++ Re.m_rest s5) as ->; [| apply take_exact].
    rewrite Hp4, Hp3, Hp2, Hp1. simpl.
    rewrite Hn.
    replace (ds ++ w1 ++ HYPHEN :: w2 ++ g ++ Re.m_rest s5)
      with ((ds ++ w1 ++ HYPHEN :: w2) ++ g ++ Re.m_rest s5)
      by (by rewrite <- !app_assoc).
    replace (S (length ds + length w1 + length w2))%nat
      with (length (ds ++ w1 ++ HYPHEN :: w2))
      by (rewrite !length_app; simpl; lia).
    by rewrite drop_app_length.
Qed.

(** A stripped line without line feed, cut by the pattern of the name
    line: the code, the hyphen with the white space around it, and the
    name. *)
Lemma split_nome (nome codigo cliente : str) :
  Forall (fun c => c ≠ LF) nome → strip nome = nome →
  match nome with
  | [] => Ret ([], [])
  | _ =>
      code_match ← re_match "(\d+)\s*-\s*(.+)" nome Re.NOFLAGS;
      match code_match with
      | Some m =>
          g1 ← group_str m 1;
          g2 ← group_str m 2;
          Ret (strip g1, strip g2)
      | None => Ret ([], nome)
      end
  end = Ret (codigo, cliente) →
  (codigo = [] ∧ cliente = nome)
  ∨ (∃ w1 w2,
       nome = codigo ++ w1 ++ HYPHEN :: w2 ++ cliente
       ∧ digits codigo ∧ codigo ≠ [] ∧ spaces w1 ∧ spaces w2
       ∧ cliente ≠ [] ∧ strip cliente = cliente).
Proof.
  intros Hlf Hstrip H. destruct nome as [| c0 t0] eqn:En; [left; by simplify_eq |].
  rewrite <- En in *. unfold re_match in H. rewrite compile_code_rx, bind_ret in H.
  destruct (Re.match_ Re.NOFLAGS code_rx nome) as [m |] eqn:E;
    [| left; by simplify_eq].
  right. apply code_match in E
    as (ds & w1 & w2 & g & tail & Hn & Hds & Hne & Hw1 & Hw2 & Hg & Htail & Hg1 & Hg2).
  unfold group_str in H. rewrite Hg1, Hg2, !bind_ret in H. apply Ret_inj in H.
  injection H as <- <-.
  assert (tail = []) as ->.
  { destruct Htail as [-> | [t ->]]; [done |]. exfalso.
    rewrite Hn in Hlf. rewrite !Forall_app in Hlf.
    destruct Hlf as (_ & _ & Hlf). apply Forall_cons in Hlf as [_ Hlf].
    rewrite !Forall_app in Hlf. destruct Hlf as (_ & _ & Hlf).
    by apply Forall_cons in Hlf as [? _]. }
  rewrite app_nil_r in Hn.
  assert (strip ds = ds) as Hsd.
  { apply strip_nospace. eapply Forall_impl; [exact Hds |]. intros c. apply decimal_not_space. }
  destruct (strip_split g) as (w3 & w4 & Hgs & Hw3 & Hw4).
  destruct (strip_ends nome) as [Hnil | (c & t & d & _ & Hlast & _ & Hd)];
    [by rewrite Hstrip, En in Hnil |].
  rewrite Hstrip in Hlast.
  assert (last g = Some d) as Hlg.
  { rewrite Hn in Hlast.
    replace (ds ++ w1 ++ HYPHEN :: w2 ++ g) with ((ds ++ w1 ++ HYPHEN :: w2) ++ g) in Hlast
      by (by rewrite <- !app_assoc).
    rewrite last_app in Hlast. destruct (last g) eqn:Eg; [done |].
    apply last_None in Eg. done. }
  assert (w4 = []) as ->.
  { destruct w4 as [| x w4' _] using rev_ind; [done |]. exfalso.
    rewrite Hgs, !app_assoc, last_snoc in Hlg. injection Hlg as ->.
    apply Forall_app in Hw4 as [_ Hx]. apply Forall_cons in Hx as [Hx _]. congruence. }
  rewrite app_nil_r in Hgs.
  assert (strip g ≠ []) as Hsg.
  { intros Hnil. apply strip_nil in Hnil.
    apply last_Some_elem_of in Hlg. unfold spaces in Hnil. rewrite Forall_forall in Hnil.
    apply Hnil in Hlg. congruence. }
  exists w1, (w2 ++ w3). rewrite Hsd. split_and!; try done.
  - rewrite Hn. rewrite Hgs at 1. by rewrite <- !app_assoc.
  - by apply Forall_app.
  - apply strip_strip.
Qed.

(** *** The fields of a block *)

Lemma code_pattern_line (block : str) (nome : str) :
  find block "Nome:\s*([^\n]+)" = Ret nome →
  Forall (fun c => c ≠ LF) nome ∧ strip nome = nome ∧ rest_of_line block nome.
Proof.
  intros H. destruct (find_line block "Nome:\s*([^\n]+)") as (s & Hf & Hs);
    [by vm_compute |].
  rewrite H in Hf. apply Ret_inj in Hf. subst s. split_and!; [| | done].
  - destruct Hs as [-> | (before & cs & tail & _ & -> & _ & Hcs & _)]; [constructor |].
    by apply Forall_strip.
  - destruct Hs as [-> | (before & cs & tail & _ & -> & _)]; [done |]. apply strip_strip.
Qed.

(** ** Numbers *)

(** *** Rounding keeps the sign *)

Section Rounding.

Local Open Scope Z_scope.

Lemma iter_pos_inv {A} (P : A → Prop) (f : A → A) :
  (∀ x, P x → P (f x)) → ∀ n x, P x → P (SpecFloat.iter_pos f n x).
Proof.
  intros Hf. induction n as [n IH | n IH |]; intros x Hx; simpl.
  - apply IH, IH, Hf, Hx.
  - apply IH, IH, Hx.
  - apply Hf, Hx.
Qed.

Lemma shr_1_nonneg mrs : 0 ≤ shr_m mrs → 0 ≤ shr_m (shr_1 mrs).
Proof.
  destruct mrs as [m r s]. simpl. intros H.
  destruct m as [| [p | p |] | p]; simpl; lia.
Qed.

Lemma shr_fexp_nonneg prec emax m e l :
  0 ≤ m → 0 ≤ shr_m (shr_fexp prec emax m e l).1.
Proof.
  intros H. unfold shr_fexp, shr.
  assert (0 ≤ shr_m (shr_record_of_loc m l)) as H0.
  { destruct l as [| []]; simpl; lia. }
  destruct (fexp prec emax (Zdigits2 m + e) - e) as [| p | p]; simpl; try done.
  by apply (iter_pos_inv (fun mrs => 0 ≤ shr_m mrs) shr_1 shr_1_nonneg).
Qed.

Lemma round_nearest_even_nonneg m l : 0 ≤ m → 0 ≤ round_nearest_even m l.
Proof.
  intros H. unfold round_nearest_even.
  destruct l as [| []]; try lia. destruct (Z.even m); lia.
Qed.

Lemma binary_round_aux_nonnegative prec emax m e l :
  0 ≤ m → nonnegative (binary_round_aux prec emax false m e l).
Proof.
  intros H. unfold binary_round_aux.
  pose proof (shr_fexp_nonneg prec emax m e l H) as H1.
  destruct (shr_fexp prec emax m e l) as [mrs' e'] eqn:E1. simpl in H1.
  pose proof (shr_fexp_nonneg prec emax
                (round_nearest_even (shr_m mrs') (loc_of_shr_record mrs')) e' loc_Exact
                (round_nearest_even_nonneg _ _ H1)) as H2.
  destruct (shr_fexp prec emax _ e' loc_Exact) as [mrs'' e''] eqn:E2. simpl in H2.
  destruct (shr_m mrs'') as [| p | p]; [done | | lia].
  by destruct (e'' <=? emax - prec).
Qed.

Lemma of_decimal_nonnegative m e : 0 ≤ m → nonnegative (PyFloat.of_decimal false m e).
Proof.
  intros H. unfold PyFloat.of_decimal. destruct m as [| p | p]; [done | | lia].
  destruct (0 <=? e) eqn:Ee.
  - simpl. pose proof (Z.pow_pos_nonneg 10 e) as Hpow.
    apply Z.leb_le in Ee.
    destruct (Z.pos p * 10 ^ e) as [| q | q] eqn:Eq; [done | | lia].
    unfold binary_normalize, binary_round.
    destruct (shl_align _ _ _) as [mz ez].
    apply binary_round_aux_nonnegative. lia.
  - destruct (SFdiv_core_binary _ _ _ _ _ _) as [[q e'] l] eqn:Ed.
    apply binary_round_aux_nonnegative.
    unfold SFdiv_core_binary in Ed.
    destruct (Z.div_eucl _ _) as [q' r'] eqn:Eq in Ed. injection Ed as <- _ _.
    apply Z.leb_gt in Ee.
    assert (0 < 10 ^ (- e)) as Hpos by (apply Z.pow_pos_nonneg; lia).
    match type of Eq with
    | Z.div_eucl ?a ?b = _ =>
        assert (0 ≤ a) as Ha;
        [| pose proof (Z.div_pos a b Ha Hpos) as Hq; unfold Z.div in Hq;
           rewrite Eq in Hq; exact Hq]
    end.
    destruct (_ - _ - _) as [| s | s]; try lia.
    apply Z.shiftl_nonneg. lia.
Qed.

End Rounding.

(** *** [float()] on digits and dots *)

Section Float.

Import PyFloat.

Lemma dotted_ascii (s : str) : dotted s → Forall (fun c => c < 127) s.
Proof.
  intros H0. eapply Forall_impl; [exact H0 |]. intros c H. cbn beta in H.
  unfold is_digit in H.
  apply orb_true_iff in H as [H | H].
  - apply andb_true_iff in H as [_ H]. apply N.leb_le in H. lia.
  - apply N.eqb_eq in H. lia.
Qed.

Lemma transform_ascii (s : str) :
  Forall (fun c => c < 127) s → transform_decimal_and_space_to_ascii s = s.
Proof.
  induction 1 as [| c s Hc _ IH]; [done |]. simpl.
  apply N.ltb_lt in Hc. by rewrite Hc, IH.
Qed.

Lemma lstrip_ascii_id (s : str) :
  Forall (fun c => isspace_ascii c = false) s → lstrip_ascii s = s.
Proof. destruct 1 as [| c s Hc _]; [done |]. simpl. by rewrite Hc. Qed.

Lemma strip_ascii_id (s : str) :
  Forall (fun c => isspace_ascii c = false) s → strip_ascii s = s.
Proof.
  intros H. unfold strip_ascii.
  rewrite (lstrip_ascii_id (rev s)).
  - rewrite rev_involutive. by apply lstrip_ascii_id.
  - apply Forall_forall. intros c Hc. rewrite Forall_forall in H. apply H.
    apply list_elem_of_In. apply list_elem_of_In in Hc. by apply in_rev.
Qed.

Lemma dotted_not_space (s : str) : dotted s → Forall (fun c => isspace_ascii c = false) s.
Proof.
  intros H0. eapply Forall_impl; [exact H0 |]. intros c H. cbn beta in H.
  unfold is_digit in H. unfold isspace_ascii.
  apply orb_true_iff in H as [H | H].
  - apply andb_true_iff in H as [H1 H2]. apply N.leb_le in H1.
    apply orb_false_iff. split.
    + apply andb_false_iff. right. apply N.leb_gt. lia.
    + apply N.eqb_neq. lia.
  - apply N.eqb_eq in H. subst c. reflexivity.
Qed.

Lemma remove_underscores_id (s : str) : ∀ prev,
  Forall (fun c => c ≠ 95) s → prev ≠ 95 → remove_underscores s prev = Some s.
Proof.
  induction s as [| c s IH]; intros prev Hs Hp; simpl.
  - apply N.eqb_neq in Hp. by rewrite Hp.
  - apply Forall_cons in Hs as [Hc Hs].
    apply N.eqb_neq in Hp. rewrite Hp. pose proof Hc as Hc'. apply N.eqb_neq in Hc'.
    rewrite Hc'. simpl. by rewrite IH.
Qed.

Lemma dotted_no_underscore (s : str) : dotted s → Forall (fun c => c ≠ 95) s.
Proof.
  intros H0. eapply Forall_impl; [exact H0 |]. intros c H ->. by vm_compute in H.
Qed.

Lemma span_digits_spec (s : str) :
  ∃ ds rest, span_digits s = (ds, rest) ∧ s = ds ++ rest
    ∧ Forall (fun c => is_digit c = true) ds
    ∧ (rest = [] ∨ ∃ c t, rest = c :: t ∧ is_digit c = false).
Proof.
  induction s as [| c s (ds & rest & IH & Hs & Hd & Hr)]; simpl.
  - exists [], []. split_and!; try done. by left.
  - destruct (is_digit c) eqn:E.
    + rewrite IH. exists (c :: ds), rest. split_and!; try done.
      * by rewrite Hs.
      * by constructor.
    + exists [], (c :: s). split_and!; try done. right. by exists c, s.
Qed.

Lemma span_digits_run (ds rest : str) :
  Forall (fun c => is_digit c = true) ds →
  (rest = [] ∨ ∃ c t, rest = c :: t ∧ is_digit c = false) →
  span_digits (ds ++ rest) = (ds, rest).
Proof.
  intros Hd Hr. induction Hd as [| c ds Hc _ IH]; simpl.
  - destruct Hr as [-> | (c & t & -> & Hc)]; [done |]. simpl. by rewrite Hc.
  - by rewrite Hc, IH.
Qed.

Lemma digits_value_nonneg (ds : str) : ∀ acc,
  Forall (fun c => is_digit c = true) ds → (0 ≤ acc)%Z → (0 ≤ digits_value ds acc)%Z.
Proof.
  induction ds as [| d ds IH]; intros acc Hd Ha; simpl; [done |].
  apply Forall_cons in Hd as [Hc Hd]. apply IH; [done |].
  unfold is_digit in Hc. apply andb_true_iff in Hc as [Hc _]. apply N.leb_le in Hc. lia.
Qed.

(** The number read from a string is the value of digits. *)
Lemma parse_decimal_nonneg (s : str) m e rest :
  parse_decimal s = Some (m, e, rest) → (0 ≤ m)%Z.
Proof.
  unfold parse_decimal.
  destruct (span_digits_spec s) as (ip & s1 & -> & _ & Hip & _).
  assert (∃ fp s2, match s1 with
                   | 46 :: t => span_digits t
                   | _ => ([], s1)
                   end = (fp, s2) ∧ Forall (fun c => is_digit c = true) fp)
    as (fp & s2 & -> & Hfp).
  { destruct s1 as [| c t]; [by exists [], [] |].
    destruct (decide (c = 46)) as [-> | Hne].
    - destruct (span_digits_spec t) as (fp & s2 & -> & _ & Hfp & _). by exists fp, s2.
    - exists [], (c :: t). split; [| done].
      destruct c as [| p]; [done |].
      repeat (destruct p as [p | p |]; try done). }
  destruct (ip ++ fp) as [| d ds] eqn:E; [done |].
  destruct (match s2 with [] => _ | _ => _ end) as [e' s3]. intros [= <- _ _].
  change (0 ≤ digits_value (d :: ds) 0)%Z.
  apply digits_value_nonneg; [| lia]. rewrite <- E. by apply Forall_app.
Qed.

Lemma split_sign_dotted (s : str) : dotted s → split_sign s = (false, s).
Proof.
  intros H. destruct s as [| c t]; [done |].
  apply Forall_cons in H as [Hc _]. unfold split_sign.
  destruct (decide (c = 45)) as [-> | H1]; [by vm_compute in Hc |].
  destruct (decide (c = 43)) as [-> | H2]; [by vm_compute in Hc |].
  destruct c as [| p]; [done |].
  repeat (destruct p as [p | p |]; try done).
Qed.

Lemma ascii_lower_dotted (s : str) : dotted s → map ascii_lower s = s.
Proof.
  induction 1 as [| c s Hc _ IH]; [done |]. simpl. rewrite IH. f_equal.
  unfold ascii_lower. unfold is_digit in Hc.
  replace ((65 <=? c) && (c <=? 90)) with false; [done |].
  symmetry. apply andb_false_iff. left. apply N.leb_gt.
  apply orb_true_iff in Hc as [Hc | Hc].
  - apply andb_true_iff in Hc as [_ Hc]. apply N.leb_le in Hc. lia.
  - apply N.eqb_eq in Hc. lia.
Qed.

(** [float()] on digits and dots raises [ValueError] or gives a float
    that is no NaN and not negative. *)
Lemma float_dotted (s : str) :
  dotted s →
  float s = Raise ValueError ∨ ∃ m e, (0 ≤ m)%Z ∧ float s = Ret (of_decimal false m e).
Proof.
  intros H. unfold float.
  rewrite transform_ascii by (by apply dotted_ascii).
  rewrite strip_ascii_id by (by apply dotted_not_space).
  rewrite remove_underscores_id by (by apply dotted_no_underscore || done).
  unfold parse_literal. rewrite split_sign_dotted by done.
  destruct (parse_decimal s) as [[[m e] rest] |] eqn:E.
  - destruct rest; [| by left]. right. exists m, e. split; [| done].
    by eapply parse_decimal_nonneg.
  - left. rewrite ascii_lower_dotted by done.
    assert (∀ w, (∃ c t, w = c :: t ∧ is_digit c || (c =? 46) = false) →
                 bool_decide (s = w) = false) as Hw.
    { intros w (c & t & -> & Hc). apply bool_decide_eq_false. intros ->.
      apply Forall_cons in H as [Hc' _]. congruence. }
    rewrite !Hw; [done | | |]; by eexists _, _.
Qed.

End Float.

(** *** Tokens of digits, dots and commas *)

Section Tokens.

Import PyFloat.

Lemma float_dotted_parse (s : str) :
  dotted s →
  float s = match parse_decimal s with
            | Some (m, e, []) => Ret (of_decimal false m e)
            | _ => Raise ValueError
            end.
Proof.
  intros H. unfold float.
  rewrite transform_ascii by (by apply dotted_ascii).
  rewrite strip_ascii_id by (by apply dotted_not_space).
  rewrite remove_underscores_id by (by apply dotted_no_underscore || done).
  unfold parse_literal. rewrite split_sign_dotted by done.
  destruct (parse_decimal s) as [[[m e] rest] |] eqn:E.
  - by destruct rest.
  - rewrite ascii_lower_dotted by done.
    assert (∀ w, (∃ c t, w = c :: t ∧ is_digit c || (c =? 46) = false) →
                 bool_decide (s = w) = false) as Hw.
    { intros w (c & t & -> & Hc). apply bool_decide_eq_false. intros ->.
      apply Forall_cons in H as [Hc' _]. congruence. }
    rewrite !Hw; [done | | |]; by eexists _, _.
Qed.

Lemma replace_app (old : char) (new a b : str) :
  replace old new (a ++ b) = replace old new a ++ replace old new b.
Proof. unfold replace. apply flat_map_app. Qed.

Lemma replace_absent (old : char) (new s : str) :
  Forall (fun c => c ≠ old) s → replace old new s = s.
Proof.
  induction 1 as [| c s Hc _ IH]; [done |]. unfold replace in *. simpl.
  apply N.eqb_neq in Hc. by rewrite Hc, IH.
Qed.

Lemma is_digit_not (c x : char) : is_digit c = true → is_digit x = false → c ≠ x.
Proof. intros H1 H2 ->. congruence. Qed.

Lemma undotted_digits (t : str) : dotted t → Forall (fun c => is_digit c = true) (undotted t).
Proof.
  unfold undotted, replace. induction 1 as [| c t Hc _ IH]; [constructor |]. simpl.
  cbn beta in Hc.
  destruct (c =? 46) eqn:E; [done |]. simpl. constructor; [| done].
  by rewrite orb_false_r in Hc.
Qed.

Lemma digits_dotted (ds : str) : Forall (fun c => is_digit c = true) ds → dotted ds.
Proof. intros H. eapply Forall_impl; [exact H |]. intros c Hc. cbn beta. by rewrite Hc. Qed.

(** What the normaliser hands to [float()] for a token with one comma,
    and for a token without. *)
Lemma normalized_comma (t fp : str) :
  dotted t → Forall (fun c => is_digit c = true) fp →
  replace 44 (u ".") (replace 46 (u "") (t ++ 44 :: fp)) = undotted t ++ 46 :: fp.
Proof.
  intros Ht Hfp. change (t ++ 44 :: fp) with (t ++ [44] ++ fp).
  rewrite !replace_app. fold (undotted t).
  rewrite (replace_absent 46 _ fp), (replace_absent 44 _ fp), (replace_absent 44 _ (undotted t)).
  - done.
  - eapply Forall_impl; [by apply undotted_digits |]. intros c Hc.
    by apply (is_digit_not c 44).
  - eapply Forall_impl; [exact Hfp |]. intros c Hc. by apply (is_digit_not c 44).
  - eapply Forall_impl; [exact Hfp |]. intros c Hc. by apply (is_digit_not c 46).
Qed.

Lemma parse_decimal_point (ip fp : str) :
  Forall (fun c => is_digit c = true) ip → Forall (fun c => is_digit c = true) fp →
  ip ++ fp ≠ [] →
  parse_decimal (ip ++ 46 :: fp)
  = Some (digits_value (ip ++ fp) 0, (- Z.of_nat (length fp))%Z, []).
Proof.
  intros Hip Hfp Hne. unfold parse_decimal.
  rewrite (span_digits_run ip (46 :: fp)) by (done || right; by eexists _, _).
  pose proof (span_digits_run fp [] Hfp (or_introl eq_refl)) as Hs.
  rewrite app_nil_r in Hs. rewrite Hs.
  destruct (ip ++ fp) as [| d ds] eqn:E; [done |]. done.
Qed.

Lemma parse_decimal_int (ip : str) :
  Forall (fun c => is_digit c = true) ip → ip ≠ [] →
  parse_decimal ip = Some (digits_value ip 0, 0%Z, []).
Proof.
  intros Hip Hne. unfold parse_decimal.
  pose proof (span_digits_run ip [] Hip (or_introl eq_refl)) as Hs.
  rewrite app_nil_r in Hs. rewrite Hs, app_nil_r.
  destruct ip as [| d ds] eqn:E; [done |]. done.
Qed.

(** After a second point nothing is read. *)
Lemma parse_decimal_two_points (ip fp c : str) :
  Forall (fun c => is_digit c = true) ip → Forall (fun c => is_digit c = true) fp →
  match parse_decimal (ip ++ 46 :: fp ++ 46 :: c) with
  | Some (_, _, []) => False
  | _ => True
  end.
Proof.
  intros Hip Hfp. unfold parse_decimal.
  rewrite (span_digits_run ip (46 :: fp ++ 46 :: c)) by (done || right; by eexists _, _).
  rewrite (span_digits_run fp (46 :: c)) by (done || right; by eexists _, _).
  destruct (ip ++ fp) as [| d ds] eqn:E; done.
Qed.

End Tokens.

Lemma number_char_cases (c : char) :
  number_char c = true → PyFloat.is_digit c = true ∨ c = 46 ∨ c = 44.
Proof.
  unfold number_char, PyFloat.is_digit. intros H.
  apply orb_true_iff in H as [H | H]; [apply orb_true_iff in H as [H | H] |].
  - by left.
  - right. left. by apply N.eqb_eq.
  - right. right. by apply N.eqb_eq.
Qed.

(** The token the normaliser hands to [float()] holds digits and dots
    only. *)
Lemma normalized_dotted (s : str) :
  Forall (fun c => number_char c = true) s →
  dotted (replace 44 (u ".") (replace 46 (u "") s)).
Proof.
  induction 1 as [| c s Hc _ IH]; [constructor |].
  change (c :: s) with ([c] ++ s). rewrite !replace_app. apply Forall_app. split; [| done].
  apply number_char_cases in Hc as [Hc | [-> | ->]].
  - unfold replace. simpl.
    assert (c ≠ 46) as H1 by (by apply (is_digit_not c 46)).
    assert (c ≠ 44) as H2 by (by apply (is_digit_not c 44)).
    apply N.eqb_neq in H1, H2. rewrite H1. simpl. rewrite H2. simpl.
    constructor; [| constructor]. by rewrite Hc.
  - constructor.
  - by repeat constructor.
Qed.

Lemma try_float (s : str) :
  try_except (x ← PyFloat.float s; Ret (Some x)) ValueError (Ret None)
  = Ret match PyFloat.float s with
        | Ret x => Some x
        | Raise _ => None
        end.
Proof.
  destruct (PyFloat.float s) as [x | e] eqn:E; [done |].
  apply float_raises_ValueError in E as ->. done.
Qed.

(** The normaliser on a token of digits, dots and commas. *)
Lemma parse_br_number_token (s : str) :
  Forall (fun c => number_char c = true) s →
  parse_br_number (Some s)
  = Ret match s with
        | [] => None
        | _ =>
            match PyFloat.parse_decimal (replace 44 (u ".") (replace 46 (u "") s)) with
            | Some (m, e, []) => Some (PyFloat.of_decimal false m e)
            | _ => None
            end
        end.
Proof.
  intros H. unfold parse_br_number.
  rewrite strip_nospace
    by (eapply Forall_impl; [exact H |]; intros c; apply number_char_nonspace).
  destruct s as [| c t] eqn:Es; [done |]. rewrite <- Es in *.
  rewrite try_float, float_dotted_parse by (by apply normalized_dotted).
  destruct (PyFloat.parse_decimal _) as [[[m e] rest] |]; [| done].
  by destruct rest.
Qed.

Lemma parse_br_number_nonnegative (s : str) :
  Forall (fun c => number_char c = true) s →
  ∃ x, parse_br_number (Some s) = Ret x ∧ ∀ f, x = Some f → nonnegative f.
Proof.
  intros H. rewrite parse_br_number_token by done. eexists. split; [done |].
  intros f Hf. destruct s as [| c t]; [done |].
  destruct (PyFloat.parse_decimal _) as [[[m e] rest] |] eqn:E; [| done].
  destruct rest; [| done]. injection Hf as <-.
  apply of_decimal_nonnegative. by eapply parse_decimal_nonneg.
Qed.

(** ** Dates *)

Lemma format_pattern_Y :
  PyDatetime.format_pattern "%d/%m/%Y"
  = Some ("(?P<d>3[0-1]|[1-2]\d|0[1-9]|[1-9]| [1-9])/(?P<m>1[0-2]|0[1-9]|[1-9])/(?P<Y>\d\d\d\d)"%string,
          ["d"; "m"; "Y"]%char).
Proof. reflexivity. Qed.

Lemma format_pattern_y :
  PyDatetime.format_pattern "%d/%m/%y"
  = Some ("(?P<d>3[0-1]|[1-2]\d|0[1-9]|[1-9]| [1-9])/(?P<m>1[0-2]|0[1-9]|[1-9])/(?P<y>\d\d)"%string,
          ["d"; "m"; "y"]%char).
Proof. reflexivity. Qed.

Lemma compile_date_Y :
  Re.compile "(?P<d>3[0-1]|[1-2]\d|0[1-9]|[1-9]| [1-9])/(?P<m>1[0-2]|0[1-9]|[1-9])/(?P<Y>\d\d\d\d)"
  = Some (date_rx year4).
Proof. vm_compute. reflexivity. Qed.

Lemma compile_date_y :
  Re.compile "(?P<d>3[0-1]|[1-2]\d|0[1-9]|[1-9]| [1-9])/(?P<m>1[0-2]|0[1-9]|[1-9])/(?P<y>\d\d)"
  = Some (date_rx year2).
Proof. vm_compute. reflexivity. Qed.

(** [strptime] with a format of the program, on the compiled pattern. *)
Lemma strptime_Y (s : str) :
  PyDatetime.strptime s "%d/%m/%Y" =
    match Re.match_ Re.IGNORECASE (date_rx year4) s with
    | None => Raise ValueError
    | Some m =>
        if negb (length s =? Re.mo_end m)%nat then Raise ValueError
        else
          '(y, mo, d) ← PyDatetime.read_fields m ["d"; "m"; "Y"]%char 1 None 1 1;
          PyDatetime.make_date (default 1900 y) mo d
    end.
Proof.
  unfold PyDatetime.strptime. rewrite format_pattern_Y.
  unfold re_match. rewrite compile_date_Y. done.
Qed.

Lemma strptime_y (s : str) :
  PyDatetime.strptime s "%d/%m/%y" =
    match Re.match_ Re.IGNORECASE (date_rx year2) s with
    | None => Raise ValueError
    | Some m =>
        if negb (length s =? Re.mo_end m)%nat then Raise ValueError
        else
          '(y, mo, d) ← PyDatetime.read_fields m ["d"; "m"; "y"]%char 1 None 1 1;
          PyDatetime.make_date (default 1900 y) mo d
    end.
Proof.
  unfold PyDatetime.strptime. rewrite format_pattern_y.
  unfold re_match. rewrite compile_date_y. done.
Qed.

(** *** The day and the month in front of the matcher *)

Lemma enumerate (n lo hi : N) :
  lo ≤ n ≤ hi → In n (map N.of_nat (seq (N.to_nat lo) (S (N.to_nat hi) - N.to_nat lo))).
Proof.
  intros H. apply in_map_iff. exists (N.to_nat n). split; [lia |]. apply in_seq. lia.
Qed.

Ltac each_case H tac :=
  repeat (destruct H as [<- | H]; [tac |]); try (by destruct H).

Ltac compute_atoms :=
  repeat match goal with
         | |- context [Re.atom_match ?fl ?a ?c] =>
             let b := eval vm_compute in (Re.atom_match fl a c) in
             change (Re.atom_match fl a c) with b
         end.

Ltac compute_leb :=
  repeat match goal with
         | |- context [N.leb ?a ?b] =>
             let v := eval vm_compute in (N.leb a b) in
             change (N.leb a b) with v
         end.

Ltac compute_mod :=
  repeat match goal with
         | |- context [N.add 48 (N.modulo ?a 10)] =>
             let v := eval vm_compute in (N.add 48 (N.modulo a 10)) in
             change (N.add 48 (N.modulo a 10)) with v
         end.

Ltac run_case k :=
  cbn [Re.run Re.m_pos Re.m_rest Re.m_marks PyDatetime.pad_digits app];
  compute_atoms; compute_leb; compute_mod; cbv beta iota;
  repeat match goal with
         | |- context [k ?st] => destruct (k st)
         end;
  reflexivity.

Lemma day_run (d : N) (pos : nat) (rest : str) marks k :
  1 ≤ d ≤ 31 →
  Re.run Re.IGNORECASE day_alt (Re.MState pos (pad2 d ++ rest) marks) k
  = match k (Re.MState (S (S pos)) rest marks) with
    | Some r => Some r
    | None =>
        if 10 <=? d then k (Re.MState (S pos) (@cons char (48 + d mod 10) rest) marks) else None
    end.
Proof.
  intros H. apply (enumerate d 1 31) in H. vm_compute in H.
  unfold day_alt, pad2.
  each_case H ltac:(run_case k).
Qed.

Lemma month_run (m : N) (pos : nat) (rest : str) marks k :
  1 ≤ m ≤ 12 →
  Re.run Re.IGNORECASE month_alt (Re.MState pos (pad2 m ++ rest) marks) k
  = match k (Re.MState (S (S pos)) rest marks) with
    | Some r => Some r
    | None =>
        if 10 <=? m then k (Re.MState (S pos) (@cons char (48 + m mod 10) rest) marks) else None
    end.
Proof.
  intros H. apply (enumerate m 1 12) in H. vm_compute in H.
  unfold month_alt, pad2.
  each_case H ltac:(run_case k).
Qed.

(** *** The year *)

Lemma isdecimal_ascii (x : N) : x < 10 → Unicode.isdecimal (48 + x) = true.
Proof. intros H. unfold Unicode.isdecimal. by rewrite todecimal_ascii. Qed.

Lemma isdecimal_mod (n : N) : Unicode.isdecimal (48 + n mod 10) = true.
Proof. apply isdecimal_ascii. apply N.mod_upper_bound. lia. Qed.

Lemma isspace_mod (n : N) : Unicode.isspace (48 + n mod 10) = false.
Proof. apply decimal_not_space, isdecimal_mod. Qed.

Lemma pad2_chars (n : N) : pad2 n = [48 + (n / 10) mod 10; 48 + n mod 10].
Proof. reflexivity. Qed.



Lemma year2_run (y : N) (pos : nat) marks k :
  Re.run Re.IGNORECASE year2 (Re.MState pos (pad2 y) marks) k
  = k (Re.MState (S (S pos)) [] marks).
Proof.
  rewrite pad2_chars. unfold year2.
  cbn [Re.run Re.m_pos Re.m_rest Re.m_marks]. by rewrite !atom_digit, !isdecimal_mod.
Qed.

(** Four digits are asked for and two are there. *)
Lemma year4_short (y : N) (pos : nat) marks k :
  Re.run Re.IGNORECASE year4 (Re.MState pos (pad2 y) marks) k = None.
Proof.
  rewrite pad2_chars. unfold year4.
  cbn [Re.run Re.m_pos Re.m_rest Re.m_marks]. by rewrite !atom_digit, !isdecimal_mod.
Qed.

Lemma slash_digit (n : N) : Re.atom_match Re.IGNORECASE (Re.ALit 47) (48 + n mod 10) = false.
Proof. rewrite atom_uncased by done. apply N.eqb_neq. generalize (n mod 10). lia. Qed.

Lemma slash_slash : Re.atom_match Re.IGNORECASE (Re.ALit 47) 47 = true.
Proof. reflexivity. Qed.

(** *** The whole pattern *)

Section DateRun.

Variables (year : Re.regex) (ys : str) (n : nat).

Hypothesis Hyear : ∀ pos marks k,
  Re.run Re.IGNORECASE year (Re.MState pos ys marks) k
  = k (Re.MState (pos + n) [] marks).

Lemma date_run (d m : N) :
  1 ≤ d ≤ 31 → 1 ≤ m ≤ 12 →
  Re.run Re.IGNORECASE (date_rx year)
    (Re.MState 0 (pad2 d ++ 47 :: pad2 m ++ 47 :: ys) []) Some
  = Some (Re.MState (6 + n) []
            [(3%nat, (6%nat, (6 + n)%nat)); (2%nat, (3%nat, 5%nat)); (1%nat, (0%nat, 2%nat))]).
Proof.
  intros Hd Hm. unfold date_rx.
  cbn [Re.run Re.m_pos Re.m_rest Re.m_marks]. rewrite day_run by done.
  cbn [Re.run Re.m_pos Re.m_rest Re.m_marks]. rewrite slash_slash.
  rewrite month_run by done.
  cbn [Re.run Re.m_pos Re.m_rest Re.m_marks]. rewrite slash_slash.
  rewrite Hyear. cbn [Re.m_pos Re.m_rest Re.m_marks]. done.
Qed.

End DateRun.

Lemma date_run_short (d m yy : N) :
  1 ≤ d ≤ 31 → 1 ≤ m ≤ 12 →
  Re.run Re.IGNORECASE (date_rx year4)
    (Re.MState 0 (pad2 d ++ 47 :: pad2 m ++ 47 :: pad2 yy) []) Some = None.
Proof.
  intros Hd Hm. unfold date_rx.
  cbn [Re.run Re.m_pos Re.m_rest Re.m_marks]. rewrite day_run by done.
  cbn [Re.run Re.m_pos Re.m_rest Re.m_marks]. rewrite slash_slash, slash_digit.
  rewrite month_run by done.
  cbn [Re.run Re.m_pos Re.m_rest Re.m_marks]. rewrite slash_slash, slash_digit.
  rewrite year4_short. by destruct (10 <=? m), (10 <=? d).
Qed.

(** *** Reading the fields *)

Lemma int_digits (s : str) (v : N) :
  s ≠ [] → Forall (fun c => Unicode.isspace c = false) s →
  PyDatetime.digits_to_N s 0 = Some v → PyDatetime.int s = Ret v.
Proof.
  intros Hne Hs Hv. unfold PyDatetime.int. rewrite strip_nospace by done.
  destruct s; [done |]. by rewrite Hv.
Qed.

Lemma int_pad2 (n : N) : n < 100 → PyDatetime.int (pad2 n) = Ret n.
Proof.
  intros H. apply int_digits; [done | |].
  - rewrite pad2_chars. repeat constructor; apply isspace_mod.
  - rewrite pad2_chars. cbn [PyDatetime.digits_to_N].
    rewrite todecimal_ascii by (apply N.mod_upper_bound; lia). cbn [mbind option_bind].
    rewrite todecimal_ascii by (apply N.mod_upper_bound; lia). cbn [mbind option_bind].
    f_equal. by apply two_digits.
Qed.


Lemma valid_date_bounds (dt : PyDatetime.date) :
  valid_date dt →
  1 ≤ PyDatetime.year dt ≤ 9999 ∧ 1 ≤ PyDatetime.month dt ≤ 12
  ∧ 1 ≤ PyDatetime.day dt ≤ 31.
Proof. intros H. by apply make_date_valid in H as (_ & ? & ? & ?). Qed.

Ltac decide_char := first [rewrite decide_True by done | rewrite decide_False by done].


Lemma read_fields_y (mo : Re.match_obj) (gd gm gy : str) (d m y : N) :
  Re.group mo 1 = Some gd → Re.group mo 2 = Some gm → Re.group mo 3 = Some gy →
  PyDatetime.int gd = Ret d → PyDatetime.int gm = Ret m → PyDatetime.int gy = Ret y →
  PyDatetime.read_fields mo ["d"; "m"; "y"]%char 1 None 1 1 = Ret (Some (pivot y), m, d).
Proof.
  intros H1 H2 H3 Hd Hm Hy. cbn [PyDatetime.read_fields]. unfold group_str.
  rewrite H1, bind_ret, Hd, bind_ret. do 3 decide_char.
  rewrite H2, bind_ret, Hm, bind_ret. do 3 decide_char.
  rewrite H3, bind_ret, Hy, bind_ret. decide_char. done.
Qed.

Lemma date_groups (d m : N) (ys : str) (n : nat) :
  length ys = n →
  let mo := Re.Match (pad2 d ++ 47 :: pad2 m ++ 47 :: ys) 0 (6 + n)
              [(3%nat, (6%nat, (6 + n)%nat)); (2%nat, (3%nat, 5%nat));
               (1%nat, (0%nat, 2%nat))] in
  Re.group mo 1 = Some (pad2 d) ∧ Re.group mo 2 = Some (pad2 m) ∧ Re.group mo 3 = Some ys
  ∧ length (Re.mo_string mo) = Re.mo_end mo.
Proof.
  intros Hn mo. unfold mo, Re.group, Re.span.
  cbn [Re.mo_marks Re.lookup_mark Re.mo_string Re.mo_end Nat.eqb mbind option_bind].
  rewrite !pad2_chars. unfold slice. cbn [app drop take Nat.sub Nat.add length].
  split_and!; try done.
  - f_equal. rewrite drop_0, Nat.sub_0_r. apply take_ge. lia.
  - by rewrite Hn.
Qed.


(** A day, a month and a two-digit year: the first format of the
    program does not take them, the second does, with the year the two
    digits stand for. *)
Lemma strptime_short (d m yy : N) :
  yy < 100 → valid_date (PyDatetime.Date (pivot yy) m d) →
  PyDatetime.strptime (short_date d m yy) "%d/%m/%Y" = Raise ValueError
  ∧ PyDatetime.strptime (short_date d m yy) "%d/%m/%y"
    = Ret (PyDatetime.Date (pivot yy) m d).
Proof.
  intros Hyy Hv. pose proof (valid_date_bounds _ Hv) as (Hy & Hm & Hd).
  cbn [PyDatetime.year PyDatetime.month PyDatetime.day] in Hy, Hm, Hd.
  unfold short_date. cbn [app]. split.
  - rewrite strptime_Y. unfold Re.match_, Re.match_at.
    by rewrite date_run_short.
  - rewrite strptime_y. unfold Re.match_, Re.match_at.
    rewrite (date_run year2 (pad2 yy) 2);
      [| intros pos marks k; rewrite year2_run; do 2 f_equal; lia | done | done].
    cbn [mbind option_bind Re.m_pos Re.m_marks].
    destruct (date_groups d m (pad2 yy) 2 eq_refl) as (H1 & H2 & H3 & Hl).
    cbn [Re.mo_string Re.mo_end] in Hl. rewrite Hl, Nat.eqb_refl. cbn [negb].
    assert (d < 100) as Hd' by lia.
    assert (m < 100) as Hm' by lia.
    rewrite (read_fields_y _ _ _ _ _ _ _ H1 H2 H3
               (int_pad2 _ Hd') (int_pad2 _ Hm') (int_pad2 _ Hyy)).
    rewrite bind_ret. exact Hv.
Qed.


(** A token that parses holds a slash. *)
Lemma date_match_slash (year : Re.regex) (s : str) (mo : Re.match_obj) :
  Re.match_ Re.IGNORECASE (date_rx year) s = Some mo → 47 ∈ s.
Proof.
  intros H. apply match_sound in H as (st' & Hd & _).
  unfold date_rx in Hd. apply den_seq in Hd as (s1 & H1 & Hd).
  apply den_seq in Hd as (s2 & H2 & _).
  apply den_consumes in H1 as (cs & Hr & _). simpl in Hr.
  apply den_uncased in H2 as (Hr2 & _); [| done].
  rewrite Hr, Hr2. apply elem_of_app. right. apply list_elem_of_here.
Qed.

Lemma strptime_not_blank (s : str) (format : string) (dt : PyDatetime.date) :
  program_format format → PyDatetime.strptime s format = Ret dt → ¬ spaces s.
Proof.
  intros Hf H Hsp.
  assert (47 ∈ s) as Hin.
  { destruct Hf as [-> | ->].
    - rewrite strptime_Y in H.
      destruct (Re.match_ Re.IGNORECASE (date_rx year4) s) eqn:E; [| done].
      by eapply date_match_slash.
    - rewrite strptime_y in H.
      destruct (Re.match_ Re.IGNORECASE (date_rx year2) s) eqn:E; [| done].
      by eapply date_match_slash. }
  unfold spaces in Hsp. rewrite Forall_forall in Hsp. apply Hsp in Hin. done.
Qed.

(** The date normaliser, case by case. *)
Lemma rendered_date_cases (s : str) :
  (∃ format dt, program_format format ∧ PyDatetime.strptime s format = Ret dt
                ∧ rendered_date s = rendered dt)
  ∨ (parses_as "%d/%m/%Y" s = None ∧ parses_as "%d/%m/%y" s = None
     ∧ rendered_date s = strip s).
Proof.
  unfold rendered_date, parses_as.
  destruct (PyDatetime.strptime s "%d/%m/%Y") as [dt | e] eqn:E1.
  - left. exists "%d/%m/%Y"%string, dt. split_and!; [by left | done | done].
  - destruct (PyDatetime.strptime s "%d/%m/%y") as [dt | e'] eqn:E2.
    + left. exists "%d/%m/%y"%string, dt. split_and!; [by right | done | done].
    + right. split_and!; reflexivity.
Qed.

(** The digits of a year hold no white space. *)
Lemma unpadded_digits_nospace (fuel : nat) : ∀ (n : N) (acc : str),
  Forall (fun c => Unicode.isspace c = false) acc →
  Forall (fun c => Unicode.isspace c = false) (PyDatetime.unpadded_digits fuel n acc).
Proof.
  induction fuel as [| fuel IH]; intros n acc Hacc; [exact Hacc |].
  cbn [PyDatetime.unpadded_digits].
  assert (Forall (fun c => Unicode.isspace c = false) ((48 + n mod 10) :: acc)) as H.
  { constructor; [apply isspace_mod | exact Hacc]. }
  destruct (n / 10 =? 0); [exact H | by apply IH].
Qed.

(** What the program writes for a date has no white space in it. *)
Lemma rendered_nospace (dt : PyDatetime.date) :
  Forall (fun c => Unicode.isspace c = false) (rendered dt).
Proof.
  unfold rendered. fold (pad2 (PyDatetime.day dt)). fold (pad2 (PyDatetime.month dt)).
  rewrite !pad2_chars. cbn [app].
  constructor; [apply isspace_mod |]. constructor; [apply isspace_mod |].
  constructor; [reflexivity |].
  constructor; [apply isspace_mod |]. constructor; [apply isspace_mod |].
  constructor; [reflexivity |].
  apply unpadded_digits_nospace. constructor.
Qed.

(** For a date that exists and whose year has four digits, it is the
    canonical rendering. *)
Lemma rendered_valid (dt : PyDatetime.date) :
  valid_date dt → 1000 ≤ PyDatetime.year dt → rendered dt = canonical dt.
Proof.
  intros Hv Hy. apply rendered_canonical.
  pose proof (valid_date_bounds dt Hv) as (? & _). lia.
Qed.

(** ** The messages of [main] *)

Lemma process_upload_message (f : upload) :
  match process_upload f with
  | Ret [] => Some (Warning (upload_name f))
  | Ret _ => None
  | Raise e => Some (Error (upload_name f) e)
  end = file_message f.
Proof.
  destruct f as [name [pages | e]].
  - destruct (process_upload_ret name pages) as (records & Hr & Hp).
    assert (process_upload (Upload name (Ret pages)) = Ret (map finish_row records))
      as Hp' by exact Hp.
    rewrite Hp'. unfold file_message. cbn [upload_pages upload_name]. rewrite Hr.
    by destruct records.
  - done.
Qed.

Lemma main_loop_messages (fs : list upload) : ∀ acc,
  (foldl (fun acc f =>
            match process_upload f with
            | Ret [] => (acc.1, acc.2 ++ [Warning (upload_name f)])
            | Ret df => (acc.1 ++ [df], acc.2)
            | Raise e => (acc.1, acc.2 ++ [Error (upload_name f) e])
            end) acc fs).2
  = acc.2 ++ omap file_message fs.
Proof.
  induction fs as [| f fs IH]; intros acc; simpl.
  - by rewrite app_nil_r.
  - rewrite IH, <- process_upload_message.
    destruct (process_upload f) as [[| r df] | e]; simpl; by rewrite <- ?app_assoc.
Qed.

(** A file that cannot be opened leaves the rows of the other files as
    they are. *)
Lemma document_rows_failed (name : str) (e : exn) :
  document_rows (Upload name (Raise e)) = [].
Proof. reflexivity. Qed.

(** ** The text of a metric *)

Lemma metric_text_char (c : char) :
  c ≠ 88 → metric_text [c] = [swap_separators c].
Proof.
  intros Hc. apply N.eqb_neq in Hc. unfold metric_text, replace, swap_separators.
  simpl. destruct (c =? 44) eqn:E1; simpl; [done |].
  destruct (c =? 46) eqn:E2; simpl; [done |]. by rewrite Hc.
Qed.

Lemma metric_text_app (a b : str) : metric_text (a ++ b) = metric_text a ++ metric_text b.
Proof. unfold metric_text. by rewrite !replace_app. Qed.

Lemma metric_text_swap (formatted : str) :
  Forall (fun c => c ≠ 88) formatted →
  metric_text formatted = map swap_separators formatted.
Proof.
  induction 1 as [| c s Hc _ IH]; [done |].
  change (c :: s) with ([c] ++ s). rewrite metric_text_app, metric_text_char by done.
  by rewrite IH.
Qed.

(** ** The name of the file *)

(** *** Replacing the runs of a class *)

Section Runs.

Import Re ReSpec.

Variables (fl : flags) (a : atom) (text repl : str).

Let r : regex := RRepeat a 1 None true.

Lemma run_match_at (pos : nat) (c : char) (rest : str) :
  atom_match fl a c = true → is_Some (match_at fl r text pos (c :: rest)).
Proof.
  intros Hc. unfold match_at, r. cbn [run m_pos m_rest m_marks repeat_greedy].
  rewrite Hc. cbn [exhausted negb andb Nat.pred fmap option_fmap option_map].
  destruct (repeat_greedy_total fl a rest (S pos)
              (fun p rest0 => Some (MState p rest0 []))) as [st ->]; [by eexists |].
  by eexists.
Qed.

Lemma run_match_end (pos : nat) (m : match_obj) :
  (pos ≤ length text)%nat →
  match_at fl r text pos (drop pos text) = Some m →
  mo_start m = pos ∧ (pos < mo_end m)%nat.
Proof.
  intros Hl H. apply match_at_sound in H as (st' & Hd & ->). simpl.
  destruct Hd as (cs & _ & _ & Hlo & _ & Hp & _). simpl in Hp. lia.
Qed.

Lemma sub_from_step (pos : nat) (c : char) (rest : str) (ms : list match_obj) :
  drop pos text = c :: rest →
  match ms with [] => True | m :: _ => (S pos ≤ mo_start m)%nat end →
  sub_from repl text pos ms = c :: sub_from repl text (S pos) ms.
Proof.
  intros Hd Hms. destruct (drop_S_tail text pos c rest Hd) as [Hd' _].
  destruct ms as [| m ms]; simpl.
  - by rewrite Hd, Hd'.
  - unfold slice. rewrite Hd, Hd'.
    destruct (mo_start m - pos)%nat as [| k] eqn:E; [lia |].
    replace (mo_start m - S pos)%nat with k by lia. done.
Qed.

Lemma scan_first (lb : nat) (ms : list match_obj) :
  scan_ok fl r text lb ms →
  match ms with [] => True | m :: _ => (lb ≤ mo_start m)%nat end.
Proof. by destruct 1. Qed.

(** What [sub] leaves of the text is outside the class, and the rest is
    the replacement. *)
Lemma sub_from_chars (P : char → Prop) (rest : str) : ∀ pos skip,
  (∀ c, atom_match fl a c = false → P c) → Forall P repl →
  drop pos text = rest → (pos ≤ length text)%nat →
  Forall P (sub_from repl text (pos + skip) (finditer_from fl r text pos rest skip)).
Proof.
  intros pos skip HP Hrepl. revert pos skip.
  induction rest as [| c rest IH]; intros pos skip Hd Hl.
  - assert (pos = length text) as ->.
    { apply (f_equal length) in Hd. rewrite length_drop in Hd. simpl in Hd. lia. }
    destruct skip; simpl; rewrite drop_ge by lia; constructor.
  - destruct (drop_S_tail text pos c rest Hd) as [Hd' Hl'].
    destruct skip as [| skip]; simpl.
    + rewrite Nat.add_0_r.
      destruct (match_at fl r text pos (c :: rest)) as [m |] eqn:E.
      * rewrite <- Hd in E. destruct (run_match_end pos m Hl E) as [Hs He].
        simpl. rewrite Hs. unfold slice at 1. rewrite Nat.sub_diag, take_0. simpl.
        apply Forall_app. split; [done |].
        specialize (IH (S pos) (Nat.pred (mo_end m - pos)) Hd' Hl').
        replace (S pos + Nat.pred (mo_end m - pos))%nat with (mo_end m) in IH by lia.
        exact IH.
      * assert (atom_match fl a c = false) as Hc.
        { destruct (atom_match fl a c) eqn:Ec; [| done].
          destruct (run_match_at pos c rest Ec) as [m Hm]. congruence. }
        rewrite (sub_from_step pos c rest) by
          (done || (eapply scan_first, scan_ok_weaken;
                    [| apply (finditer_from_scan fl r text rest (S pos) 0 Hd' Hl')]; lia)).
        constructor; [by apply HP |].
        specialize (IH (S pos) 0%nat Hd' Hl'). by rewrite Nat.add_0_r in IH.
    + replace (pos + S skip)%nat with (S pos + skip)%nat by lia. by apply IH.
Qed.

(** Without a character of the class there is nothing to replace. *)
Lemma finditer_from_none (rest : str) : ∀ pos skip,
  Forall (fun c => atom_match fl a c = false) rest →
  finditer_from fl r text pos rest skip = [].
Proof.
  induction rest as [| c rest IH]; intros pos skip H.
  - destruct skip; simpl; [| done]. unfold match_at, r. done.
  - apply Forall_cons in H as [Hc H]. destruct skip; simpl; [| by apply IH].
    unfold match_at, r. cbn [run m_pos m_rest m_marks repeat_greedy].
    rewrite Hc. cbn [andb mbind option_bind]. by apply IH.
Qed.

End Runs.

(** *** Stripping characters *)

Section StripChars.

Variable chars : str.

Let drops (c : char) : bool := existsb (N.eqb c) chars.

Lemma lstrip_chars_head (s : str) (c : char) (t : str) :
  lstrip_chars chars s = c :: t → drops c = false.
Proof.
  induction s as [| x s IH]; simpl; [done |]. fold (drops x).
  destruct (drops x) eqn:E; [done |]. intros H. by simplify_eq.
Qed.

Lemma lstrip_chars_last (s : str) (c : char) (t : str) :
  lstrip_chars chars s = c :: t → last (lstrip_chars chars s) = last s.
Proof.
  induction s as [| x s IH]; simpl; [done |]. fold (drops x).
  destruct (drops x) eqn:E; [| done].
  intros H. rewrite (IH H). by destruct s.
Qed.

Lemma lstrip_chars_Forall (P : char → Prop) (s : str) :
  Forall P s → Forall P (lstrip_chars chars s).
Proof.
  induction 1 as [| x s Hx Hs IH]; simpl; [constructor |].
  destruct (existsb (N.eqb x) chars); [done | by constructor].
Qed.

Lemma Forall_rev_str (P : char → Prop) (s : str) : Forall P s → Forall P (rev s).
Proof.
  intros H. apply Forall_forall. intros c Hc. rewrite Forall_forall in H. apply H.
  apply list_elem_of_In. apply list_elem_of_In in Hc. by apply in_rev.
Qed.

Lemma strip_chars_Forall (P : char → Prop) (s : str) :
  Forall P s → Forall P (strip_chars chars s).
Proof.
  intros H. unfold strip_chars, rstrip_chars.
  by apply lstrip_chars_Forall, Forall_rev_str, lstrip_chars_Forall, Forall_rev_str.
Qed.

(** What [strip(chars)] returns neither starts nor ends with one of the
    characters. *)
Lemma strip_chars_ends (s : str) :
  strip_chars chars s = [] ∨
  ∃ c t d, strip_chars chars s = c :: t ∧ last (strip_chars chars s) = Some d
           ∧ drops c = false ∧ drops d = false.
Proof.
  unfold strip_chars. destruct (lstrip_chars chars (rstrip_chars chars s)) as [| c t] eqn:E;
    [by left | right].
  pose proof (lstrip_chars_last _ _ _ E) as Hl. rewrite E in Hl.
  destruct (last (rstrip_chars chars s)) as [d |] eqn:Ed.
  - exists c, t, d. split_and!; [done | done | by eapply lstrip_chars_head |].
    unfold rstrip_chars in Ed.
    destruct (lstrip_chars chars (rev s)) as [| x xs] eqn:Ex; [done |].
    simpl in Ed. rewrite last_snoc in Ed. simplify_eq. by eapply lstrip_chars_head.
  - apply last_None in Ed. rewrite Ed in E. done.
Qed.

Lemma lstrip_chars_id (s : str) :
  Forall (fun c => drops c = false) s → lstrip_chars chars s = s.
Proof. destruct 1 as [| c s Hc _]; [done |]. simpl. fold (drops c). by rewrite Hc. Qed.

Lemma strip_chars_id (s : str) :
  Forall (fun c => drops c = false) s → strip_chars chars s = s.
Proof.
  intros H. unfold strip_chars, rstrip_chars.
  rewrite (lstrip_chars_id (rev s)) by (by apply Forall_rev_str).
  rewrite rev_involutive. by apply lstrip_chars_id.
Qed.

End StripChars.

(** *** The pattern of [file_safe] *)

Lemma compile_unsafe :
  Re.compile "[^A-Za-z0-9\-]+" = Some (Re.RRepeat UNSAFE 1 None true).
Proof. vm_compute. reflexivity. Qed.

Lemma atom_unsafe (c : char) : Re.atom_match Re.NOFLAGS UNSAFE c = negb (label_char c).
Proof.
  unfold Re.atom_match, UNSAFE, label_char.
  cbn [Re.ignorecase Re.NOFLAGS andb xorb existsb Re.item_match].
  by rewrite orb_false_r, !orb_assoc.
Qed.

Lemma re_sub_unsafe (label : str) :
  re_sub "[^A-Za-z0-9\-]+" (u "_") label
  = Ret (sub_from (u "_") label 0
           (Re.finditer Re.NOFLAGS (Re.RRepeat UNSAFE 1 None true) label)).
Proof. unfold re_sub, re_compile. by rewrite compile_unsafe. Qed.

Lemma sub_unsafe_chars (label : str) :
  Forall (fun c => name_char c = true)
    (sub_from (u "_") label 0
       (Re.finditer Re.NOFLAGS (Re.RRepeat UNSAFE 1 None true) label)).
Proof.
  apply (sub_from_chars Re.NOFLAGS UNSAFE label (u "_")
           (fun c => name_char c = true) label 0 0).
  - intros c Hc. rewrite atom_unsafe in Hc. apply negb_false_iff in Hc.
    unfold name_char. by rewrite Hc.
  - by repeat constructor.
  - done.
  - lia.
Qed.

Lemma underscore_drops (c : char) : existsb (N.eqb c) (u "_") = (c =? 95).
Proof. simpl. by rewrite orb_false_r. Qed.

(** The file name from a label. *)
Lemma file_safe_spec (label : str) :
  ∃ safe, file_safe label = Ret safe
    ∧ Forall (fun c => name_char c = true) safe
    ∧ ∃ c t d, safe = c :: t ∧ last safe = Some d ∧ c ≠ 95 ∧ d ≠ 95.
Proof.
  unfold file_safe. rewrite re_sub_unsafe, bind_ret. eexists. split; [done |].
  set (replaced := sub_from _ _ _ _).
  destruct (strip_chars_ends (u "_") replaced) as [-> | (c & t & d & Hs & Hl & Hc & Hd)].
  - split; [by vm_compute; repeat constructor |].
    by exists 114, (u "omaneio"), 111.
  - rewrite Hs in *. split.
    + rewrite <- Hs. apply strip_chars_Forall, sub_unsafe_chars.
    + rewrite underscore_drops in Hc, Hd. apply N.eqb_neq in Hc, Hd.
      by exists c, t, d.
Qed.

(** A label of letters, digits and hyphens is its own file name. *)
Lemma file_safe_id (label : str) :
  label ≠ [] → Forall (fun c => label_char c = true) label →
  file_safe label = Ret label.
Proof.
  intros Hne H. unfold file_safe. rewrite re_sub_unsafe, bind_ret.
  unfold Re.finditer. rewrite finditer_from_none.
  - cbn [sub_from]. rewrite drop_0, strip_chars_id.
    + by destruct label.
    + eapply Forall_impl; [exact H |]. intros c Hc. cbn beta.
      rewrite underscore_drops. apply N.eqb_neq. intros ->. done.
  - eapply Forall_impl; [exact H |]. intros c Hc. cbn beta.
    by rewrite atom_unsafe, Hc.
Qed.

(** ** Records *)

Lemma block_keys_columns (k : string) : k ∈ BLOCK_KEYS → k ∈ COLUMNS.
Proof.
  intros H. unfold BLOCK_KEYS in H.
  repeat (apply elem_of_cons in H as [-> | H]; [in_list |]).
  by apply elem_of_nil in H.
Qed.

(** The record of a block on any header. *)
Lemma parse_block_header (block : str) :
  ∃ items : list (string * pyval),
    items.*1 = BLOCK_KEYS
    ∧ ∀ header,
        ∃ record, parse_block block header = Ret record
          ∧ dom record = dom header ∪ list_to_set COLUMNS
          ∧ (∀ k, k ∈ BLOCK_KEYS → record !! k = dict_update ∅ items !! k
                                   ∧ is_Some (record !! k))
          ∧ (∀ k, k ∉ BLOCK_KEYS →
               record !! k = match header !! k with
                             | Some v => Some v
                             | None => if bool_decide (k ∈ COLUMNS) then Some PNone else None
                             end).
Proof.
  destruct (parse_block_items block) as (items & Hk & Hp).
  exists items. split; [done |]. intros header. rewrite Hp. eexists. split; [done |].
  split_and!.
  - rewrite fill_missing_dom, dict_update_dom, Hk. apply set_eq. intros k.
    rewrite !elem_of_union, !elem_of_list_to_set.
    pose proof (block_keys_columns k). tauto.
  - intros k Hin. rewrite <- Hk in Hin.
    destruct (dict_update_is_Some items k header Hin) as [v Hv].
    rewrite fill_missing_lookup, Hv.
    split; [| by eexists]. rewrite <- Hv. by apply dict_update_same.
  - intros k Hout. rewrite <- Hk in Hout.
    by rewrite fill_missing_lookup, dict_update_other.
Qed.

(** *** The amounts of a block *)

Lemma number_token_nonnegative (subject token : str) (x : option spec_float) :
  (token = [] ∨
   ∃ before tail, subject = before ++ token ++ tail ∧ token ≠ []
     ∧ Forall (fun c => number_char c = true) token ∧ stops number_char tail) →
  parse_br_number (Some token) = Ret x →
  ∀ f, x = Some f → nonnegative f.
Proof.
  intros Ht Hp.
  assert (Forall (fun c => number_char c = true) token) as Hc.
  { destruct Ht as [-> | (_ & _ & _ & _ & H & _)]; [constructor | done]. }
  destruct (parse_br_number_nonnegative token Hc) as (x' & Hx & Hn).
  rewrite Hp in Hx. apply Ret_inj in Hx. by subst.
Qed.

Lemma pattern_ends_dup :
  pattern_ends "Duplicata\s+a\s+Receber\s*(.*?)\s*Valor:\s*R?\$?\s*([0-9\.,]+)"
  = Some (2%nat, NUMBER_CHAR, 1%nat, None, true).
Proof. vm_compute. reflexivity. Qed.

Lemma dup_value_nonnegative (block : str) (dup : option Re.match_obj) forma valor :
  re_search "Duplicata\s+a\s+Receber\s*(.*?)\s*Valor:\s*R?\$?\s*([0-9\.,]+)"
    block Re.IGNORECASE_DOTALL = Ret dup →
  match dup with
  | Some m =>
      g1 ← group_str m 1;
      v ← parse_br_number (Re.group m 2);
      Ret (strip g1, v)
  | None => Ret ([], None)
  end = Ret (forma, valor) →
  ∀ f, valor = Some f → nonnegative f.
Proof.
  intros Hs H. pose proof pattern_ends_dup as He. unfold pattern_ends in He.
  unfold re_search in Hs.
  destruct (Re.compile _) as [r |] eqn:Hc; [| done]. simpl in He.
  apply Ret_inj in Hs. subst dup.
  destruct (Re.search Re.IGNORECASE_DOTALL r block) as [m |] eqn:E;
    [| apply Ret_inj in H; injection H as <- <-; intros f Hf; discriminate Hf].
  destruct (search_ends_group _ _ _ _ _ _ _ _ _ He E)
    as (before & cs & tail & _ & Hg & Hcs & _).
  destruct (group_str m 1) as [g1 | e]; [| done]. rewrite bind_ret in H.
  assert (Forall (fun c => number_char c = true) cs) as Hn.
  { eapply Forall_impl; [exact Hcs |]. intros c Hc'. cbn beta in Hc'.
    by rewrite atom_number_char in Hc'. }
  destruct (parse_br_number_nonnegative cs Hn) as (x & Hx & Hnn).
  assert (parse_br_number (Re.group m 2) = Ret x) as Hx' by (rewrite Hg; exact Hx).
  rewrite Hx', bind_ret in H. apply Ret_inj in H. injection H as <- <-. exact Hnn.
Qed.

(** *** Tokens with two commas *)

Lemma normalized_two_commas (a b c : str) :
  dotted a → dotted b →
  replace 44 (u ".") (replace 46 (u "") (a ++ 44 :: b ++ 44 :: c))
  = undotted a ++ 46 :: undotted b ++ 46 :: replace 44 (u ".") (replace 46 (u "") c).
Proof.
  intros Ha Hb.
  change (a ++ 44 :: b ++ 44 :: c) with (a ++ [44] ++ b ++ [44] ++ c).
  rewrite !replace_app. fold (undotted a). fold (undotted b).
  rewrite (replace_absent 44 _ (undotted a)), (replace_absent 44 _ (undotted b)).
  - done.
  - eapply Forall_impl; [by apply undotted_digits |]. intros x Hx.
    by apply (is_digit_not x 44).
  - eapply Forall_impl; [by apply undotted_digits |]. intros x Hx.
    by apply (is_digit_not x 44).
Qed.

Lemma two_commas_none (a b c : str) :
  dotted a → dotted b → Forall (fun x => number_char x = true) c →
  parse_br_number (Some (a ++ 44 :: b ++ 44 :: c)) = Ret None.
Proof.
  intros Ha Hb Hc.
  assert (∀ s, dotted s → Forall (fun x => number_char x = true) s) as Hdn.
  { intros s Hs. eapply Forall_impl; [exact Hs |]. intros x Hx. cbn beta in Hx.
    unfold number_char. unfold PyFloat.is_digit in Hx.
    apply orb_true_iff in Hx as [-> | ->]; [done |]. by rewrite orb_true_r. }
  rewrite parse_br_number_token.
  - destruct (a ++ 44 :: b ++ 44 :: c) as [| x t] eqn:E; [by destruct a |].
    rewrite <- E, normalized_two_commas by done. f_equal.
    pose proof (parse_decimal_two_points (undotted a) (undotted b)
                  (replace 44 (u ".") (replace 46 (u "") c))
                  (undotted_digits a Ha) (undotted_digits b Hb)) as H.
    destruct (PyFloat.parse_decimal _) as [[[m e] rest] |]; [| done].
    by destruct rest.
  - apply Forall_app. split; [by apply Hdn |]. constructor; [done |].
    apply Forall_app. split; [by apply Hdn |]. by constructor.
Qed.

(** *** Tokens with one comma, or none *)

Lemma one_comma_value (t fp : str) :
  dotted t → Forall (fun c => PyFloat.is_digit c = true) fp → undotted t ++ fp ≠ [] →
  parse_br_number (Some (t ++ 44 :: fp))
  = Ret (Some (PyFloat.of_decimal false
                 (PyFloat.digits_value (undotted t ++ fp) 0)
                 (- Z.of_nat (length fp)))).
Proof.
  intros Ht Hfp Hne.
  assert (Forall (fun x => number_char x = true) (t ++ 44 :: fp)) as Hn.
  { apply Forall_app. split.
    - eapply Forall_impl; [exact Ht |]. intros x Hx. cbn beta in Hx.
      unfold number_char. unfold PyFloat.is_digit in Hx.
      apply orb_true_iff in Hx as [-> | ->]; [done |]. by rewrite orb_true_r.
    - constructor; [done |]. eapply Forall_impl; [exact Hfp |]. intros x Hx.
      unfold number_char. unfold PyFloat.is_digit in Hx. by rewrite Hx. }
  rewrite parse_br_number_token by done.
  destruct (t ++ 44 :: fp) as [| x s] eqn:E; [by destruct t |].
  rewrite <- E, normalized_comma by done.
  by rewrite parse_decimal_point by (by apply undotted_digits || done).
Qed.

Lemma no_comma_value (t : str) :
  dotted t → undotted t ≠ [] →
  parse_br_number (Some t)
  = Ret (Some (PyFloat.of_decimal false (PyFloat.digits_value (undotted t) 0) 0)).
Proof.
  intros Ht Hne.
  assert (Forall (fun x => number_char x = true) t) as Hn.
  { eapply Forall_impl; [exact Ht |]. intros x Hx. cbn beta in Hx.
    unfold number_char. unfold PyFloat.is_digit in Hx.
    apply orb_true_iff in Hx as [-> | ->]; [done |]. by rewrite orb_true_r. }
  rewrite parse_br_number_token by done.
  destruct t as [| x s] eqn:E; [done |]. rewrite <- E in *.
  assert (replace 44 (u ".") (replace 46 (u "") t) = undotted t) as ->.
  { fold (undotted t). apply replace_absent.
    eapply Forall_impl; [by apply undotted_digits |]. intros y Hy.
    by apply (is_digit_not y 44). }
  by rewrite parse_decimal_int by (by apply undotted_digits || done).
Qed.

(** The ten block fields of a record. *)
Lemma record_fields (header : dict) nn cc nc pe ci pp en tn fr vr :
  let record :=
    fill_missing
      (dict_update header
         [ ("numero_nota", PStr nn);
           ("codigo_cliente", PStr cc);
           ("nome_cliente", PStr nc);
           ("pedido", PStr pe);
           ("cidade", PStr ci);
           ("peso_pedido", of_number pp);
           ("endereco", PStr en);
           ("total_nota", of_number tn);
           ("forma_recebimento", PStr fr);
           ("valor_recebimento", of_number vr) ]) in
  record !! "numero_nota" = Some (PStr nn)
  ∧ record !! "codigo_cliente" = Some (PStr cc)
  ∧ record !! "nome_cliente" = Some (PStr nc)
  ∧ record !! "pedido" = Some (PStr pe)
  ∧ record !! "cidade" = Some (PStr ci)
  ∧ record !! "peso_pedido" = Some (of_number pp)
  ∧ record !! "endereco" = Some (PStr en)
  ∧ record !! "total_nota" = Some (of_number tn)
  ∧ record !! "forma_recebimento" = Some (PStr fr)
  ∧ record !! "valor_recebimento" = Some (of_number vr).
Proof. intros record. unfold record. split_and!; by lookup_record. Qed.

(** The six fields of a header. *)
Lemma header_lookups ro em pr mo ve ca :
  let header : dict :=
    dict_update ∅
      [ ("rota", PStr ro);
        ("data_emissao", PStr em);
        ("data_previsao", PStr pr);
        ("motorista", PStr mo);
        ("veiculo", PStr ve);
        ("carga", PStr ca) ] in
  header !! "rota" = Some (PStr ro)
  ∧ header !! "data_emissao" = Some (PStr em)
  ∧ header !! "data_previsao" = Some (PStr pr)
  ∧ header !! "motorista" = Some (PStr mo)
  ∧ header !! "veiculo" = Some (PStr ve)
  ∧ header !! "carga" = Some (PStr ca).
Proof. intros header. unfold header. split_and!; by lookup_record. Qed.

(** ** The route line, both ways *)

Lemma route_run (ds ws name : str) :
  digits ds → (2 ≤ length ds ≤ 4)%nat → spaces ws → ws ≠ [] →
  name ≠ [] → Forall (fun c => route_char c = true) name →
  (∀ d, last name = Some d → Unicode.isspace d = false) →
  ∀ r, Re.compile "^\d{2,4}\s+[A-Za-zÀ-ÿ0-9 .,\-()]+$" = Some r →
  ∃ st, Re.run Re.NOFLAGS r (Re.MState 0 (ds ++ ws ++ name) []) Some = Some st.
Proof.
  intros Hds Hlen Hws Hne Hnn Hname Hlast r Hc.
  vm_compute in Hc. injection Hc as <-.
  destruct (stops_split Unicode.isspace name) as (sp & rest & Hsplit & Hsp & Hstop).
  assert (rest ≠ []) as Hrest.
  { intros ->. rewrite app_nil_r in Hsplit. subst sp.
    destruct (last name) as [d |] eqn:E; [| apply last_None in E; done].
    pose proof (Hlast d eq_refl) as Hd.
    apply last_Some in E as [l' ->]. apply Forall_app in Hsp as [_ Hsp'].
    apply Forall_cons in Hsp' as [Hsp' _]. congruence. }
  assert (Forall (fun c => route_char c = true) rest) as Hrc.
  { rewrite Hsplit in Hname. by apply Forall_app in Hname as [_ ?]. }
  exists (Re.MState (0 + length ds + length (ws ++ sp) + length rest) [] []).
  cbn [Re.run Re.m_pos Re.m_rest Re.m_marks Nat.eqb].
  apply (repeat_greedy_take Re.NOFLAGS DIGIT ds (ws ++ name) 2 (Some 4%nat) 0).
  { by apply digits_match. }
  { lia. }
  { cbn beta iota. lia. }
  { left. destruct ws as [| w ws']; [done |]. right. exists w, (ws' ++ name).
    split; [done |]. rewrite atom_digit. apply space_not_decimal.
    unfold spaces in Hws. by apply Forall_cons in Hws as [? _]. }
  cbn [Re.run Re.m_pos Re.m_rest Re.m_marks].
  assert (ws ++ name = (ws ++ sp) ++ rest) as -> by (by rewrite Hsplit, app_assoc).
  apply (repeat_greedy_take Re.NOFLAGS SPACE (ws ++ sp) rest 1 None).
  { apply Forall_app. split.
    - eapply Forall_impl; [exact Hws |]. intros c Hc. cbn beta. by rewrite atom_space.
    - eapply Forall_impl; [exact Hsp |]. intros c Hc. cbn beta. by rewrite atom_space. }
  { rewrite length_app. destruct ws; [done | simpl; lia]. }
  { done. }
  { left. destruct Hstop as [-> | (c & t & -> & Hc)]; [by left | right].
    exists c, t. split; [done |]. by rewrite atom_space. }
  cbn [Re.run Re.m_pos Re.m_rest Re.m_marks].
  pose proof (repeat_greedy_take Re.NOFLAGS ROUTE_CHAR rest [] 1 None) as Htake.
  rewrite app_nil_r in Htake. apply Htake.
  { eapply Forall_impl; [exact Hrc |]. intros c Hc. cbn beta. by rewrite atom_route_char. }
  { destruct rest; [done | simpl; lia]. }
  { done. }
  { left. by left. }
  cbn [Re.run Re.m_pos Re.m_rest Re.m_marks]. reflexivity.
Qed.

(** A stripped line matches the pattern of the route exactly when it is
    a route line. *)
Lemma route_line_match (line : str) :
  strip line = line → route_line line →
  ∃ m, re_match "^\d{2,4}\s+[A-Za-zÀ-ÿ0-9 .,\-()]+$" line Re.NOFLAGS = Ret (Some m).
Proof.
  intros Hl (ds & ws & name & Hline & Hds & Hlen & Hws & Hne & Hnn & Hname).
  unfold re_match.
  destruct (Re.compile "^\d{2,4}\s+[A-Za-zÀ-ÿ0-9 .,\-()]+$") as [r |] eqn:Hc;
    [| by vm_compute in Hc].
  destruct (route_run ds ws name Hds Hlen Hws Hne Hnn Hname) with (r := r) as [st Hst].
  - intros d Hd.
    destruct (strip_ends line) as [Hnil | (c & t & d' & _ & Hlast & _ & Hd')].
    + rewrite Hl, Hline in Hnil. apply app_eq_nil in Hnil as [_ Hnil].
      apply app_eq_nil in Hnil as [Hnil _]. destruct (Hne Hnil).
    + rewrite Hl, Hline in Hlast. rewrite !last_app, Hd in Hlast.
      injection Hlast as <-. exact Hd'.
  - exact Hc.
  - unfold Re.match_, Re.match_at. rewrite <- Hline in Hst.
    rewrite Hst. simpl. eauto.
Qed.

Lemma route_match_line (line : str) (m : Re.match_obj) :
  strip line = line →
  re_match "^\d{2,4}\s+[A-Za-zÀ-ÿ0-9 .,\-()]+$" line Re.NOFLAGS = Ret (Some m) →
  route_line line.
Proof.
  intros Hl E.
  apply route_match in E
    as (ds & ws & name & tail & Hline & Hds & Hlen & Hws & Hne & Hnn & Hname & Htail).
  assert (line = ds ++ ws ++ name) as Heq.
  { destruct Htail as [-> | ->]; [by rewrite app_nil_r in Hline |]. exfalso.
    destruct (strip_ends line) as [Hnil | (c & t & d & _ & Hlast & _ & Hd)].
    - rewrite Hl in Hnil. rewrite Hnil in Hline. by destruct ds, ws.
    - rewrite Hl in Hlast. rewrite Hline, !app_assoc, last_snoc in Hlast.
      injection Hlast as <-. done. }
  exists ds, ws, name. split; [exact Heq |]. split; [exact Hds |].
  split; [lia |]. split; [exact Hws |]. split; [exact Hne |]. split; [exact Hnn | exact Hname].
Qed.

(** The loop over the lines returns the first route line, and the empty
    string only when no line is a route line. *)
Lemma first_rota_first (lines : list str) :
  Forall (fun line => strip line = line) lines →
  ∃ rota, first_rota lines = Ret rota
    ∧ ((rota = [] ∧ Forall (fun line => ¬ route_line line) lines)
       ∨ ∃ pre post, lines = pre ++ rota :: post ∧ route_line rota
                     ∧ Forall (fun line => ¬ route_line line) pre).
Proof.
  induction lines as [| line lines IH]; intros HF.
  { exists []. split; [done |]. left. split; [done | constructor]. }
  apply Forall_cons in HF as [Hl HF]. cbn [first_rota].
  destruct (re_match "^\d{2,4}\s+[A-Za-zÀ-ÿ0-9 .,\-()]+$" line Re.NOFLAGS)
    as [[m |] | e] eqn:E.
  - rewrite bind_ret. exists line. split; [done |]. right. exists [], lines.
    split; [done |]. split; [by eapply route_match_line | constructor].
  - rewrite bind_ret. destruct (IH HF) as (rota & Hr & Hs). exists rota. split; [done |].
    assert (¬ route_line line) as Hno.
    { intros Hroute. destruct (route_line_match line Hl Hroute) as [m Hm]. congruence. }
    destruct Hs as [[-> Hall] | (pre & post & -> & Hroute & Hpre)].
    + left. split; [done | by constructor].
    + right. exists (line :: pre), post. split; [done |]. split; [done | by constructor].
  - exfalso. unfold re_match in E.
    destruct (Re.compile "^\d{2,4}\s+[A-Za-zÀ-ÿ0-9 .,\-()]+$") eqn:Hc; [done |].
    by vm_compute in Hc.
Qed.

Lemma header_rota (text : str) :
  ∃ rota e p m v c,
    first_rota (stripped_lines text) = Ret rota
    ∧ extract_header_fields text =
        Ret (dict_update ∅
               [ ("rota", PStr rota);
                 ("data_emissao", PStr e);
                 ("data_previsao", PStr p);
                 ("motorista", PStr m);
                 ("veiculo", PStr v);
                 ("carga", PStr c) ]).
Proof.
  unfold extract_header_fields. fold (stripped_lines text).
  destruct (first_rota_total (stripped_lines text)) as [rota Hr]. rewrite Hr.
  destruct (find_total text "Emiss[aã]o:\s*([\d/]{8,10})") as [e ->]; [by vm_compute |].
  destruct (find_total text "Previs[aã]o:\s*([\d/]{8,10})") as [p ->]; [by vm_compute |].
  destruct (find_total text "Motorista:\s*([^\n]+)") as [m ->]; [by vm_compute |].
  destruct (find_total text "Ve[ií]culo:\s*([^\n]+)") as [v ->]; [by vm_compute |].
  destruct (find_total text "Carga[:\s]+([0-9\.,]+)") as [c ->]; [by vm_compute |].
  rewrite !bind_ret. by exists rota, e, p, m, v, c.
Qed.

Lemma stripped_lines_stripped (text : str) :
  Forall (fun line => strip line = line) (stripped_lines text).
Proof.
  unfold stripped_lines. rewrite Forall_map. apply Forall_forall. intros l _.
  apply strip_strip.
Qed.

(** ** The rows of the table *)








Lemma stripped_lines_spec (text line : str) :
  line ∈ stripped_lines text
  ↔ ∃ l, l ∈ splitlines text ∧ line = strip l ∧ line ≠ [].
Proof.
  unfold stripped_lines. rewrite list_elem_of_fmap. split.
  - intros (l & -> & Hin). apply list_elem_of_In, filter_In in Hin as [Hin Hne].
    exists l. split; [by apply list_elem_of_In |]. split; [done |].
    intros Heq. by rewrite Heq in Hne.
  - intros (l & Hin & -> & Hne). exists l. split; [done |].
    apply list_elem_of_In, filter_In. split; [by apply list_elem_of_In |].
    by destruct (strip l).
Qed.

Lemma first_route_line (text : str) :
  ∃ header rota,
    extract_header_fields text = Ret header
    ∧ header !! "rota" = Some (PStr rota)
    ∧ ((rota = [] ∧ Forall (fun line => ¬ route_line line) (stripped_lines text))
       ∨ ∃ pre post, stripped_lines text = pre ++ rota :: post ∧ route_line rota
                     ∧ Forall (fun line => ¬ route_line line) pre).
Proof.
  destruct (header_rota text) as (rota & e & p & m & v & c & Hr & Hh).
  destruct (header_lookups rota e p m v c) as (L1 & _).
  destruct (first_rota_first (stripped_lines text) (stripped_lines_stripped text))
    as (rota' & Hr' & Hcases).
  rewrite Hr in Hr'. apply Ret_inj in Hr'. subst rota'.
  eexists _, rota. split; [exact Hh |]. split; [exact L1 | exact Hcases].
Qed.

(** ** The order number of a block cut at [Pedido:] *)







(** *** The blocks cut at the lines that read [Pedido:] *)







(** ** The properties *)

(** X1: the segmenter loses nothing but white space after the first
    offset it records: the text from that offset on is the blocks in
    their order, with white space before, between and after them; what
    stands before the first offset is in no block. *)
Theorem X1_blocks_cover_text (text : str) :
  ∃ blocks,
    split_notes_blocks text = Ret blocks
    ∧ match recorded_offsets text with
      | [] => blocks = []
      | o :: _ => separated blocks (drop o text)
      end.
Proof.
  rewrite split_notes_blocks_recorded. eexists. split; [done |].
  pose proof (recorded_offsets_ascending text) as Ha.
  destruct (recorded_offsets text) as [| o offs]; [done |].
  by apply blocks_between_separated.
Qed.

(** X2: the segmenter returns one block for each offset it records, and
    every block is a non-empty string without white space at either
    end. *)
Theorem X2_blocks_stripped (text : str) :
  ∃ blocks,
    split_notes_blocks text = Ret blocks
    ∧ length blocks = length (recorded_offsets text)
    ∧ Forall (fun b => b ≠ [] ∧ strip b = b) blocks.
Proof.
  rewrite split_notes_blocks_recorded. eexists. split; [done |]. split.
  - apply blocks_between_length.
  - apply Forall_and. split; [apply recorded_blocks_nonempty | apply blocks_between_stripped].
Qed.

(** X3: when the first pattern records nothing, the blocks are the text
    cut at the word [Pedido:] of every line that reads [Pedido:] and
    digits, and at nothing else: the offsets of these words are exactly
    the lines of that shape, in ascending order, and cutting there gives
    the blocks the segmenter returns. *)
Theorem X3_fallback_cut_at_word (text : str) :
  primary_positions text = [] →
  split_notes_blocks text = Ret (blocks_between text (pedido_offsets text))
  ∧ (∀ t, t ∈ pedido_offsets text ↔ pedido_line_at text t)
  ∧ ascending (length text) (pedido_offsets text).
Proof.
  intros H. apply primary_positions_nil in H. split_and!.
  - rewrite split_notes_blocks_offsets, H. f_equal. apply fallback_blocks_word.
  - intros t. split; [apply pedido_offsets_sound | apply pedido_offsets_complete].
  - apply pedido_offsets_ascending.
Qed.

Lemma X3_fallback_cut_at_word_witness :
  primary_positions (join [LF] [u "Cliente A"; u "Pedido: 1"; u "  Pedido: 22"]) = []
  ∧ split_notes_blocks (join [LF] [u "Cliente A"; u "Pedido: 1"; u "  Pedido: 22"])
    = Ret (blocks_between (join [LF] [u "Cliente A"; u "Pedido: 1"; u "  Pedido: 22"])
             (pedido_offsets (join [LF] [u "Cliente A"; u "Pedido: 1"; u "  Pedido: 22"]))).
Proof.
  assert (primary_positions (join [LF] [u "Cliente A"; u "Pedido: 1"; u "  Pedido: 22"]) = [])
    as H by (vm_compute; reflexivity).
  split; [exact H |]. exact (proj1 (X3_fallback_cut_at_word _ H)).
Defined.

(** X4: when the first pattern records offsets, there is one record for
    each of them, in their order, and its [numero_nota] is the note
    number that stands in the text at that offset: three to five digits,
    a hyphen and every digit that follows, three at least. *)
Theorem X4_note_number_from_text (text : str) :
  primary_positions text ≠ [] →
  ∃ records,
    parse_text_to_records text = Ret records
    ∧ Forall2 (fun (o : nat) (r : dict) =>
                 ∃ s rest, r !! "numero_nota" = Some (PStr s) ∧ note_id 3 s
                           ∧ drop o text = s ++ rest ∧ stops Unicode.isdecimal rest)
        (primary_offsets text) records.
Proof.
  intros Hne. destruct (pipeline_ret text) as (header & blocks & records & _ & Hb & Hr & HF & _).
  exists records. split; [done |].
  rewrite split_notes_blocks_offsets in Hb. apply Ret_inj in Hb. subst blocks.
  destruct (primary_offsets text) as [| o offs] eqn:E.
  - exfalso. apply Hne. by apply primary_positions_nil.
  - rewrite <- E in *. by eapply primary_records.
Qed.

Lemma X4_note_number_from_text_witness :
  primary_positions example_document ≠ []
  ∧ ∃ records,
      parse_text_to_records example_document = Ret records
      ∧ Forall2 (fun (o : nat) (r : dict) =>
                   ∃ s rest, r !! "numero_nota" = Some (PStr s) ∧ note_id 3 s
                             ∧ drop o example_document = s ++ rest
                             ∧ stops Unicode.isdecimal rest)
          (primary_offsets example_document) records.
Proof.
  assert (primary_positions example_document ≠ []) as H by (vm_compute; discriminate).
  split; [exact H |]. exact (X4_note_number_from_text example_document H).
Defined.

(** X5: a file whose pages hold no decimal digit gives no record: the
    pipeline returns the empty list on its text, [parse_pdf] an empty
    frame, and [main] shows the warning for the file and keeps no
    frame. *)
Theorem X5_no_digit_no_record (name : str) (pages : list (option str)) :
  Forall (fun page => digitless (default [] page)) pages →
  parse_text_to_records (join [LF] (map (fun page => default [] page) pages)) = Ret []
  ∧ parse_pdf pages = Ret []
  ∧ main_loop [Upload name (Ret pages)] = ([], [Warning name]).
Proof.
  intros H.
  assert (parse_text_to_records (join [LF] (map (fun page => default [] page) pages)) = Ret [])
    as Hr.
  { apply digitless_records, digitless_join. by rewrite Forall_map. }
  assert (parse_pdf pages = Ret []) as Hp.
  { unfold parse_pdf. by rewrite Hr. }
  split_and!; [done | done |].
  unfold main_loop. cbn [foldl]. unfold process_upload. cbn [upload_pages upload_name].
  by rewrite bind_ret, Hp.
Qed.

Lemma X5_no_digit_no_record_witness :
  Forall (fun page => digitless (default [] page)) [Some (u "sem notas"); None]
  ∧ parse_pdf [Some (u "sem notas"); None] = Ret [].
Proof.
  assert (Forall (fun page => digitless (default [] page)) [Some (u "sem notas"); None]) as H.
  { repeat constructor. }
  split; [exact H |]. exact (proj1 (proj2 (X5_no_digit_no_record (u "a.pdf") _ H))).
Defined.

(** X6: on any header the block parser returns a record whose keys are
    those of the header and the sixteen columns; its ten block fields do
    not depend on the header and replace what the header holds under
    these keys; every other key of the header keeps its value, and a
    column that neither the header nor the block supplies is [None]. *)
Theorem X6_block_record_and_header (block : str) :
  ∃ items : list (string * pyval),
    items.*1 = BLOCK_KEYS
    ∧ ∀ header,
        ∃ record, parse_block block header = Ret record
          ∧ dom record = dom header ∪ list_to_set COLUMNS
          ∧ (∀ k, k ∈ BLOCK_KEYS → record !! k = dict_update ∅ items !! k
                                   ∧ is_Some (record !! k))
          ∧ (∀ k, k ∉ BLOCK_KEYS →
               record !! k = match header !! k with
                             | Some v => Some v
                             | None => if bool_decide (k ∈ COLUMNS) then Some PNone else None
                             end).
Proof. apply parse_block_header. Qed.

(** X7: the customer's line of a block is stripped and holds no line
    feed; either it is kept whole as [nome_cliente] with an empty
    [codigo_cliente], or it is the code, a hyphen with optional white
    space around it, and the name: the code is a non-empty string of
    digits and the name a non-empty stripped string. *)
Theorem X7_customer_code_and_name (block : str) (header : dict) :
  ∃ record nome codigo cliente,
    parse_block block header = Ret record
    ∧ find block "Nome:\s*([^\n]+)" = Ret nome
    ∧ rest_of_line block nome
    ∧ record !! "codigo_cliente" = Some (PStr codigo)
    ∧ record !! "nome_cliente" = Some (PStr cliente)
    ∧ ((codigo = [] ∧ cliente = nome)
       ∨ (∃ w1 w2,
            nome = codigo ++ w1 ++ HYPHEN :: w2 ++ cliente
            ∧ digits codigo ∧ codigo ≠ [] ∧ spaces w1 ∧ spaces w2
            ∧ cliente ≠ [] ∧ strip cliente = cliente)).
Proof.
  destruct (parse_block_fields block)
    as (numero & nome & codigo & cliente & pedido & cidade & pt & peso & endereco
        & tt & total & dm & forma & valor
        & _ & Hnome & Hcn & _ & _ & _ & _ & _ & _ & _ & _ & _ & Hp).
  destruct (code_pattern_line block nome Hnome) as (Hlf & Hs & Hline).
  pose proof (split_nome nome codigo cliente Hlf Hs Hcn) as Hsplit.
  destruct (record_fields header numero codigo cliente pedido cidade peso endereco
              total forma valor) as (_ & H1 & H2 & _).
  eexists _, nome, codigo, cliente. split; [apply Hp |].
  split; [exact Hnome |]. split; [exact Hline |]. split; [exact H1 |].
  split; [exact H2 | exact Hsplit].
Qed.

(** X8: the fields of the header.  [rota] is empty or a stripped line of
    the text made of two to four digits, white space and a name of
    letters, digits, spaces and [.,-()]; each date is empty or eight to
    ten digits and slashes that stand in the text; [motorista] and
    [veiculo] are empty or the stripped rest of a line; [carga] is empty
    or a run of ASCII digits, dots and commas of the text that no
    further such character follows. *)
Theorem X8_header_field_shapes (text : str) :
  ∃ header rota data_emissao data_previsao motorista veiculo carga,
    extract_header_fields text = Ret header
    ∧ header !! "rota" = Some (PStr rota)
    ∧ header !! "data_emissao" = Some (PStr data_emissao)
    ∧ header !! "data_previsao" = Some (PStr data_previsao)
    ∧ header !! "motorista" = Some (PStr motorista)
    ∧ header !! "veiculo" = Some (PStr veiculo)
    ∧ header !! "carga" = Some (PStr carga)
    ∧ (rota = [] ∨
       ((∃ line, line ∈ splitlines text ∧ rota = strip line) ∧ route_line rota))
    ∧ (data_emissao = [] ∨
       (token_of date_char text data_emissao ∧ (8 ≤ length data_emissao ≤ 10)%nat))
    ∧ (data_previsao = [] ∨
       (token_of date_char text data_previsao ∧ (8 ≤ length data_previsao ≤ 10)%nat))
    ∧ rest_of_line text motorista
    ∧ rest_of_line text veiculo
    ∧ (carga = [] ∨
       ∃ before tail, text = before ++ carga ++ tail ∧ carga ≠ []
         ∧ Forall (fun c => number_char c = true) carga ∧ stops number_char tail).
Proof.
  destruct (header_fields text)
    as (rota & e & p & m & v & c & Hh & Hr & He & Hp & Hm & Hv & Hc).
  destruct (header_lookups rota e p m v c) as (L1 & L2 & L3 & L4 & L5 & L6).
  eexists _, rota, e, p, m, v, c. split; [exact Hh |].
  split; [exact L1 |]. split; [exact L2 |]. split; [exact L3 |]. split; [exact L4 |].
  split; [exact L5 |]. split; [exact L6 |]. split; [exact Hr |]. split; [exact He |].
  split; [exact Hp |]. split; [exact Hm |]. split; [exact Hv | exact Hc].
Qed.

(** X9: the fields of a block.  [pedido], [cidade] and [endereco] are
    empty or the stripped rest of a line of the block; [peso_pedido],
    [total_nota] and [valor_recebimento] are [None] or a float that is
    no NaN and is not negative, as they are read from tokens of digits,
    dots and commas. *)
Theorem X9_block_field_shapes (block : str) (header : dict) :
  ∃ record pedido cidade endereco peso total valor,
    parse_block block header = Ret record
    ∧ record !! "pedido" = Some (PStr pedido) ∧ rest_of_line block pedido
    ∧ record !! "cidade" = Some (PStr cidade) ∧ rest_of_line block cidade
    ∧ record !! "endereco" = Some (PStr endereco) ∧ rest_of_line block endereco
    ∧ record !! "peso_pedido" = Some (of_number peso)
    ∧ record !! "total_nota" = Some (of_number total)
    ∧ record !! "valor_recebimento" = Some (of_number valor)
    ∧ Forall (fun x : option spec_float => ∀ f, x = Some f → nonnegative f)
        [peso; total; valor].
Proof.
  destruct (parse_block_fields block)
    as (numero & nome & codigo & cliente & pedido & cidade & pt & peso & endereco
        & tt & total & dm & forma & valor
        & _ & _ & _ & Hpe & Hci & Hpt & Hpeso & Hen & Htt & Htotal & Hdm & Hfv & Hp).
  eexists _, pedido, cidade, endereco, peso, total, valor. split; [apply Hp |].
  destruct (find_line block "Pedido:\s*([^\n]+)") as (s1 & Hf1 & Hs1); [by vm_compute |].
  destruct (find_line block "Cidade:\s*([^\n]+)") as (s2 & Hf2 & Hs2); [by vm_compute |].
  destruct (find_line block "Endere[cç]o:\s*([^\n]+)") as (s3 & Hf3 & Hs3); [by vm_compute |].
  destruct (find_number block "Peso\s*Pedido:\s*([0-9\.,]+)") as (s4 & Hf4 & Hs4);
    [by vm_compute |].
  destruct (find_number block "Total\s+da\s+Nota:\s*R?\$?\s*([0-9\.,]+)")
    as (s5 & Hf5 & Hs5); [by vm_compute |].
  rewrite Hpe in Hf1. rewrite Hci in Hf2. rewrite Hen in Hf3.
  rewrite Hpt in Hf4. rewrite Htt in Hf5.
  apply Ret_inj in Hf1, Hf2, Hf3, Hf4, Hf5. subst s1 s2 s3 s4 s5.
  destruct (record_fields header numero codigo cliente pedido cidade peso endereco
              total forma valor) as (_ & _ & _ & L1 & L2 & L3 & L4 & L5 & _ & L6).
  split; [exact L1 |]. split; [exact Hs1 |]. split; [exact L2 |]. split; [exact Hs2 |].
  split; [exact L4 |]. split; [exact Hs3 |]. split; [exact L3 |]. split; [exact L5 |].
  split; [exact L6 |].
  constructor; [exact (number_token_nonnegative block pt peso Hs4 Hpeso) |].
  constructor; [exact (number_token_nonnegative block tt total Hs5 Htotal) |].
  constructor; [exact (dup_value_nonnegative block dm forma valor Hdm Hfv) | constructor].
Qed.

(** X10: on a token of ASCII digits and dots followed by a comma and
    ASCII digits the number normaliser returns the float nearest to the
    number the digits spell, the dots left out and the digits after the
    comma as decimals; without comma and decimals the token gives the
    same value. *)
Theorem X10_number_value (t fp : str) :
  dotted t → Forall (fun c => PyFloat.is_digit c = true) fp → undotted t ++ fp ≠ [] →
  parse_br_number (Some (t ++ 44 :: fp))
  = Ret (Some (PyFloat.of_decimal false
                 (PyFloat.digits_value (undotted t ++ fp) 0)
                 (- Z.of_nat (length fp))))
  ∧ (fp = [] → parse_br_number (Some t) = parse_br_number (Some (t ++ [44]))).
Proof.
  intros Ht Hfp Hne. split; [by apply one_comma_value |].
  intros ->. rewrite app_nil_r in Hne.
  rewrite (no_comma_value t Ht Hne). symmetry.
  etransitivity; [apply (one_comma_value t [] Ht Hfp); by rewrite app_nil_r |].
  by rewrite app_nil_r.
Qed.

Lemma X10_number_value_witness :
  dotted (u "1.234.567") ∧ undotted (u "1.234.567") = u "1234567"
  ∧ parse_br_number (Some (u "1.234.567,89"))
    = Ret (Some (PyFloat.of_decimal false 123456789 (-2))).
Proof.
  assert (dotted (u "1.234.567")) as Ht by (by repeat constructor).
  assert (Forall (fun c => PyFloat.is_digit c = true) (u "89")) as Hfp
    by (by repeat constructor).
  assert (undotted (u "1.234.567") ++ u "89" ≠ []) as Hne by discriminate.
  split_and!; [exact Ht | reflexivity |].
  exact (proj1 (X10_number_value (u "1.234.567") (u "89") Ht Hfp Hne)).
Defined.

(** X11: a token of digits, dots and commas with two commas or more is
    no number: the normaliser returns [None]. *)
Theorem X11_two_commas (a b c : str) :
  dotted a → dotted b → Forall (fun x => number_char x = true) c →
  parse_br_number (Some (a ++ 44 :: b ++ 44 :: c)) = Ret None.
Proof. apply two_commas_none. Qed.

Lemma X11_two_commas_witness :
  dotted (u "1") ∧ dotted (u "2") ∧ parse_br_number (Some (u "1,2,3")) = Ret None.
Proof.
  assert (dotted (u "1")) as Ha by (by repeat constructor).
  assert (dotted (u "2")) as Hb by (by repeat constructor).
  assert (Forall (fun x => number_char x = true) (u "3")) as Hc by (by repeat constructor).
  split_and!; [exact Ha | exact Hb |].
  exact (X11_two_commas (u "1") (u "2") (u "3") Ha Hb Hc).
Defined.

(** X12: the date normaliser returns a string without white space at
    either end, and the empty string exactly for an empty or blank
    input. *)
Theorem X12_date_output_stripped (s : str) :
  ∃ t, format_date_br s = Ret t ∧ strip t = t ∧ (t = [] ↔ spaces s).
Proof.
  rewrite format_date_br_spec. eexists. split; [done |].
  destruct (rendered_date_cases s) as [(format & dt & Hf & Hs & ->) | (_ & _ & ->)].
  - split; [apply strip_nospace, rendered_nospace |]. split.
    + intros H. by destruct (PyDatetime.pad_digits 2 (PyDatetime.day dt) []) eqn:E.
    + intros H. exfalso. by eapply strptime_not_blank.
  - split; [apply strip_strip | apply strip_nil].
Qed.



(** X14: a day, a month and a two-digit year [yy], written [dd/mm/yy]:
    the normaliser returns the date with the year [2000 + yy] when [yy]
    is 68 at most and [1900 + yy] otherwise, when that date exists. *)
Theorem X14_two_digit_year (d m yy : N) :
  yy < 100 → valid_date (PyDatetime.Date (pivot yy) m d) →
  format_date_br (short_date d m yy) = Ret (canonical (PyDatetime.Date (pivot yy) m d)).
Proof.
  intros Hyy Hv. destruct (strptime_short d m yy Hyy Hv) as [H1 H2].
  rewrite format_date_br_spec. f_equal. unfold rendered_date, parses_as.
  rewrite H1, H2. apply rendered_valid; [exact Hv |].
  cbn [PyDatetime.year]. unfold pivot. destruct (N.leb_spec yy 68); lia.
Qed.

Lemma X14_two_digit_year_witness :
  69 < 100 ∧ valid_date (PyDatetime.Date (pivot 69) 2 1)
  ∧ format_date_br (u "01/02/69") = Ret (u "01/02/1969").
Proof.
  assert (69 < 100) as H1 by lia.
  assert (valid_date (PyDatetime.Date (pivot 69) 2 1)) as H2 by reflexivity.
  split_and!; [exact H1 | exact H2 |]. exact (X14_two_digit_year 1 2 69 H1 H2).
Defined.

(** X15: the messages of [main], in the order of the files: an error
    with its exception for each file that cannot be opened, a warning
    for each file whose text holds no note, and nothing else; parsing a
    file that opens never gives an error. *)
Theorem X15_messages (uploaded_files : list upload) :
  (main_loop uploaded_files).2 = omap file_message uploaded_files
  ∧ ∀ name e, Error name e ∈ (main_loop uploaded_files).2 →
      ∃ f, f ∈ uploaded_files ∧ upload_name f = name ∧ upload_pages f = Raise e.
Proof.
  assert ((main_loop uploaded_files).2 = omap file_message uploaded_files) as H.
  { unfold main_loop. by rewrite main_loop_messages. }
  split; [exact H |]. intros name e Hin. rewrite H in Hin.
  apply list_elem_of_omap in Hin as (f & Hf & Hm). exists f. split; [done |].
  unfold file_message in Hm. destruct (upload_pages f) as [pages | e'] eqn:E.
  - destruct (parse_text_to_records _) as [[| r rs] | e'']; simplify_eq.
  - by simplify_eq.
Qed.

(** X16: the name of the file to download is [romaneio_rota_], a safe
    name and [.xlsx]; the safe name is not empty, holds only ASCII
    letters and digits, hyphens and underscores, and neither starts nor
    ends with an underscore; a label of letters, digits and hyphens is
    its own safe name. *)
Theorem X16_download_name (rota_label : str) :
  ∃ safe,
    file_safe rota_label = Ret safe
    ∧ download_name rota_label = Ret (u "romaneio_rota_" ++ safe ++ u ".xlsx")
    ∧ Forall (fun c => name_char c = true) safe
    ∧ (∃ c t d, safe = c :: t ∧ last safe = Some d ∧ c ≠ 95 ∧ d ≠ 95)
    ∧ (rota_label ≠ [] → Forall (fun c => label_char c = true) rota_label →
       safe = rota_label).
Proof.
  destruct (file_safe_spec rota_label) as (safe & Hs & Hc & He).
  exists safe. split; [exact Hs |]. split.
  { unfold download_name. rewrite Hs. reflexivity. }
  split; [exact Hc |]. split; [exact He |].
  intros Hne Hl. rewrite (file_safe_id rota_label Hne Hl) in Hs.
  apply Ret_inj in Hs. symmetry. exact Hs.
Qed.

(** X17: the text of a metric swaps the commas and the dots of the
    formatted number, which holds no [X]. *)
Theorem X17_metric_text (formatted : str) :
  Forall (fun c => c ≠ 88) formatted →
  metric_text formatted = map swap_separators formatted.
Proof. apply metric_text_swap. Qed.

Lemma X17_metric_text_witness :
  Forall (fun c => c ≠ 88) (u "1,234.50") ∧ metric_text (u "1,234.50") = u "1.234,50".
Proof.
  assert (Forall (fun c => c ≠ 88) (u "1,234.50")) as H by (by repeat constructor).
  split; [exact H |]. exact (X17_metric_text (u "1,234.50") H).
Defined.


(** X19: [rota] is the first route line of the text.  Among the lines
    of the text that are not blank, stripped, it is the first one made
    of two to four digits, white space and a name; it is empty exactly
    when no line is of that shape. *)
Theorem X19_first_route_line (text : str) :
  (∀ line, line ∈ stripped_lines text
           ↔ ∃ l, l ∈ splitlines text ∧ line = strip l ∧ line ≠ [])
  ∧ ∃ header rota,
      extract_header_fields text = Ret header
      ∧ header !! "rota" = Some (PStr rota)
      ∧ ((rota = [] ∧ Forall (fun line => ¬ route_line line) (stripped_lines text))
         ∨ ∃ pre post, stripped_lines text = pre ++ rota :: post ∧ route_line rota
                       ∧ Forall (fun line => ¬ route_line line) pre).
Proof.
  split; [intros line; apply stripped_lines_spec | apply first_route_line].
Qed.


